(** * vera_lite: monthly balance accumulation

    A shallow embedding of [apply_historical_to_monthly.py], and of the
    column matching of [import_opening_balance.py].

    The script reads an opening-balance snapshot and two voucher
    (transaction) tables from a MySQL database, computes one balance per
    (account, month) over a fixed nine-month window under two policies
    (cumulative for asset/liability accounts, periodic for income/expense
    accounts) and upserts the result into [monthly_balance].

    Modelling conventions:
    - tables are lists of records, in storage order; [monthly_balance],
      which has a unique key on (account, month_key), is a finite map;
    - Python dicts are finite maps ([py_dict] keeps the last binding of a
      key, as [dict(zip(..))] does);
    - the amounts the database holds are integers (minor units) and the
      sums SQL computes are exact; what Python computes with them is
      binary64 arithmetic, as the spec says and as Python floats are:
      [float(x)] is the nearest float (ties to even), [+] the machine
      addition, and [monthly_balance] holds the float it was sent;
    - the three readers paste their account list into the statement text:
      MySQL answers for the values it reads back from that text (under its
      default [sql_mode]), a text that it does not read as a list of
      literals being taken to break the statement; [text()] of SQLAlchemy
      looks for bind parameters after a colon, which is not modelled, and
      a month key is compared as it is: the theorems about the readers
      assume account codes without colon (and plain month keys);
    - SQL text comparisons are exact string equality, and the columns
      [voucher], [amount_original], [transaction_date] of the voucher
      tables are taken as NOT NULL;
    - the script is an effectful program over one database connection: it
      is embedded in a state-and-exception monad [py] whose state is the
      connection (statement log, pending faults, committed and in-flight
      contents of [monthly_balance]) and whose outcomes are a normal
      return, [sys.exit(code)], or an exception that nothing catches. *)

From Stdlib Require Import ZArith String Ascii List Lia.
From Stdlib Require PrimFloat SpecFloat FloatOps.
From stdpp Require Import gmap strings list fin_maps.

Local Open Scope string_scope.
Local Open Scope Z_scope.

(** ** Python string operations used by the script *)

Module PyStr.

(** The text is made of ASCII characters. *)
Fixpoint is_ascii (s : string) : Prop :=
  match s with
  | EmptyString => True
  | String c s' => (nat_of_ascii c < 128)%nat /\ is_ascii s'
  end.

(** [str.lower()] of an ASCII text: the letters A-Z are lowered, nothing
    else changes. (On other texts Python lowers further letters, which
    [lower] leaves alone.) *)
Definition lower_ascii (c : ascii) : ascii :=
  let n := nat_of_ascii c in
  if ((65 <=? n) && (n <=? 90))%nat then ascii_of_nat (n + 32) else c.

Fixpoint lower (s : string) : string :=
  match s with
  | EmptyString => EmptyString
  | String c s' => String (lower_ascii c) (lower s')
  end.

(** [pat in s], which is what [Series.str.contains(pat)] computes for a
    pattern without regular-expression metacharacters. *)
Fixpoint contains (pat s : string) : bool :=
  String.prefix pat s ||
  match s with
  | EmptyString => false
  | String _ s' => contains pat s'
  end.

(** [astype(str)] on an object column read from SQL: NULL arrives as
    [None], whose [str] is the text None. *)
Definition astype_str (o : option string) : string := default "None" o.

(** [s.split(sep)] for a one-character separator. *)
Fixpoint split (sep : ascii) (s : string) : list string :=
  match s with
  | EmptyString => [EmptyString]
  | String c s' =>
      if Ascii.eqb c sep then EmptyString :: split sep s'
      else match split sep s' with
           | [] => [String c EmptyString]
           | w :: ws => String c w :: ws
           end
  end.

Definition digit_of (c : ascii) : option Z :=
  let n := Z.of_nat (nat_of_ascii c) in
  if (48 <=? n) && (n <=? 57) then Some (n - 48) else None.

(** The characters [str.strip()] and [int] take for blanks, among the
    ASCII ones: tab to carriage return, the four separators, space. *)
Definition is_space (c : ascii) : bool :=
  let n := nat_of_ascii c in
  (((9 <=? n) && (n <=? 13)) || ((28 <=? n) && (n <=? 32)))%nat.

Fixpoint lstrip (s : string) : string :=
  match s with
  | EmptyString => EmptyString
  | String c s' => if is_space c then lstrip s' else s
  end.

Fixpoint rstrip (s : string) : string :=
  match s with
  | EmptyString => EmptyString
  | String c s' =>
      match rstrip s' with
      | EmptyString => if is_space c then EmptyString
                       else String c EmptyString
      | r => String c r
      end
  end.

(** Decimal digits, with single underscores between digits;
    [after_digit] tells whether the character before was a digit. *)
Fixpoint int_digits (s : string) (acc : Z) (after_digit : bool)
  : option Z :=
  match s with
  | EmptyString => if after_digit then Some acc else None
  | String c s' =>
      match digit_of c with
      | Some d => int_digits s' (10 * acc + d) true
      | None =>
          if Ascii.eqb c "_"%char && after_digit
          then int_digits s' acc false
          else None
      end
  end.

(** [int(s)] on an ASCII text: blanks around, an optional sign, decimal
    digits; [None] stands for the [ValueError] Python raises on anything
    else. *)
Definition int (s : string) : option Z :=
  match rstrip (lstrip s) with
  | EmptyString => None
  | String c s' =>
      if Ascii.eqb c "+"%char then int_digits s' 0 false
      else if Ascii.eqb c "-"%char then Z.opp <$> int_digits s' 0 false
      else int_digits (String c s') 0 false
  end.

(** [s1 <= s2] on [str]: lexicographic order on code points. *)
Definition le (s1 s2 : string) : bool := String.leb s1 s2.

End PyStr.

(** ** Python floats *)

Module PyFloat.

(** [float(x)] of an exact amount: the nearest binary64 number, ties to
    even (an infinity beyond the range). *)
Definition of_Z (x : Z) : PrimFloat.float :=
  FloatOps.SF2Prim
    (SpecFloat.binary_normalize FloatOps.prec FloatOps.emax x 0 false).

(** The float addition of [x] and [y] loses nothing. *)
Definition exact_add (x y : Z) : Prop :=
  PrimFloat.add (of_Z x) (of_Z y) = of_Z (x + y).

(** Adding the [xs] to [acc] one after the other loses nothing. *)
Fixpoint exact_from (acc : Z) (xs : list Z) : Prop :=
  match xs with
  | [] => True
  | x :: xs' => exact_add acc x /\ exact_from (acc + x) xs'
  end.

End PyFloat.

(** [dict(zip(keys, values))]: a later binding of a key replaces an
    earlier one. *)
Definition py_dict {V : Type} (kvs : list (string * V)) : gmap string V :=
  foldl (fun m kv => <[kv.1 := kv.2]> m) ∅ kvs.

(** ** Data model: the tables of the [vera] schema *)

Record date := Date { d_year : Z; d_month : Z; d_day : Z }.

(** A row of [vouchers] or [vouchers_curr_month]. *)
Record voucher_row := VoucherRow {
  transaction_date : date;
  account_code : string;
  amount_original : Z;
  voucher : string
}.

(** A row of [opening_balance]. *)
Record opening_row := OpeningRow {
  ob_account : string;
  ob_opening_balance : option Z;
  ob_account_type : option string;
  ob_description : option string
}.

(** A row of [historical_variance]. *)
Record historical_row := HistoricalRow {
  hv_account : string;
  hv_month_key : string;
  smoothened_amount : option Z;
  journal_amount : option Z
}.

(** The non-key columns of a row of [monthly_balance]; the column
    [opening_balance] of that table stores the computed monthly value. *)
Record monthly_row := MonthlyRow {
  mb_opening_balance : option PrimFloat.float;
  mb_description : option string;
  mb_account_type : option string
}.

(** [monthly_balance], keyed by (account, month_key). *)
Abbreviation monthly_table := (gmap (string * string) monthly_row).

(** The tables the script only reads, and the names of the tables that
    exist in the schema. *)
Record database := Database {
  schema_tables : list string;
  opening_balance : list opening_row;
  historical_variance : list historical_row;
  vouchers : list voucher_row;
  vouchers_curr_month : list voucher_row
}.

(** A parameter dict passed to the INSERT statement. *)
Record param_row := ParamRow {
  p_account : string;
  p_month_key : string;
  p_balance : PrimFloat.float;
  p_description : option string;
  p_account_type : option string
}.

(** ** Configuration *)

Definition MONTHS : list string :=
  ["2025-01"; "2025-02"; "2025-03"; "2025-04"; "2025-05"; "2025-06";
   "2025-07"; "2025-08"; "2025-09"].

Definition OPENING_BALANCE_TABLE : string := "opening_balance".
Definition HISTORICAL_TABLE : string := "historical_variance".
Definition MONTHLY_TABLE : string := "monthly_balance".

(** ** SQL expressions *)

Module Sql.

(** [SUM(x)] is NULL over no rows. *)
Definition SUM (xs : list Z) : option Z :=
  match xs with
  | [] => None
  | _ => Some (foldr Z.add 0 xs)
  end.

Definition COALESCE {A} (o : option A) (d : A) : A := default d o.

(** [NULLIF(a, '')]. *)
Definition NULLIF_empty (a : option string) : option string :=
  match a with
  | Some s => if String.eqb s "" then None else Some s
  | None => None
  end.

(** [IFNULL(a, b)]. *)
Definition IFNULL (a b : option string) : option string :=
  match a with
  | Some s => Some s
  | None => b
  end.

(** [voucher NOT IN ('BRTFWD', 'ROLCLR', 'OBTFER')]. *)
Definition marker_vouchers : list string := ["BRTFWD"; "ROLCLR"; "OBTFER"].

Definition not_marker (v : string) : bool :=
  negb (existsb (String.eqb v) marker_vouchers).

(** [x IN (...)] over a list of string literals. *)
Definition IN (x : string) (xs : list string) : bool :=
  existsb (String.eqb x) xs.

(** [SELECT k, COALESCE(SUM(v),0) ... GROUP BY k], read into a dict:
    one entry per key that has at least one selected row. *)
Definition group_sum (kvs : list (string * Z)) : gmap string Z :=
  foldl (fun m kv => <[kv.1 := default 0 (m !! kv.1) + kv.2]> m) ∅ kvs.

End Sql.

(** ** The IN-list helper and the text MySQL reads back *)

Module SqlText.

Definition quote : ascii := "'"%char.
Definition backslash : ascii := "\"%char.
Definition comma : ascii := ","%char.
Definition colon : ascii := ":"%char.

(** [s.replace("'", "''")]. *)
Fixpoint double_quotes (s : string) : string :=
  match s with
  | EmptyString => EmptyString
  | String c s' =>
      if Ascii.eqb c quote then String quote (String quote (double_quotes s'))
      else String c (double_quotes s')
  end.

(** [sep.join(parts)] for a one-character separator. *)
Fixpoint join (sep : ascii) (parts : list string) : string :=
  match parts with
  | [] => EmptyString
  | [p] => p
  | p :: ps => p ++ String sep (join sep ps)
  end.

(** ["'" + str(v).replace("'", "''") + "'"]. *)
Definition literal (v : string) : string :=
  String quote (double_quotes v ++ String quote EmptyString).

Definition sql_in_list (values : list string) : string :=
  join comma (map literal values).

(** What MySQL, under its default [sql_mode], makes of a backslash
    followed by [c] inside a quoted string. *)
Definition unescape (c : ascii) : string :=
  if Ascii.eqb c "0"%char then String (ascii_of_nat 0) EmptyString
  else if Ascii.eqb c "b"%char then String (ascii_of_nat 8) EmptyString
  else if Ascii.eqb c "n"%char then String (ascii_of_nat 10) EmptyString
  else if Ascii.eqb c "r"%char then String (ascii_of_nat 13) EmptyString
  else if Ascii.eqb c "t"%char then String (ascii_of_nat 9) EmptyString
  else if Ascii.eqb c "Z"%char then String (ascii_of_nat 26) EmptyString
  else if Ascii.eqb c "%"%char then String backslash (String c EmptyString)
  else if Ascii.eqb c "_"%char then String backslash (String c EmptyString)
  else String c EmptyString.

(** The reader's position in a comma-separated list of quoted strings:
    before a literal, inside one, after a backslash inside one, or after a
    quote that either closes the literal or starts a doubled quote. *)
Inductive lexer :=
| Before
| Inside (cur : string)
| Escaped (cur : string)
| AfterQuote (cur : string).

(** The values MySQL reads from the text of an IN list; [None] when the
    text is not a non-empty list of quoted strings (a syntax error). *)
Fixpoint read_list (s : string) (st : lexer) (done : list string)
  : option (list string) :=
  match s with
  | EmptyString =>
      match st with
      | AfterQuote cur => Some (done ++ [cur])%list
      | Before | Inside _ | Escaped _ => None
      end
  | String c s' =>
      match st with
      | Before =>
          if Ascii.eqb c quote then read_list s' (Inside EmptyString) done
          else None
      | Inside cur =>
          if Ascii.eqb c quote then read_list s' (AfterQuote cur) done
          else if Ascii.eqb c backslash then read_list s' (Escaped cur) done
          else read_list s' (Inside (cur ++ String c EmptyString)) done
      | Escaped cur => read_list s' (Inside (cur ++ unescape c)) done
      | AfterQuote cur =>
          if Ascii.eqb c quote
          then read_list s' (Inside (cur ++ String quote EmptyString)) done
          else if Ascii.eqb c comma
          then read_list s' Before (done ++ [cur])%list
          else None
      end
  end.

Definition parse_in_list (s : string) : option (list string) :=
  read_list s Before [].

(** The value holds no backslash. *)
Fixpoint no_backslash (s : string) : Prop :=
  match s with
  | EmptyString => True
  | String c s' => c <> backslash /\ no_backslash s'
  end.

(** The character [c] does not occur in [s]. *)
Fixpoint free_of (c : ascii) (s : string) : Prop :=
  match s with
  | EmptyString => True
  | String d s' => d <> c /\ free_of c s'
  end.

(** An account code that a pasted list carries unchanged: it holds no
    backslash, which MySQL would take for an escape, and no colon, after
    which [text()] would look for a bind parameter. *)
Definition plain (s : string) : Prop := no_backslash s /\ free_of colon s.

(** A month key that can stand between quotes as it is. *)
Definition plain_key (m : string) : Prop := plain m /\ free_of quote m.

End SqlText.

(** ** The database connection and the [py] monad *)

(** Statements sent over the connection, as recorded in its log. *)
Inductive stmt :=
| SelectSchema (t : string)
| SelectFrom (table : string)
| StartTransaction
| InsertInto (table : string) (n : nat)
| Commit
| Rollback.

(** The connection. [faults] scripts which of the coming statements fail:
    its head decides the next statement, [None] (or an exhausted script)
    lets it succeed, [Some k] makes it raise; for a multi-row INSERT, [k]
    rows have been applied to the in-flight table when it raises.
    [committed] is what the server has made durable, [working] what the
    session sees inside its open transaction. *)
Record conn := Conn {
  faults : list (option nat);
  log : list stmt;
  committed : monthly_table;
  working : monthly_table
}.

(** How a piece of the script ends: a value, [sys.exit(code)], or an
    exception that propagates. *)
Inductive outcome (A : Type) :=
| Ok (a : A)
| SysExit (code : Z)
| Raised.
Arguments Ok {A} a.
Arguments SysExit {A} code.
Arguments Raised {A}.

Definition py (A : Type) : Type := conn -> outcome A * conn.

Definition ret {A} (a : A) : py A := fun c => (Ok a, c).

Definition bind {A B} (m : py A) (k : A -> py B) : py B := fun c =>
  match m c with
  | (Ok a, c') => k a c'
  | (SysExit code, c') => (SysExit code, c')
  | (Raised, c') => (Raised, c')
  end.

Declare Scope py_scope.
Delimit Scope py_scope with py.
Notation "'let*' x ':=' m 'in' k" := (bind m (fun x => k))
  (at level 10, x pattern, m at level 100, k at level 200) : py_scope.
Notation "m ';;;' k" := (bind m (fun _ => k))
  (at level 100, k at level 200, right associativity) : py_scope.
Local Open Scope py_scope.

Definition sys_exit {A} (code : Z) : py A := fun c => (SysExit code, c).

Definition raise {A} : py A := fun c => (Raised, c).

(** [try: body except Exception: handler]. [SystemExit] is not an
    [Exception] and passes through. *)
Definition try_except {A} (body handler : py A) : py A := fun c =>
  match body c with
  | (Raised, c') => handler c'
  | r => r
  end.

(** [for x in l: acc = f(acc, x)]. *)
Fixpoint for_fold {A B} (l : list A) (f : B -> A -> py B) (b : B) : py B :=
  match l with
  | [] => ret b
  | x :: l' => let* b' := f b x in for_fold l' f b'
  end.

(** [for x in l: body(x)]. *)
Fixpoint for_each {A} (l : list A) (body : A -> py unit) : py unit :=
  match l with
  | [] => ret tt
  | x :: l' => body x ;;; for_each l' body
  end.

Definition next_fault (c : conn) : option nat := mjoin (head (faults c)).

Definition advance (s : stmt) (c : conn) : conn :=
  {| faults := tail (faults c); log := log c ++ [s];
     committed := committed c; working := working c |}.

Definition set_committed (t : monthly_table) (c : conn) : conn :=
  {| faults := faults c; log := log c; committed := t; working := working c |}.

Definition set_working (t : monthly_table) (c : conn) : conn :=
  {| faults := faults c; log := log c; committed := committed c; working := t |}.

(** [conn.execute(s)] for a statement without effect on [monthly_balance]. *)
Definition execute (s : stmt) : py unit := fun c =>
  match next_fault c with
  | Some _ => (Raised, advance s c)
  | None => (Ok tt, advance s c)
  end.

(** A SELECT (or [pd.read_sql]) against [table] whose result set is
    [answer]. *)
Definition query {A} (table : string) (answer : A) : py A :=
  execute (SelectFrom table) ;;; ret answer.

(** [pd.read_sql(text(q), conn)] for a statement [q] whose WHERE clause
    holds [account IN (in_list)], [in_list] being [sql_in_list(acct_list)]:
    the result set is the one for the values MySQL reads from the list
    text; when it does not read a list, the statement fails. *)
Definition query_in {A} (table : string) (acct_list : list string)
    (answer : list string -> A) : py A :=
  match SqlText.parse_in_list (SqlText.sql_in_list acct_list) with
  | Some values => query table (answer values)
  | None => execute (SelectFrom table) ;;; raise
  end.

(** [START TRANSACTION]: whatever was pending is committed implicitly. *)
Definition start_transaction : py unit :=
  execute StartTransaction ;;; (fun c => (Ok tt, set_committed (working c) c)).

Definition commit : py unit :=
  execute Commit ;;; (fun c => (Ok tt, set_committed (working c) c)).

(** [ROLLBACK]; a ROLLBACK that fails leaves the in-flight changes to be
    discarded when the connection closes. *)
Definition rollback : py unit :=
  execute Rollback ;;; (fun c => (Ok tt, set_working (committed c) c)).

(** ** The upsert statement *)

(** The [ON DUPLICATE KEY UPDATE] clause: [old] is the stored row. *)
Definition on_duplicate_key_update (old : monthly_row) (r : param_row)
  : monthly_row :=
  {| mb_opening_balance := Some (p_balance r);
     mb_description :=
       Sql.IFNULL (Sql.NULLIF_empty (mb_description old)) (p_description r);
     mb_account_type :=
       Sql.IFNULL (Sql.NULLIF_empty (mb_account_type old)) (p_account_type r) |}.

Definition inserted_row (r : param_row) : monthly_row :=
  {| mb_opening_balance := Some (p_balance r);
     mb_description := p_description r;
     mb_account_type := p_account_type r |}.

Definition row_key (r : param_row) : string * string :=
  (p_account r, p_month_key r).

(** [INSERT ... ON DUPLICATE KEY UPDATE ...] for one parameter dict. *)
Definition insert_row (t : monthly_table) (r : param_row) : monthly_table :=
  match t !! row_key r with
  | Some old => <[row_key r := on_duplicate_key_update old r]> t
  | None => <[row_key r := inserted_row r]> t
  end.

Definition insert_rows (rows : list param_row) (t : monthly_table)
  : monthly_table := foldl insert_row t rows.

(** [conn.execute(text(insert_sql), rows)]: the rows are applied in order;
    a failure after [k] rows leaves those [k] in the open transaction. *)
Definition execute_insert (rows : list param_row) : py unit := fun c =>
  let c' := advance (InsertInto MONTHLY_TABLE (length rows)) c in
  match next_fault c with
  | Some k => (Raised, set_working (insert_rows (take k rows) (working c)) c')
  | None => (Ok tt, set_working (insert_rows rows (working c)) c')
  end.

Definition upsert_monthly_rows (rows : list param_row) : py nat :=
  match rows with
  | [] => ret 0%nat
  | _ =>
      try_except
        (start_transaction ;;;
         execute_insert rows ;;;
         commit ;;;
         ret (length rows))
        (rollback ;;; sys_exit 5)
  end.

(** ** Account classification *)

Definition acct_type_norm (r : opening_row) : string :=
  PyStr.lower (PyStr.astype_str (ob_account_type r)).

Definition mask_cum (r : opening_row) : bool :=
  PyStr.contains "asset" (acct_type_norm r) ||
  PyStr.contains "liab" (acct_type_norm r).

Definition mask_noncum (r : opening_row) : bool :=
  PyStr.contains "income" (acct_type_norm r) ||
  PyStr.contains "expens" (acct_type_norm r).

Definition accounts_cum (ob_df_all : list opening_row) : list string :=
  map ob_account (List.filter mask_cum ob_df_all).

Definition accounts_noncum (ob_df_all : list opening_row) : list string :=
  map ob_account (List.filter mask_noncum ob_df_all).

(** The opening-balance and metadata dicts, built from the whole frame. *)
Definition ob_map (ob_df_all : list opening_row) : gmap string Z :=
  py_dict (map (fun r => (ob_account r, default 0 (ob_opening_balance r)))
               ob_df_all).

Definition ob_desc_map (ob_df_all : list opening_row)
  : gmap string (option string) :=
  py_dict (map (fun r => (ob_account r, ob_description r)) ob_df_all).

Definition ob_type_map (ob_df_all : list opening_row)
  : gmap string (option string) :=
  py_dict (map (fun r => (ob_account r, ob_account_type r)) ob_df_all).

(** [d.get(k, 0) or 0] on a dict of amounts read from SQL. *)
Definition get0 (d : gmap string Z) (k : string) : Z := default 0 (d !! k).

(** [d.get(k, 0)] on a dict of floats. *)
Definition getf (d : gmap string PrimFloat.float) (k : string)
  : PrimFloat.float := default PrimFloat.zero (d !! k).

(** [d.get(k)] on a dict of nullable texts. *)
Definition get_text (d : gmap string (option string)) (k : string)
  : option string := default None (d !! k).

(** ** Month keys and the voucher tables *)

(** [int(m.split('-')[0]), int(m.split('-')[1])]. *)
Definition year_month (m : string) : option (Z * Z) :=
  match PyStr.split "-"%char m with
  | y :: mo :: _ =>
      match PyStr.int y, PyStr.int mo with
      | Some y', Some mo' => Some (y', mo')
      | _, _ => None
      end
  | _ => None
  end.

Definition parse_month_key (m : string) : py (Z * Z) :=
  match year_month m with
  | Some ym => ret ym
  | None => raise
  end.

Definition in_month (ym : Z * Z) (r : voucher_row) : bool :=
  (d_year (transaction_date r) =? ym.1) &&
  (d_month (transaction_date r) =? ym.2).

Definition voucher_table_name (m : string) : string :=
  if PyStr.le m "2025-07" then "vouchers" else "vouchers_curr_month".

Definition voucher_table (db : database) (m : string) : list voucher_row :=
  if PyStr.le m "2025-07" then vouchers db else vouchers_curr_month db.

(** The result of [voucher_sum_q] in the cumulative loop. *)
Definition voucher_sum_q (rows : list voucher_row) (acct : string)
    (ym : Z * Z) : Z :=
  Sql.COALESCE
    (Sql.SUM
       (map amount_original
          (List.filter
             (fun r => String.eqb (account_code r) acct && in_month ym r &&
                       Sql.not_marker (voucher r))
             rows)))
    0.

(** The result set of the query of [fetch_voucher_amounts_for_month], read
    into a dict. *)
Definition voucher_amounts_q (rows : list voucher_row)
    (acct_list : list string) (ym : Z * Z) : gmap string Z :=
  Sql.group_sum
    (map (fun r => (account_code r, amount_original r))
       (List.filter
          (fun r => in_month ym r && Sql.IN (account_code r) acct_list &&
                    Sql.not_marker (voucher r))
          rows)).

(** The result sets of the queries of [fetch_historical_for_month]. *)
Definition historical_q (col : historical_row -> option Z)
    (rows : list historical_row) (month_key : string)
    (acct_list : list string) : gmap string Z :=
  py_dict
    (map (fun r => (hv_account r, Sql.COALESCE (col r) 0))
       (List.filter
          (fun r => String.eqb (hv_month_key r) month_key &&
                    Sql.IN (hv_account r) acct_list)
          rows)).

(** The result set of the query of [fetch_monthly_for_month], against the
    rows [monthly_balance] holds in the session. *)
Definition monthly_q (t : monthly_table) (month_key : string)
    (acct_list : list string) : gmap string PrimFloat.float :=
  py_dict
    (map (fun kv =>
            (kv.1.1, Sql.COALESCE (mb_opening_balance kv.2) PrimFloat.zero))
       (List.filter
          (fun kv => String.eqb kv.1.2 month_key && Sql.IN kv.1.1 acct_list)
          (map_to_list t))).

Definition curr_month_q (rows : list voucher_row) (acct_list : list string)
  : gmap string Z :=
  Sql.group_sum
    (map (fun r => (account_code r, amount_original r))
       (List.filter
          (fun r => in_month (2025, 8) r && Sql.IN (account_code r) acct_list)
          rows)).

(** ** The script *)

Section Script.

Variable db : database.

Definition required_tables : list string :=
  [OPENING_BALANCE_TABLE; HISTORICAL_TABLE; MONTHLY_TABLE].

(** The pre-flight check of the three required tables. *)
Definition validate_tables : py unit :=
  for_each required_tables (fun t =>
    let* r := (execute (SelectSchema t) ;;;
               ret (if Sql.IN t (schema_tables db) then 1 else 0)) in
    if r =? 0 then sys_exit 2 else ret tt).

(** The three readers. Their statements hold [({in_list})], which is
    answered for the account codes MySQL reads back from the list text
    ([query_in]), and the first and the last hold ['{month_key}'], which
    is compared as it is: that is what MySQL compares with when the key
    holds no quote and no backslash. *)
Definition fetch_historical_for_month (month_key : string)
    (acct_list : list string) (use_smoothened : bool)
  : py (gmap string Z) :=
  try_except
    (if use_smoothened && PyStr.le month_key "2025-07" then
       query_in HISTORICAL_TABLE acct_list
         (historical_q smoothened_amount (historical_variance db) month_key)
     else if negb use_smoothened && PyStr.le month_key "2025-07" then
       query_in HISTORICAL_TABLE acct_list
         (historical_q journal_amount (historical_variance db) month_key)
     else if String.eqb month_key "2025-08" then
       query_in "vouchers_curr_month" acct_list
         (curr_month_q (vouchers_curr_month db))
     else ret ∅)
    (sys_exit 3).

Definition fetch_voucher_amounts_for_month (month_key : string)
    (acct_list : list string) : py (gmap string Z) :=
  try_except
    (let* ym := parse_month_key month_key in
     query_in (voucher_table_name month_key) acct_list
       (fun values =>
          voucher_amounts_q (voucher_table db month_key) values ym))
    (ret ∅).

Definition fetch_monthly_for_month (month_key : string)
    (acct_list : list string) : py (gmap string PrimFloat.float) :=
  try_except
    (fun c =>
       query_in MONTHLY_TABLE acct_list (monthly_q (working c) month_key) c)
    (sys_exit 4).

Section Loops.

(** The frame read from [opening_balance]. *)
Variable ob_df_all : list opening_row.

(** One pass of the innermost loop:
    [total_vouchers += float(result[0] or 0)]. *)
Definition add_month_sum (acct : string) (total_vouchers : PrimFloat.float)
    (m : string) : py PrimFloat.float :=
  let* ym := parse_month_key m in
  let* result := query (voucher_table_name m)
                   (voucher_sum_q (voucher_table db m) acct ym) in
  ret (PrimFloat.add total_vouchers (PyFloat.of_Z result)).

Definition cumulative_voucher_map (months_to_sum : list string)
  : py (gmap string PrimFloat.float) :=
  for_fold (accounts_cum ob_df_all)
    (fun cmap acct =>
       let* total_vouchers :=
         for_fold months_to_sum (add_month_sum acct) PrimFloat.zero in
       ret (<[acct := total_vouchers]> cmap))
    ∅.

(** The parameter dict appended to [rows] for one account:
    [ob_val = float(ob_map.get(acct, 0) or 0)] and
    [total = ob_val + voucher_val]. *)
Definition make_row (month_key : string) (voucher_val : PrimFloat.float)
    (acct : string) : param_row :=
  {| p_account := acct;
     p_month_key := month_key;
     p_balance :=
       PrimFloat.add (PyFloat.of_Z (get0 (ob_map ob_df_all) acct)) voucher_val;
     p_description := get_text (ob_desc_map ob_df_all) acct;
     p_account_type := get_text (ob_type_map ob_df_all) acct |}.

(** The body of the loop over [enumerate(MONTHS)];
    [voucher_val = cumulative_voucher_map.get(acct, 0)]. *)
Definition process_cumulative (im : nat * string) : py unit :=
  let* cmap := cumulative_voucher_map (take (S im.1) MONTHS) in
  let* n := upsert_monthly_rows
              (map (fun acct => make_row im.2 (getf cmap acct) acct)
                   (accounts_cum ob_df_all)) in
  ret tt.

(** The body of the loop over [MONTHS] for income/expense accounts;
    [voucher_val = float(voucher_map.get(acct, 0) or 0)]. *)
Definition process_noncumulative (month_key : string) : py unit :=
  let* voucher_map :=
    fetch_voucher_amounts_for_month month_key (accounts_noncum ob_df_all) in
  let* n := upsert_monthly_rows
              (map (fun acct =>
                      make_row month_key
                        (PyFloat.of_Z (get0 voucher_map acct)) acct)
                   (accounts_noncum ob_df_all)) in
  ret tt.

Definition cumulative_phase : py unit :=
  match accounts_cum ob_df_all with
  | [] => ret tt
  | _ => for_each (imap pair MONTHS) process_cumulative
  end.

Definition noncumulative_phase : py unit :=
  match accounts_noncum ob_df_all with
  | [] => ret tt
  | _ => for_each MONTHS process_noncumulative
  end.

End Loops.

(** The body of [with engine.connect() as conn:]. *)
Definition main : py unit :=
  validate_tables ;;;
  let* ob_df_all := query OPENING_BALANCE_TABLE (opening_balance db) in
  match accounts_cum ob_df_all, accounts_noncum ob_df_all with
  | [], [] => sys_exit 0
  | _, _ => cumulative_phase ob_df_all ;;; noncumulative_phase ob_df_all
  end.

End Script.

(** The exit status of the process: 0 at the end of the script, the
    argument of [sys.exit], 1 after a traceback. *)
Definition exit_status {A} (r : outcome A) : Z :=
  match r with
  | Ok _ => 0
  | SysExit code => code
  | Raised => 1
  end.

Definition connect (monthly : monthly_table) (fs : list (option nat)) : conn :=
  {| faults := fs; log := []; committed := monthly; working := monthly |}.

(** One run of the script against [db], with [monthly] the stored contents
    of [monthly_balance]: the exit status and what the table holds once the
    connection is closed (the open transaction, if any, is discarded). *)
Definition run (db : database) (monthly : monthly_table)
    (fs : list (option nat)) : Z * monthly_table :=
  let (r, c) := main db (connect monthly fs) in (exit_status r, committed c).

(** A run under the empty fault script: no statement fails, unless it is
    a fetch whose pasted account list MySQL does not read as a list. *)
Definition run_ok (db : database) (monthly : monthly_table)
  : Z * monthly_table := run db monthly [].

(** ** What a run without faults computes *)

(** [m], started on a connection with no fault pending and no open
    transaction, ends with outcome [r], commits, and has changed
    [monthly_balance] by [F]. *)
Definition quietly {A} (m : py A) (r : outcome A)
    (F : monthly_table -> monthly_table) : Prop :=
  forall c, faults c = [] -> committed c = working c ->
    exists c', m c = (r, c') /\ faults c' = [] /\
               committed c' = working c' /\ working c' = F (working c).

Definition ym_of (m : string) : Z * Z := default (0, 0) (year_month m).

(** What [total_vouchers] holds after the loop over [months_to_sum]. *)
Definition cumulative_total (db : database) (acct : string)
    (months_to_sum : list string) : PrimFloat.float :=
  foldl (fun t m =>
           PrimFloat.add t
             (PyFloat.of_Z
                (voucher_sum_q (voucher_table db m) acct (ym_of m))))
        PrimFloat.zero months_to_sum.

Definition cumulative_map (db : database) (ob_df_all : list opening_row)
    (months_to_sum : list string) : gmap string PrimFloat.float :=
  foldl (fun cmap acct =>
           <[acct := cumulative_total db acct months_to_sum]> cmap)
        ∅ (accounts_cum ob_df_all).

(** The batch written for month [im.2], of index [im.1], by the cumulative
    loop. *)
Definition cumulative_batch (db : database) (im : nat * string)
  : list param_row :=
  map (fun acct =>
         make_row (opening_balance db) im.2
           (getf (cumulative_map db (opening_balance db)
                    (take (S im.1) MONTHS)) acct)
           acct)
      (accounts_cum (opening_balance db)).

(** What [fetch_voucher_amounts_for_month] returns when its statement
    does not fail from outside: the sums for the accounts MySQL reads
    from the pasted list, or nothing when it reads no list. *)
Definition voucher_map_of (db : database) (month_key : string)
    (acct_list : list string) : gmap string Z :=
  match SqlText.parse_in_list (SqlText.sql_in_list acct_list) with
  | Some values =>
      voucher_amounts_q (voucher_table db month_key) values (ym_of month_key)
  | None => ∅
  end.

(** The batch written for [month_key] by the income/expense loop. *)
Definition noncumulative_batch (db : database) (month_key : string)
  : list param_row :=
  map (fun acct =>
         make_row (opening_balance db) month_key
           (PyFloat.of_Z
              (get0 (voucher_map_of db month_key
                       (accounts_noncum (opening_balance db))) acct))
           acct)
      (accounts_noncum (opening_balance db)).

Definition apply_batches (bs : list (list param_row)) (t : monthly_table)
  : monthly_table := foldl (fun t rows => insert_rows rows t) t bs.

Definition tables_ok (db : database) : bool :=
  forallb (fun t => Sql.IN t (schema_tables db)) required_tables.

(** [monthly_balance] after the cumulative loop of a run without faults. *)
Definition after_cumulative (db : database) (t : monthly_table)
  : monthly_table :=
  apply_batches (map (cumulative_batch db) (imap pair MONTHS)) t.

(** [monthly_balance] after a whole run without faults. *)
Definition after_run (db : database) (t : monthly_table) : monthly_table :=
  apply_batches (map (noncumulative_batch db) MONTHS) (after_cumulative db t).

(** The outcome of the script when no statement fails. *)
Definition quiet_outcome (db : database) : outcome unit :=
  if tables_ok db then
    match accounts_cum (opening_balance db),
          accounts_noncum (opening_balance db) with
    | [], [] => SysExit 0
    | _, _ => Ok tt
    end
  else SysExit 2.

(** What one upsert makes of the cell stored under its key. *)
Definition upsert_cell (o : option monthly_row) (r : param_row)
  : monthly_row :=
  match o with
  | Some old => on_duplicate_key_update old r
  | None => inserted_row r
  end.

(** The effect of a sequence of upserts on the cell stored under [k]. *)
Definition cell_after (k : string * string) (rows : list param_row)
    (o : option monthly_row) : option monthly_row :=
  foldl (fun o r => if decide (row_key r = k) then Some (upsert_cell o r)
                    else o) o rows.

(** ** Reasoning about executions with faults *)

(** From a connection satisfying [P], [m] ends either normally with a value
    and a connection related by [Q], or abnormally ([Some code] for
    [sys.exit(code)], [None] for an exception) on a connection
    satisfying [E]. *)
Definition hoare {A} (P : conn -> Prop) (m : py A)
    (Q : A -> conn -> Prop) (E : option Z -> conn -> Prop) : Prop :=
  forall c, P c ->
    match m c with
    | (Ok a, c') => Q a c'
    | (SysExit code, c') => E (Some code) c'
    | (Raised, c') => E None c'
    end.

(** [I] holds throughout [m], however it ends. *)
Definition preserves {A} (I : conn -> Prop) (m : py A) : Prop :=
  hoare I m (fun _ => I) (fun _ => I).

(** The rows the script can send: built by [make_row] for a window month
    and an account of one of the two groups. *)
Definition script_row (db : database) (r : param_row) : Prop :=
  exists m voucher_val acct,
    r = make_row (opening_balance db) m voucher_val acct /\ m ∈ MONTHS /\
    (acct ∈ accounts_cum (opening_balance db) \/
     acct ∈ accounts_noncum (opening_balance db)).

(** The statements the script can send: its SELECTs read the schema
    catalogue, [opening_balance] and the two voucher tables only. *)
Definition script_stmt (s : stmt) : Prop :=
  match s with
  | SelectFrom t =>
      t = OPENING_BALANCE_TABLE \/ t = "vouchers" \/ t = "vouchers_curr_month"
  | InsertInto t _ => t = MONTHLY_TABLE
  | _ => True
  end.

(** Its SELECTs. *)
Definition script_select (s : stmt) : Prop :=
  match s with
  | SelectSchema _ => True
  | SelectFrom t =>
      t = OPENING_BALANCE_TABLE \/ t = "vouchers" \/ t = "vouchers_curr_month"
  | _ => False
  end.

(** The batches the script can send: the rows of all the accounts of one
    group, for one window month. *)
Definition whole_batch (db : database) (rows : list param_row) : Prop :=
  exists m (voucher_val : string -> PrimFloat.float),
    m ∈ MONTHS /\
    (rows = map (fun acct =>
                   make_row (opening_balance db) m (voucher_val acct) acct)
                (accounts_cum (opening_balance db)) \/
     rows = map (fun acct =>
                   make_row (opening_balance db) m (voucher_val acct) acct)
                (accounts_noncum (opening_balance db))).

(** What the script needs of a pair of assertions to keep [I] as long as
    it goes on, and to end in [E] when it stops early: the statements
    without effect keep [I], [I] entails [E], and so does the writer on a
    whole batch. *)
Record script_spec (db : database) (I : conn -> Prop)
    (E : option Z -> conn -> Prop) : Prop := {
  spec_advance : forall s c, script_select s -> I c -> I (advance s c);
  spec_abort : forall o c, I c -> E o c;
  spec_upsert : forall rows,
    whole_batch db rows ->
    hoare I (upsert_monthly_rows rows) (fun _ => I) E
}.

(** A property of the connection that every step of the script keeps. *)
Record script_invariant (db : database) (I : conn -> Prop) : Prop := {
  inv_advance : forall s c, script_stmt s -> I c -> I (advance s c);
  inv_commit : forall c, I c -> I (set_committed (working c) c);
  inv_rollback : forall c, I c -> I (set_working (committed c) c);
  inv_insert : forall r c,
    script_row db r -> I c -> I (set_working (insert_row (working c) r) c)
}.

(** The stored text counts as missing: NULL or the empty string. *)
Definition is_blank (o : option string) : bool :=
  match o with
  | None => true
  | Some s => String.eqb s ""
  end.


(** No open transaction: the session sees what is committed. *)
Definition synced (c : conn) : Prop := committed c = working c.

(** Once a row holds a non-blank description or account type, no upsert
    changes it. *)
Definition keeps_metadata (k : string * string) (row : monthly_row)
    (t : monthly_table) : Prop :=
  exists row',
    t !! k = Some row' /\
    (is_blank (mb_description row) = false ->
     mb_description row' = mb_description row) /\
    (is_blank (mb_account_type row) = false ->
     mb_account_type row' = mb_account_type row).

(** [IFNULL(NULLIF(old, ''), new)], seen from the stored value. *)
Definition fill (old new : option string) : option string :=
  if is_blank old then new else old.

(** The cell a stored value [o] becomes after the upserts [rs], all under
    its key: the last balance, and for each text column the first
    non-blank value among the stored one and the incoming ones, or the
    last incoming one when all are blank. *)
Definition cell_of (o : option monthly_row) (rs : list param_row)
  : option monthly_row :=
  match last rs with
  | None => o
  | Some r =>
      Some {| mb_opening_balance := Some (p_balance r);
              mb_description :=
                foldl fill (o ≫= mb_description) (map p_description rs);
              mb_account_type :=
                foldl fill (o ≫= mb_account_type) (map p_account_type rs) |}
  end.

(** [m] never swallows a failed statement: it sends some statements
    [stmts], consuming as many entries of the fault script, and returns
    normally only if none of them failed; otherwise the run ends, with a
    non-zero code when it is by [sys.exit]. *)
Definition strict {A} (m : py A) : Prop :=
  forall c,
    exists stmts,
      log (m c).2 = (log c ++ stmts)%list /\
      faults (m c).2 = drop (length stmts) (faults c) /\
      match (m c).1 with
      | Ok _ => Forall (fun f => f = None) (take (length stmts) (faults c))
      | SysExit code => code <> 0
      | Raised => True
      end.

(** ** Variants of a database *)

Definition with_vouchers (rows : list voucher_row) (db : database)
  : database :=
  {| schema_tables := schema_tables db;
     opening_balance := opening_balance db;
     historical_variance := historical_variance db;
     vouchers := rows;
     vouchers_curr_month := vouchers_curr_month db |}.

Definition with_vouchers_curr_month (rows : list voucher_row) (db : database)
  : database :=
  {| schema_tables := schema_tables db;
     opening_balance := opening_balance db;
     historical_variance := historical_variance db;
     vouchers := vouchers db;
     vouchers_curr_month := rows |}.

Definition with_historical (rows : list historical_row) (db : database)
  : database :=
  {| schema_tables := schema_tables db;
     opening_balance := opening_balance db;
     historical_variance := rows;
     vouchers := vouchers db;
     vouchers_curr_month := vouchers_curr_month db |}.

(** ** The specification's vocabulary *)

Module Spec.

Definition sumZ (xs : list Z) : Z := foldr Z.add 0 xs.

(** A marker voucher: a carry-forward, rollover or opening-balance
    transfer entry. *)
Definition is_marker (v : string) : Prop :=
  v = "BRTFWD" \/ v = "ROLCLR" \/ v = "OBTFER".

(** The transaction is dated in the calendar month [m] (YYYY-MM). *)
Definition dated_in (m : string) (r : voucher_row) : Prop :=
  year_month m =
    Some (d_year (transaction_date r), d_month (transaction_date r)).

#[global] Instance is_marker_dec (v : string) : Decision (is_marker v).
Proof. unfold is_marker. apply _. Defined.

#[global] Instance dated_in_dec (m : string) (r : voucher_row)
  : Decision (dated_in m r).
Proof. unfold dated_in. apply _. Defined.

(** The account's transactions of month [m] that count as activity. *)
Definition activity_rows (db : database) (a m : string)
  : list voucher_row :=
  filter (fun r => account_code r = a /\ dated_in m r /\
                   ~ is_marker (voucher r))
         (voucher_table db m).

(** The month's transaction sum of account [a], markers excluded. *)
Definition month_activity (db : database) (a m : string) : Z :=
  sumZ (map amount_original (activity_rows db a m)).

(** The opening balance the snapshot records for [a]: that of its last
    row, 0 when it is NULL or the account is absent. *)
Definition opening_of (db : database) (a : string) : Z :=
  default 0
    (last (filter (fun r => ob_account r = a) (opening_balance db))
       ≫= ob_opening_balance).

(** The sum of the [xs] in floating point: each is added in turn to the
    sum of those before it, starting from 0. *)
Definition float_sum (xs : list Z) : PrimFloat.float :=
  foldl (fun t x => PrimFloat.add t (PyFloat.of_Z x)) PrimFloat.zero xs.

(** The monthly sums of months 0..i of the window. *)
Definition sums_to (db : database) (a : string) (i : nat) : list Z :=
  map (month_activity db a) (take (S i) MONTHS).

(** B + the sum of the monthly sums of months 0..i of the window, in
    floating point. *)
Definition cumulative_balance (db : database) (a : string) (i : nat)
  : PrimFloat.float :=
  PrimFloat.add (PyFloat.of_Z (opening_of db a)) (float_sum (sums_to db a i)).

(** The same balance in exact arithmetic. *)
Definition exact_cumulative (db : database) (a : string) (i : nat) : Z :=
  opening_of db a + sumZ (sums_to db a i).

(** No addition of the cumulative balance of month [i] rounds. *)
Definition cumulative_exact (db : database) (a : string) (i : nat) : Prop :=
  PyFloat.exact_from 0 (sums_to db a i) /\
  PyFloat.exact_add (opening_of db a) (sumZ (sums_to db a i)).

(** B + the sum of month [m] alone, in floating point. *)
Definition periodic_balance (db : database) (a m : string)
  : PrimFloat.float :=
  PrimFloat.add (PyFloat.of_Z (opening_of db a))
                (PyFloat.of_Z (month_activity db a m)).

(** The opening balance with nothing added to it. *)
Definition bare_balance (db : database) (a : string) : PrimFloat.float :=
  PrimFloat.add (PyFloat.of_Z (opening_of db a)) PrimFloat.zero.

(** The amount [historical_variance] records in column [col] for
    account [a] and month [m]; 0 when NULL or absent. *)
Definition historical_amount (col : historical_row -> option Z)
    (db : database) (a m : string) : Z :=
  default 0
    (last (filter (fun r => hv_account r = a /\ hv_month_key r = m)
                  (historical_variance db))
       ≫= col).

End Spec.

(** The balance the income/expense loop computes for [a] and [m] from
    what its fetch returns when the statement does not fail from outside. *)
Definition periodic_stored (db : database) (a m : string)
  : PrimFloat.float :=
  PrimFloat.add
    (PyFloat.of_Z (Spec.opening_of db a))
    (PyFloat.of_Z
       (get0 (voucher_map_of db m (accounts_noncum (opening_balance db)))
             a)).

(** ** Worked databases *)

Definition tx (y mo : Z) (acct : string) (amount : Z) (v : string)
  : voucher_row :=
  {| transaction_date := Date y mo 15; account_code := acct;
     amount_original := amount; voucher := v |}.

Definition all_tables : list string :=
  ["opening_balance"; "historical_variance"; "monthly_balance"; "vouchers";
   "vouchers_curr_month"].

(** One asset account whose January transactions sum to 50 next to a
    carried-forward 9999, and whose February ones sum to -20; one income
    account; one account without a type. *)
Definition scenario_db : database :=
  {| schema_tables := all_tables;
     opening_balance :=
       [OpeningRow "1000" (Some 1000) (Some "Asset") (Some "Cash");
        OpeningRow "4000" (Some 200) (Some "Income") None;
        OpeningRow "9000" None None (Some "Suspense")];
     historical_variance :=
       [HistoricalRow "1000" "2025-01" (Some 70) (Some 65);
        HistoricalRow "4000" "2025-01" (Some 8) (Some 5)];
     vouchers :=
       [tx 2025 1 "1000" 30 "JV001"; tx 2025 1 "1000" 20 "JV002";
        tx 2025 1 "1000" 9999 "BRTFWD"; tx 2025 2 "1000" (-20) "JV003";
        tx 2025 1 "4000" 12 "SI001"; tx 2025 2 "4000" 7 "SI002";
        tx 2025 2 "9000" 3 "JV004"];
     vouchers_curr_month := [tx 2025 8 "1000" 4 "JV005"] |}.

(** An account whose type label contains both asset and income. *)
Definition dual_db : database :=
  {| schema_tables := all_tables;
     opening_balance :=
       [OpeningRow "1500" (Some 100) (Some "Fixed Asset - Rental Income")
          (Some "Property")];
     historical_variance := [];
     vouchers :=
       [tx 2025 1 "1500" 10 "JV001"; tx 2025 2 "1500" 5 "JV002"];
     vouchers_curr_month := [] |}.


(** An asset account whose opening balance is 2^53, with transactions of
    1 in January and in February. *)
Definition large_db : database :=
  {| schema_tables := all_tables;
     opening_balance :=
       [OpeningRow "1000" (Some (2 ^ 53)) (Some "Asset") (Some "Reserve")];
     historical_variance := [];
     vouchers := [tx 2025 1 "1000" 1 "JV001"; tx 2025 2 "1000" 1 "JV002"];
     vouchers_curr_month := [] |}.

(** The scenario restricted to its income account. *)
Definition income_db : database :=
  {| schema_tables := all_tables;
     opening_balance := [OpeningRow "4000" (Some 200) (Some "Income") None];
     historical_variance := historical_variance scenario_db;
     vouchers := vouchers scenario_db;
     vouchers_curr_month := vouchers_curr_month scenario_db |}.

(** A stored table with one enriched row: a description, no account
    type yet. *)
Definition enriched_table : monthly_table :=
  {[ ("1000", "2025-01") :=
       {| mb_opening_balance := Some (PyFloat.of_Z 1);
          mb_description := Some "Petty cash";
          mb_account_type := Some "" |} ]}.


(** The scenario in a schema that lacks [historical_variance]. *)
Definition unprepared_db : database :=
  {| schema_tables := ["opening_balance"; "monthly_balance"; "vouchers"];
     opening_balance := opening_balance scenario_db;
     historical_variance := [];
     vouchers := vouchers scenario_db;
     vouchers_curr_month := [] |}.

(** A snapshot without any asset, liability, income or expense account. *)
Definition equity_db : database :=
  {| schema_tables := all_tables;
     opening_balance :=
       [OpeningRow "3000" (Some 500) (Some "Equity") (Some "Capital");
        OpeningRow "9000" None None (Some "Suspense")];
     historical_variance := [];
     vouchers := [tx 2025 1 "3000" 40 "JV001"];
     vouchers_curr_month := [] |}.

(** The row of the snapshot that speaks for account [a]: its last one. *)
Definition snapshot_row (ob_df_all : list opening_row) (a : string)
  : option opening_row :=
  last (filter (fun r => ob_account r = a) ob_df_all).

(** The key is one the script writes: an account of one of the two groups
    and a month of the window. *)
Definition written_key (db : database) (k : string * string) : Prop :=
  (k.1 ∈ accounts_cum (opening_balance db) \/
   k.1 ∈ accounts_noncum (opening_balance db)) /\
  k.2 ∈ MONTHS.


(** The scenario with further transactions posted in March and in
    September. *)
Definition later_db : database :=
  {| schema_tables := all_tables;
     opening_balance := opening_balance scenario_db;
     historical_variance := [];
     vouchers := vouchers scenario_db ++ [tx 2025 3 "1000" 500 "JV900"];
     vouchers_curr_month := [tx 2025 9 "1000" 77 "JV901"] |}.


(** ** Runs during which statements fail *)

(** Some statement of the fault script fails. *)
Definition failure_seen (fs : list (option nat)) : Prop :=
  exists k, Some k ∈ fs.

(** The connection of a run under the fault script [fs], between two
    calls of the script: what is left of [fs], no open transaction, and
    [P] of the committed table. *)
Definition live (fs : list (option nat)) (P : monthly_table -> Prop)
    (c : conn) : Prop :=
  faults c `suffix_of` fs /\ synced c /\ P (committed c).

(** An abnormal end that a failed statement caused: an exception, or
    [sys.exit(5)]. *)
Definition failed (fs : list (option nat)) (o : option Z) (c : conn)
  : Prop :=
  (o = None \/ o = Some 5) /\ failure_seen fs.

(** Such an end, with [P] of the committed table. *)
Definition failed_at (fs : list (option nat)) (P : monthly_table -> Prop)
    (o : option Z) (c : conn) : Prop :=
  failed fs o c /\ P (committed c).

(** How far the cumulative loop got on the table [t0]: it has written
    the first [n] months of the window, and nothing else. *)
Definition cum_prog (db : database) (t0 : monthly_table) (n : nat)
    (t : monthly_table) : Prop :=
  (forall a j m,
     a ∈ accounts_cum (opening_balance db) ->
     MONTHS !! j = Some m -> (j < n)%nat ->
     mb_opening_balance <$> t !! (a, m) =
       Some (Some (Spec.cumulative_balance db a j))) /\
  (forall a j m,
     MONTHS !! j = Some m -> (n <= j)%nat -> t !! (a, m) = t0 !! (a, m)) /\
  (forall a m,
     a ∉ accounts_cum (opening_balance db) -> t !! (a, m) = t0 !! (a, m)).

(** How far the income/expense loop got, the cumulative loop being over:
    it has written the first [p] months of the window. A month's balance
    is the bare opening balance when its fetch failed. *)
Definition per_prog (db : database) (fs : list (option nat))
    (t0 : monthly_table) (p : nat) (t : monthly_table) : Prop :=
  (forall a j m,
     a ∈ accounts_cum (opening_balance db) ->
     a ∉ accounts_noncum (opening_balance db) ->
     MONTHS !! j = Some m ->
     mb_opening_balance <$> t !! (a, m) =
       Some (Some (Spec.cumulative_balance db a j))) /\
  (forall a j m,
     a ∈ accounts_noncum (opening_balance db) ->
     MONTHS !! j = Some m -> (j < p)%nat ->
     mb_opening_balance <$> t !! (a, m) =
       Some (Some (periodic_stored db a m)) \/
     failure_seen fs /\
     mb_opening_balance <$> t !! (a, m) =
       Some (Some (Spec.bare_balance db a))) /\
  (forall a j m,
     a ∈ accounts_noncum (opening_balance db) ->
     a ∉ accounts_cum (opening_balance db) ->
     MONTHS !! j = Some m -> (p <= j)%nat -> t !! (a, m) = t0 !! (a, m)).

(** Where a run that ended early stopped: in the cumulative loop (or
    before it), or in the income/expense loop. *)
Definition stopped (db : database) (fs : list (option nat))
    (t0 t : monthly_table) : Prop :=
  (exists n, (n < length MONTHS)%nat /\ cum_prog db t0 n t) \/
  (exists p, (p < length MONTHS)%nat /\ per_prog db fs t0 p t).


(** The scenario with further rows that no query of the script selects:
    an August transaction stored in [vouchers], a July one stored in
    [vouchers_curr_month], transactions dated outside the window and a
    marker voucher. *)
Definition misfiled_db : database :=
  {| schema_tables := all_tables;
     opening_balance := opening_balance scenario_db;
     historical_variance := [];
     vouchers :=
       vouchers scenario_db ++
       [tx 2025 8 "1000" 500 "JV800"; tx 2024 12 "1000" 40 "JV700";
        tx 2025 3 "1000" 1 "ROLCLR"];
     vouchers_curr_month :=
       vouchers_curr_month scenario_db ++
       [tx 2025 7 "1000" 300 "JV801"; tx 2025 10 "4000" 9 "SI900"] |}.


(** ** The snapshot importer: [import_opening_balance.py]

    The importer fills [opening_balance] from a spreadsheet. Its choice
    of the sheet column that feeds each table column is embedded here;
    the headers of the sheet are taken to be texts. *)

Module OpeningImport.

(** The candidate headers of each target column, in the order of the
    dict literal. *)
Definition PREFERRED_COLUMNS : list (string * list string) :=
  [("account", ["account"; "Account"; "Account Code"; "account_code"]);
   ("description",
    ["description"; "Description"; "account_desc"; "Account Description"]);
   ("opening_balance",
    ["opening_balance"; "Opening Balance"; "opening balance"; "amount"]);
   ("account_type", ["account_type"; "Account Type"; "type"])].

(** [{c.lower(): c for c in df_cols}]. *)
Definition cols_lower (df_cols : list string) : gmap string string :=
  py_dict (map (fun c => (PyStr.lower c, c)) df_cols).

(** The loop of [find_column] over the candidates. *)
Fixpoint first_match (lowered : gmap string string)
    (candidates : list string) : option string :=
  match candidates with
  | [] => None
  | cand :: rest =>
      match lowered !! PyStr.lower cand with
      | Some c => Some c
      | None => first_match lowered rest
      end
  end.

Definition find_column (df_cols candidates : list string) : option string :=
  first_match (cols_lower df_cols) candidates.

(** The dict [mapped] of [build_df_for_db]; [if found:] is false on
    [None] and on the empty string. *)
Definition mapped (cols : list string) : gmap string string :=
  foldl (fun mp tc =>
           match find_column cols tc.2 with
           | Some found =>
               if String.eqb found "" then mp else <[tc.1 := found]> mp
           | None => mp
           end)
        ∅ PREFERRED_COLUMNS.

End OpeningImport.


(** ** The statements of a run *)

(** Started with no fault pending, [m] returns normally having sent the
    statements [L]. *)
Definition sends {A} (m : py A) (L : list stmt) : Prop :=
  forall c, faults c = [] ->
    exists a c', m c = (Ok a, c') /\ faults c' = [] /\
                 log c' = (log c ++ L)%list.

(** The month sums the cumulative loop asks for one account in the pass
    of index [i]: one per month from the window start. *)
Definition month_sums (i : nat) : list stmt :=
  map (fun mj => SelectFrom (voucher_table_name mj)) (take (S i) MONTHS).

(** The statements of one pass of the cumulative loop. *)
Definition cumulative_statements (accts : list string) (i : nat)
  : list stmt :=
  concat (map (fun _ => month_sums i) accts) ++
  [StartTransaction; InsertInto MONTHLY_TABLE (length accts); Commit].

(** The statements of one pass of the income/expense loop. *)
Definition noncumulative_statements (accts : list string) (m : string)
  : list stmt :=
  [SelectFrom (voucher_table_name m); StartTransaction;
   InsertInto MONTHLY_TABLE (length accts); Commit].

(** The statements of a run without faults over a database that has the
    required tables. *)
Definition statements_of_run (db : database) : list stmt :=
  map SelectSchema required_tables ++
  [SelectFrom OPENING_BALANCE_TABLE] ++
  match accounts_cum (opening_balance db) with
  | [] => []
  | accts =>
      concat (map (fun im : nat * string => cumulative_statements accts im.1)
                (imap pair MONTHS))
  end ++
  match accounts_noncum (opening_balance db) with
  | [] => []
  | accts => concat (map (noncumulative_statements accts) MONTHS)
  end.

(** * Properties *)

(** ** Executions without faults *)

Section Quiet.

Context {A : Type}.

Lemma quietly_ret (a : A) : quietly (ret a) (Ok a) id.
Proof. intros c Hf Hs. exists c. by rewrite Hs. Qed.

Lemma quietly_sys_exit (code : Z) : quietly (@sys_exit A code) (SysExit code) id.
Proof. intros c Hf Hs. exists c. by rewrite Hs. Qed.

Lemma quietly_bind {B} (m : py B) (k : B -> py A) b r F G :
  quietly m (Ok b) F -> quietly (k b) r G ->
  quietly (bind m k) r (G ∘ F).
Proof.
  intros Hm Hk c Hf Hs.
  destruct (Hm c Hf Hs) as (c1 & E1 & Hf1 & Hs1 & Hw1).
  destruct (Hk c1 Hf1 Hs1) as (c2 & E2 & Hf2 & Hs2 & Hw2).
  exists c2. unfold bind. rewrite E1, E2. repeat split; [done..|]. by rewrite Hw2, Hw1.
Qed.

Lemma quietly_bind_exit {B} (m : py B) (k : B -> py A) code F :
  quietly m (SysExit code) F -> quietly (bind m k) (SysExit code) F.
Proof.
  intros Hm c Hf Hs.
  destruct (Hm c Hf Hs) as (c1 & E1 & Hf1 & Hs1 & Hw1).
  exists c1. unfold bind. by rewrite E1.
Qed.

Lemma quietly_try (body handler : py A) a F :
  quietly body (Ok a) F -> quietly (try_except body handler) (Ok a) F.
Proof.
  intros Hm c Hf Hs.
  destruct (Hm c Hf Hs) as (c1 & E1 & Hf1 & Hs1 & Hw1).
  exists c1. unfold try_except. by rewrite E1.
Qed.

Lemma quietly_ext (m : py A) r F G :
  (forall t, F t = G t) -> quietly m r F -> quietly m r G.
Proof.
  intros HFG Hm c Hf Hs.
  destruct (Hm c Hf Hs) as (c1 & E1 & Hf1 & Hs1 & Hw1).
  exists c1. by rewrite <- HFG.
Qed.

Lemma quietly_query (table : string) (answer : A) :
  quietly (query table answer) (Ok answer) id.
Proof.
  intros c Hf Hs. exists (advance (SelectFrom table) c).
  unfold query, bind, execute, next_fault. rewrite Hf. simpl.
  by rewrite Hf.
Qed.

Lemma quietly_try_raised (body handler : py A) r :
  quietly body Raised id -> quietly handler r id ->
  quietly (try_except body handler) r id.
Proof.
  intros Hm Hh c Hf Hs.
  destruct (Hm c Hf Hs) as (c1 & E1 & Hf1 & Hs1 & Hw1).
  destruct (Hh c1 Hf1 Hs1) as (c2 & E2 & Hf2 & Hs2 & Hw2).
  exists c2. unfold try_except. rewrite E1, E2.
  repeat split; [done..|]. by rewrite Hw2, Hw1.
Qed.

Lemma quietly_query_in (table : string) (accts : list string)
    (answer : list string -> A) :
  quietly (query_in table accts answer)
    match SqlText.parse_in_list (SqlText.sql_in_list accts) with
    | Some values => Ok (answer values)
    | None => Raised
    end id.
Proof.
  unfold query_in.
  destruct (SqlText.parse_in_list (SqlText.sql_in_list accts)) as [values|];
    [apply quietly_query|].
  intros c Hf Hs. exists (advance (SelectFrom table) c).
  unfold bind, execute, raise, next_fault. rewrite Hf. simpl.
  by rewrite Hf.
Qed.

End Quiet.

Lemma quietly_seq {A B} (m : py B) (k : B -> py A) b r F G H :
  quietly m (Ok b) F -> quietly (k b) r G -> (forall t, G (F t) = H t) ->
  quietly (bind m k) r H.
Proof.
  intros Hm Hk E. eapply quietly_ext; [|by eapply quietly_bind]. apply E.
Qed.

Lemma quietly_for_fold {A B} (l : list A) (f : B -> A -> py B)
    (g : B -> A -> B) (b : B) :
  (forall b x, x ∈ l -> quietly (f b x) (Ok (g b x)) id) ->
  quietly (for_fold l f b) (Ok (foldl g b l)) id.
Proof.
  revert b. induction l as [|x l IH]; intros b Hstep; simpl.
  - apply quietly_ret.
  - eapply quietly_seq.
    + apply Hstep. by left.
    + apply IH. intros b' y Hy. apply Hstep. by right.
    + done.
Qed.

Lemma quietly_for_each {A} (l : list A) (body : A -> py unit)
    (F : A -> monthly_table -> monthly_table) :
  (forall x, x ∈ l -> quietly (body x) (Ok tt) (F x)) ->
  quietly (for_each l body) (Ok tt) (fun t => foldl (fun t x => F x t) t l).
Proof.
  induction l as [|x l IH]; intros Hstep; simpl.
  - apply quietly_ret.
  - eapply quietly_seq.
    + apply Hstep. by left.
    + apply IH. intros y Hy. apply Hstep. by right.
    + done.
Qed.

Lemma quietly_upsert (rows : list param_row) :
  quietly (upsert_monthly_rows rows) (Ok (length rows)) (insert_rows rows).
Proof.
  destruct rows as [|r rows]; [apply quietly_ret|].
  intros [fs lg cm wk] Hf Hs. simpl in Hf, Hs. subst fs cm.
  eexists. split; [reflexivity|]. done.
Qed.

Lemma months_parse : Forall (fun m => year_month m = Some (ym_of m)) MONTHS.
Proof. repeat constructor. Qed.

Lemma quietly_parse (m : string) :
  year_month m = Some (ym_of m) ->
  quietly (parse_month_key m) (Ok (ym_of m)) id.
Proof. intros E. unfold parse_month_key. rewrite E. apply quietly_ret. Qed.

Section QuietScript.

Variable db : database.
Variable ob_df_all : list opening_row.

Lemma quietly_add_month_sum acct total m :
  year_month m = Some (ym_of m) ->
  quietly (add_month_sum db acct total m)
    (Ok (PrimFloat.add total
           (PyFloat.of_Z (voucher_sum_q (voucher_table db m) acct (ym_of m)))))
    id.
Proof.
  intros E. unfold add_month_sum.
  eapply quietly_seq; [by apply quietly_parse| |done].
  eapply quietly_seq; [by apply quietly_query| |done].
  apply quietly_ret.
Qed.

Lemma quietly_cumulative_voucher_map ms :
  Forall (fun m => year_month m = Some (ym_of m)) ms ->
  quietly (cumulative_voucher_map db ob_df_all ms)
    (Ok (cumulative_map db ob_df_all ms)) id.
Proof.
  intros Hms. unfold cumulative_voucher_map, cumulative_map.
  apply (quietly_for_fold _ _
           (fun cmap acct => <[acct := cumulative_total db acct ms]> cmap)).
  intros cmap acct _.
  eapply quietly_seq; [|apply quietly_ret|done].
  unfold cumulative_total.
  apply (quietly_for_fold _ _
           (fun t m =>
              PrimFloat.add t
                (PyFloat.of_Z
                   (voucher_sum_q (voucher_table db m) acct (ym_of m))))).
  intros t m Hm. apply quietly_add_month_sum.
  by apply (proj1 (Forall_forall _ _) Hms).
Qed.

End QuietScript.

Section QuietRun.

Variable db : database.

Let ob := opening_balance db.

Lemma quietly_fetch_voucher_amounts m accts :
  year_month m = Some (ym_of m) ->
  quietly (fetch_voucher_amounts_for_month db m accts)
    (Ok (voucher_map_of db m accts)) id.
Proof.
  intros E. unfold fetch_voucher_amounts_for_month, voucher_map_of.
  pose proof (quietly_query_in (voucher_table_name m) accts
                (fun values =>
                   voucher_amounts_q (voucher_table db m) values (ym_of m)))
    as Hq.
  destruct (SqlText.parse_in_list (SqlText.sql_in_list accts)) as [values|].
  - apply quietly_try.
    eapply quietly_seq; [by apply quietly_parse|apply Hq|done].
  - apply quietly_try_raised; [|apply quietly_ret].
    eapply quietly_ext; [|eapply quietly_bind; [by apply quietly_parse|]];
      [done|].
    apply Hq.
Qed.

Lemma quietly_process_cumulative im :
  quietly (process_cumulative db ob im) (Ok tt)
    (insert_rows (cumulative_batch db im)).
Proof.
  unfold process_cumulative.
  eapply quietly_seq.
  - apply quietly_cumulative_voucher_map, Forall_take, months_parse.
  - eapply quietly_seq; [apply quietly_upsert|apply quietly_ret|done].
  - done.
Qed.

Lemma quietly_process_noncumulative m :
  m ∈ MONTHS ->
  quietly (process_noncumulative db ob m) (Ok tt)
    (insert_rows (noncumulative_batch db m)).
Proof.
  intros Hm. unfold process_noncumulative.
  eapply quietly_seq.
  - apply quietly_fetch_voucher_amounts.
    by apply (proj1 (Forall_forall _ _) months_parse).
  - eapply quietly_seq; [apply quietly_upsert|apply quietly_ret|done].
  - done.
Qed.

Lemma apply_batches_map {X} (f : X -> list param_row) (l : list X) t :
  foldl (fun t x => insert_rows (f x) t) t l = apply_batches (map f l) t.
Proof.
  revert t. induction l as [|x l IH]; intros t; simpl; [done|apply IH].
Qed.

Lemma apply_batches_nil {X} (f : X -> list param_row) (l : list X) t :
  (forall x, f x = []) -> apply_batches (map f l) t = t.
Proof.
  intros Hf. revert t. induction l as [|x l IH]; intros t; simpl; [done|].
  rewrite Hf. simpl. apply IH.
Qed.

Lemma quietly_cumulative_phase :
  quietly (cumulative_phase db ob) (Ok tt) (after_cumulative db).
Proof.
  unfold cumulative_phase, after_cumulative.
  destruct (accounts_cum ob) eqn:E.
  - eapply quietly_ext; [|apply quietly_ret]. intros t.
    rewrite apply_batches_nil; [done|]. intros im.
    unfold cumulative_batch. fold ob. by rewrite E.
  - eapply quietly_ext; [|apply quietly_for_each].
    + intros t. apply apply_batches_map.
    + intros im _. apply quietly_process_cumulative.
Qed.

Lemma quietly_noncumulative_phase :
  quietly (noncumulative_phase db ob) (Ok tt)
    (apply_batches (map (noncumulative_batch db) MONTHS)).
Proof.
  unfold noncumulative_phase.
  destruct (accounts_noncum ob) eqn:E.
  - eapply quietly_ext; [|apply quietly_ret]. intros t.
    rewrite apply_batches_nil; [done|]. intros m.
    unfold noncumulative_batch. fold ob. by rewrite E.
  - eapply quietly_ext; [|apply quietly_for_each].
    + intros t. apply apply_batches_map.
    + intros m Hm. by apply quietly_process_noncumulative.
Qed.

Lemma quietly_validate_tables :
  quietly (validate_tables db)
    (if tables_ok db then Ok tt else SysExit 2) id.
Proof.
  intros [fs lg cm wk] Hf Hs. simpl in Hf, Hs. subst fs cm.
  unfold tables_ok, validate_tables, required_tables. simpl.
  unfold bind, execute, next_fault. simpl.
  destruct (Sql.IN OPENING_BALANCE_TABLE (schema_tables db)); simpl;
    [|by eexists].
  destruct (Sql.IN HISTORICAL_TABLE (schema_tables db)); simpl;
    [|by eexists].
  destruct (Sql.IN MONTHLY_TABLE (schema_tables db)); simpl; by eexists.
Qed.

Lemma quietly_main :
  quietly (main db) (quiet_outcome db)
    (if tables_ok db then after_run db else id).
Proof.
  unfold main, quiet_outcome.
  pose proof quietly_validate_tables as Hv.
  destruct (tables_ok db); [|by apply quietly_bind_exit].
  eapply quietly_seq; [apply Hv| |done].
  eapply quietly_seq; [apply quietly_query| |done]. fold ob.
  pose proof quietly_cumulative_phase as Hc.
  pose proof quietly_noncumulative_phase as Hn.
  assert (quietly (cumulative_phase db ob;;; noncumulative_phase db ob)
            (Ok tt) (after_run db)) as Hboth.
  { eapply quietly_seq; [apply Hc|apply Hn|done]. }
  destruct (accounts_cum ob) eqn:E1; [|done].
  destruct (accounts_noncum ob) eqn:E2; [|done].
  eapply quietly_ext; [|apply quietly_sys_exit].
  intros t. unfold after_run, after_cumulative.
  rewrite !apply_batches_nil; [done| |].
  - intros im. unfold cumulative_batch. fold ob. by rewrite E1.
  - intros m. unfold noncumulative_batch. fold ob. by rewrite E2.
Qed.

Lemma run_ok_eq (t : monthly_table) :
  run_ok db t =
    (if tables_ok db then 0 else 2,
     if tables_ok db then after_run db t else t).
Proof.
  unfold run_ok, run.
  destruct (quietly_main (connect t []) eq_refl eq_refl)
    as (c' & E & _ & Hs & Hw).
  rewrite E, Hs, Hw. unfold quiet_outcome.
  destruct (tables_ok db); [|done].
  by destruct (accounts_cum (opening_balance db)),
              (accounts_noncum (opening_balance db)).
Qed.

End QuietRun.

(** ** Upserts, cell by cell *)

Lemma insert_row_lookup (t : monthly_table) (r : param_row) k :
  insert_row t r !! k =
    if decide (row_key r = k) then Some (upsert_cell (t !! k) r) else t !! k.
Proof.
  unfold insert_row. case_decide as E.
  - subst k. destruct (t !! row_key r); simpl; by rewrite lookup_insert_eq.
  - destruct (t !! row_key r); by rewrite lookup_insert_ne.
Qed.

Lemma insert_rows_lookup (rows : list param_row) (t : monthly_table) k :
  insert_rows rows t !! k = cell_after k rows (t !! k).
Proof.
  revert t. unfold insert_rows, cell_after.
  induction rows as [|r rows IH]; intros t; simpl; [done|].
  by rewrite IH, insert_row_lookup.
Qed.

Lemma apply_batches_concat (bs : list (list param_row)) (t : monthly_table) :
  apply_batches bs t = insert_rows (concat bs) t.
Proof.
  revert t. unfold apply_batches, insert_rows.
  induction bs as [|b bs IH]; intros t; simpl; [done|].
  by rewrite IH, foldl_app.
Qed.

Lemma cell_after_app k rows1 rows2 o :
  cell_after k (rows1 ++ rows2) o = cell_after k rows2 (cell_after k rows1 o).
Proof. unfold cell_after. apply foldl_app. Qed.

Lemma cell_after_frame k rows o :
  (forall r, r ∈ rows -> row_key r ≠ k) -> cell_after k rows o = o.
Proof.
  unfold cell_after. revert o.
  induction rows as [|r rows IH]; intros o Hk; simpl; [done|].
  rewrite decide_False by (apply Hk; by left).
  apply IH. intros r' Hr'. apply Hk. by right.
Qed.

Lemma cell_after_balance k rows o b :
  (forall r, r ∈ rows -> row_key r = k -> p_balance r = b) ->
  mb_opening_balance <$> o = Some (Some b) \/
    (exists r, r ∈ rows /\ row_key r = k) ->
  mb_opening_balance <$> cell_after k rows o = Some (Some b).
Proof.
  unfold cell_after. revert o.
  induction rows as [|r rows IH]; intros o Hb Hex; simpl.
  - destruct Hex as [Ho|(r & Hr & _)]; [done|]. by apply elem_of_nil in Hr.
  - apply IH; [intros r' Hr'; apply Hb; by right|].
    case_decide as E.
    + left. simpl. rewrite <- (Hb r); [|by left|done]. by destruct o.
    + destruct Hex as [Ho|(r' & Hr' & E')]; [by left|right].
      apply elem_of_cons in Hr' as [->|Hr']; [done|]. by exists r'.
Qed.

(** ** Dicts *)

Lemma py_dict_snoc {V} (kvs : list (string * V)) k v :
  py_dict (kvs ++ [(k, v)]) = <[k := v]> (py_dict kvs).
Proof. unfold py_dict. by rewrite foldl_app. Qed.

Lemma py_dict_lookup {X V} (key : X -> string) (val : X -> V) (l : list X) a :
  py_dict (map (fun x => (key x, val x)) l) !! a =
    val <$> last (filter (fun x => key x = a) l).
Proof.
  induction l as [|x l IH] using rev_ind; [done|].
  rewrite map_app, filter_app. simpl. rewrite py_dict_snoc.
  rewrite filter_cons, filter_nil. case_decide as E.
  - subst a. by rewrite lookup_insert_eq, last_snoc.
  - by rewrite lookup_insert_ne, app_nil_r.
Qed.

Lemma foldl_insert_lookup {V} (f : string -> V) (l : list string)
    (m0 : gmap string V) a :
  foldl (fun m x => <[x := f x]> m) m0 l !! a =
    if decide (a ∈ l) then Some (f a) else m0 !! a.
Proof.
  revert m0. induction l as [|x l IH]; intros m0; simpl; [done|].
  rewrite IH. destruct (decide (a ∈ l)) as [Hin|Hnin].
  - rewrite decide_True; [done|by right].
  - destruct (decide (x = a)) as [->|Hne].
    + rewrite lookup_insert_eq. rewrite decide_True; [done|by left].
    + rewrite lookup_insert_ne by done.
      rewrite decide_False; [done|]. intros [->|?]%elem_of_cons; done.
Qed.

(** ** Lists *)

Lemma elem_of_map {X Y} (f : X -> Y) (l : list X) y :
  y ∈ map f l <-> exists x, y = f x /\ x ∈ l.
Proof. apply (list_elem_of_fmap f). Qed.

Lemma elem_of_concat {X} (ls : list (list X)) x :
  x ∈ concat ls <-> exists l, l ∈ ls /\ x ∈ l.
Proof.
  induction ls as [|l0 ls IH]; simpl.
  - split; [by intros ?%elem_of_nil|]. by intros (l & ?%elem_of_nil & _).
  - rewrite elem_of_app, IH. split.
    + intros [H|(l & Hl & Hx)]; [exists l0|exists l]; split; try done;
        [by left|by right].
    + intros (l & [->|Hl]%elem_of_cons & Hx); [by left|right; by exists l].
Qed.

Lemma List_filter_decide {X} (f : X -> bool) (P : X -> Prop)
    `{!forall x, Decision (P x)} (l : list X) :
  (forall x, f x = true <-> P x) -> List.filter f l = filter P l.
Proof.
  intros Hf. induction l as [|x l IH]; [done|]. simpl.
  rewrite filter_cons, IH. destruct (f x) eqn:E.
  - rewrite decide_True; [done|]. by apply Hf.
  - rewrite decide_False; [done|]. rewrite <- Hf. by rewrite E.
Qed.

Lemma List_filter_filter_decide {A} (f : A -> bool) (P : A -> Prop)
    `{!forall x, Decision (P x)} (l : list A) :
  (forall x, f x = true -> P x) ->
  List.filter f (filter P l) = List.filter f l.
Proof.
  intros Hf. induction l as [|x l IH]; [done|].
  rewrite filter_cons. simpl. destruct (decide (P x)) as [Hx|Hx]; simpl.
  - by rewrite IH.
  - destruct (f x) eqn:E; [by apply Hf in E|done].
Qed.

(** ** The queries against the specification's vocabulary *)

Lemma coalesce_sum (xs : list Z) : Sql.COALESCE (Sql.SUM xs) 0 = Spec.sumZ xs.
Proof. by destruct xs. Qed.

Lemma not_marker_spec v : Sql.not_marker v = true <-> ~ Spec.is_marker v.
Proof.
  unfold Sql.not_marker, Spec.is_marker, Sql.marker_vouchers. simpl.
  rewrite negb_true_iff, !orb_false_iff.
  rewrite !String.eqb_neq. tauto.
Qed.

Lemma in_month_spec m r :
  year_month m = Some (ym_of m) ->
  in_month (ym_of m) r = true <-> Spec.dated_in m r.
Proof.
  intros E. unfold in_month, Spec.dated_in. rewrite E.
  destruct (ym_of m) as [y mo]. simpl.
  rewrite andb_true_iff, !Z.eqb_eq. split.
  - by intros [-> ->].
  - by intros [= -> ->].
Qed.

Lemma voucher_sum_q_activity db a m :
  year_month m = Some (ym_of m) ->
  voucher_sum_q (voucher_table db m) a (ym_of m) = Spec.month_activity db a m.
Proof.
  intros E. unfold voucher_sum_q, Spec.month_activity, Spec.activity_rows.
  rewrite coalesce_sum. f_equal. f_equal.
  apply List_filter_decide. intros r.
  rewrite !andb_true_iff, String.eqb_eq, in_month_spec, not_marker_spec by done.
  tauto.
Qed.

(** The table a window month selects: [vouchers] for the first seven
    months, [vouchers_curr_month] for the last two. *)
Lemma month_activity_table db a j m :
  MONTHS !! j = Some m ->
  Spec.month_activity db a m =
    Spec.sumZ
      (map amount_original
         (filter (fun r => account_code r = a /\ Spec.dated_in m r /\
                           ~ Spec.is_marker (voucher r))
                 (if decide (j < 7)%nat then vouchers db
                  else vouchers_curr_month db))).
Proof.
  intros Hj. unfold Spec.month_activity, Spec.activity_rows.
  do 2 f_equal.
  repeat (destruct j as [|j]; [by injection Hj as <-|]).
  discriminate Hj.
Qed.

Lemma cumulative_total_spec db a ms :
  Forall (fun m => year_month m = Some (ym_of m)) ms ->
  cumulative_total db a ms =
    Spec.float_sum (map (Spec.month_activity db a) ms).
Proof.
  intros Hms. unfold cumulative_total, Spec.float_sum.
  generalize PrimFloat.zero.
  induction Hms as [|m ms Hm _ IH]; intros z; simpl; [done|].
  by rewrite IH, voucher_sum_q_activity.
Qed.

(** ** Floating-point sums that do not round *)

Lemma float_zero : PrimFloat.zero = PyFloat.of_Z 0.
Proof. reflexivity. Qed.

Lemma foldl_exact_from (z : Z) (xs : list Z) :
  PyFloat.exact_from z xs ->
  foldl (fun t x => PrimFloat.add t (PyFloat.of_Z x)) (PyFloat.of_Z z) xs =
    PyFloat.of_Z (z + Spec.sumZ xs).
Proof.
  revert z. induction xs as [|x xs IH]; intros z; simpl.
  - intros _. by rewrite Z.add_0_r.
  - intros [Hx Hxs]. unfold PyFloat.exact_add in Hx. rewrite Hx.
    rewrite IH by done. f_equal. lia.
Qed.

Lemma float_sum_exact (xs : list Z) :
  PyFloat.exact_from 0 xs -> Spec.float_sum xs = PyFloat.of_Z (Spec.sumZ xs).
Proof.
  intros Hxs. unfold Spec.float_sum. rewrite float_zero.
  by rewrite foldl_exact_from.
Qed.

Lemma cumulative_balance_exact db a i :
  Spec.cumulative_exact db a i ->
  Spec.cumulative_balance db a i =
    PyFloat.of_Z (Spec.exact_cumulative db a i).
Proof.
  intros [Hsum Hadd]. unfold Spec.cumulative_balance, Spec.exact_cumulative.
  by rewrite float_sum_exact.
Qed.

(** ** Account lists that MySQL reads back as they are *)

Lemma string_app_cons c (s t : string) :
  (String c s ++ t)%string = String c (s ++ t)%string.
Proof. reflexivity. Qed.

Lemma string_app_assoc (s t u : string) :
  ((s ++ t) ++ u)%string = (s ++ (t ++ u))%string.
Proof.
  induction s as [|c s IH]; [done|]. by rewrite !string_app_cons, IH.
Qed.

Lemma string_app_nil_r (s : string) : (s ++ "")%string = s.
Proof. induction s as [|c s IH]; [done|]. by rewrite string_app_cons, IH. Qed.

Lemma read_literal_body v cur rest acc :
  SqlText.no_backslash v ->
  SqlText.read_list
    (SqlText.double_quotes v ++ String SqlText.quote rest)%string
    (SqlText.Inside cur) acc =
  SqlText.read_list rest (SqlText.AfterQuote (cur ++ v)%string) acc.
Proof.
  revert cur. induction v as [|c v IH]; intros cur Hv.
  - simpl. by rewrite string_app_nil_r.
  - destruct Hv as [Hc Hv]. simpl SqlText.double_quotes.
    destruct (Ascii.eqb_spec c SqlText.quote) as [->|Hq].
    + rewrite !string_app_cons. simpl SqlText.read_list.
      rewrite IH by done. by rewrite string_app_assoc.
    + rewrite string_app_cons. simpl SqlText.read_list.
      apply Ascii.eqb_neq in Hq, Hc. rewrite Hq, Hc.
      rewrite IH by done. by rewrite string_app_assoc.
Qed.

Lemma read_literal v rest acc :
  SqlText.no_backslash v ->
  SqlText.read_list (SqlText.literal v ++ rest)%string SqlText.Before acc =
  SqlText.read_list rest (SqlText.AfterQuote v) acc.
Proof.
  intros Hv. unfold SqlText.literal.
  rewrite string_app_cons, string_app_assoc, string_app_cons.
  simpl SqlText.read_list.
  change (String SqlText.quote ("" ++ rest)%string)
    with (String SqlText.quote rest).
  by rewrite read_literal_body.
Qed.

Lemma read_in_list v vs acc :
  Forall SqlText.no_backslash (v :: vs) ->
  SqlText.read_list (SqlText.sql_in_list (v :: vs)) SqlText.Before acc =
    Some (acc ++ v :: vs)%list.
Proof.
  revert v acc. induction vs as [|w vs IH]; intros v acc Hvs.
  - apply Forall_cons in Hvs as [Hv _].
    change (SqlText.sql_in_list [v]) with (SqlText.literal v).
    rewrite <- (string_app_nil_r (SqlText.literal v)).
    by rewrite read_literal.
  - apply Forall_cons in Hvs as [Hv Hvs].
    change (SqlText.sql_in_list (v :: w :: vs))
      with (SqlText.literal v ++
            String SqlText.comma (SqlText.sql_in_list (w :: vs)))%string.
    rewrite read_literal by done. simpl SqlText.read_list.
    rewrite IH by done. by rewrite <- app_assoc.
Qed.

Lemma plain_no_backslash (accts : list string) :
  Forall SqlText.plain accts -> Forall SqlText.no_backslash accts.
Proof. intros H. eapply Forall_impl; [exact H|]. by intros a [? _]. Qed.

Lemma parse_in_list_plain (accts : list string) :
  accts <> [] -> Forall SqlText.plain accts ->
  SqlText.parse_in_list (SqlText.sql_in_list accts) = Some accts.
Proof.
  intros Hne Hp%plain_no_backslash. destruct accts as [|v vs]; [done|].
  unfold SqlText.parse_in_list. by rewrite read_in_list.
Qed.

Lemma voucher_map_of_plain db m (accts : list string) :
  accts <> [] -> Forall SqlText.plain accts ->
  voucher_map_of db m accts =
    voucher_amounts_q (voucher_table db m) accts (ym_of m).
Proof.
  intros Hne Hp. unfold voucher_map_of. by rewrite parse_in_list_plain.
Qed.

Lemma get0_ob_map db a :
  get0 (ob_map (opening_balance db)) a = Spec.opening_of db a.
Proof.
  unfold get0, ob_map, Spec.opening_of.
  rewrite (py_dict_lookup ob_account (fun r => default 0 (ob_opening_balance r))).
  destruct (last _) as [r|]; [|done]. simpl. by destruct (ob_opening_balance r).
Qed.

Lemma get0_cumulative_map db ob ms a :
  a ∈ accounts_cum ob ->
  getf (cumulative_map db ob ms) a = cumulative_total db a ms.
Proof.
  intros Ha. unfold getf, cumulative_map.
  rewrite (foldl_insert_lookup (fun acct => cumulative_total db acct ms)).
  by rewrite decide_True.
Qed.

(** ** The cumulative loop *)

Lemma MONTHS_NoDup : NoDup MONTHS.
Proof. by apply (bool_decide_unpack (NoDup MONTHS)). Qed.

Lemma elem_of_cumulative_rows db r :
  r ∈ concat (map (cumulative_batch db) (imap pair MONTHS)) <->
  exists j mj acct,
    MONTHS !! j = Some mj /\ acct ∈ accounts_cum (opening_balance db) /\
    r = make_row (opening_balance db) mj
          (getf (cumulative_map db (opening_balance db) (take (S j) MONTHS))
                acct)
          acct.
Proof.
  rewrite elem_of_concat. split.
  - intros (l & (im & -> & Him)%elem_of_map & Hr).
    apply elem_of_lookup_imap in Him as (j & mj & -> & Hj).
    apply elem_of_map in Hr as (acct & -> & Hacct).
    by exists j, mj, acct.
  - intros (j & mj & acct & Hj & Hacct & ->).
    exists (cumulative_batch db (j, mj)). split.
    + apply elem_of_map. exists (j, mj). split; [done|].
      by apply (elem_of_lookup_imap_2 pair).
    + apply elem_of_map. by exists acct.
Qed.

Lemma after_cumulative_balance (db : database) (t : monthly_table)
    (a m : string) (i : nat) :
  a ∈ accounts_cum (opening_balance db) ->
  MONTHS !! i = Some m ->
  mb_opening_balance <$> after_cumulative db t !! (a, m) =
    Some (Some (Spec.cumulative_balance db a i)).
Proof.
  intros Ha Hi. unfold after_cumulative.
  rewrite apply_batches_concat, insert_rows_lookup.
  apply cell_after_balance.
  - intros r (j & mj & acct & Hj & Hacct & ->)%elem_of_cumulative_rows.
    intros [= -> ->].
    assert (j = i) as -> by (eapply NoDup_lookup; eauto using MONTHS_NoDup).
    cbn [p_balance make_row].
    rewrite get0_ob_map, get0_cumulative_map by done.
    rewrite cumulative_total_spec by apply Forall_take, months_parse.
    done.
  - right. eexists. split.
    + apply elem_of_cumulative_rows. by exists i, m, a.
    + done.
Qed.


(** ** The income/expense loop *)

Lemma sumZ_app xs ys : Spec.sumZ (xs ++ ys) = Spec.sumZ xs + Spec.sumZ ys.
Proof. induction xs as [|x xs IH]; simpl; [done|]. rewrite IH. lia. Qed.

Lemma group_sum_snoc kvs k v :
  Sql.group_sum (kvs ++ [(k, v)]) =
    <[k := default 0 (Sql.group_sum kvs !! k) + v]> (Sql.group_sum kvs).
Proof. unfold Sql.group_sum. by rewrite foldl_app. Qed.

Lemma group_sum_get0 kvs a :
  get0 (Sql.group_sum kvs) a =
    Spec.sumZ (map snd (List.filter (fun kv => String.eqb kv.1 a) kvs)).
Proof.
  induction kvs as [|[k v] kvs IH] using rev_ind; [done|].
  rewrite group_sum_snoc, List.filter_app, map_app, sumZ_app, <- IH.
  unfold get0. simpl. destruct (String.eqb_spec k a) as [->|Hne]; simpl.
  - rewrite lookup_insert_eq. simpl. lia.
  - rewrite lookup_insert_ne by done. lia.
Qed.

Lemma IN_true x xs : Sql.IN x xs = true <-> x ∈ xs.
Proof.
  unfold Sql.IN. rewrite existsb_exists. split.
  - intros (y & Hy & ->%String.eqb_eq). by apply list_elem_of_In.
  - intros Hx. exists x. split; [by apply list_elem_of_In|apply String.eqb_refl].
Qed.

Lemma voucher_amounts_q_get0 rows accts ym a :
  a ∈ accts ->
  get0 (voucher_amounts_q rows accts ym) a = voucher_sum_q rows a ym.
Proof.
  intros Ha. unfold voucher_amounts_q, voucher_sum_q.
  rewrite group_sum_get0, coalesce_sum. f_equal.
  induction rows as [|r rows IH]; [done|]. simpl.
  destruct (String.eqb_spec (account_code r) a) as [E|Hne].
  - assert (Sql.IN (account_code r) accts = true) as ->
      by (apply IN_true; by rewrite E).
    rewrite andb_true_r. simpl.
    destruct (in_month ym r && Sql.not_marker (voucher r)) eqn:E2;
      simpl; [|done].
    apply String.eqb_eq in E. rewrite E. simpl. by rewrite IH.
  - simpl.
    destruct (in_month ym r && Sql.IN (account_code r) accts &&
              Sql.not_marker (voucher r)); simpl; [|done].
    apply String.eqb_neq in Hne. by rewrite Hne.
Qed.

Lemma noncumulative_batches_balance (db : database) (t : monthly_table)
    (a m : string) :
  a ∈ accounts_noncum (opening_balance db) ->
  m ∈ MONTHS ->
  mb_opening_balance <$>
    apply_batches (map (noncumulative_batch db) MONTHS) t !! (a, m) =
    Some (Some (periodic_stored db a m)).
Proof.
  intros Ha Hm.
  rewrite apply_batches_concat, insert_rows_lookup.
  apply cell_after_balance.
  - intros r (l & (mj & -> & _)%elem_of_map & Hr)%elem_of_concat.
    apply elem_of_map in Hr as (acct & -> & Hacct).
    intros [= -> ->]. cbn [p_balance make_row].
    by rewrite get0_ob_map.
  - right.
    exists (make_row (opening_balance db) m
              (PyFloat.of_Z
                 (get0 (voucher_map_of db m
                          (accounts_noncum (opening_balance db))) a)) a).
    split; [|done]. apply elem_of_concat.
    exists (noncumulative_batch db m). split.
    + apply elem_of_map. by exists m.
    + apply elem_of_map. by exists a.
Qed.

Lemma after_run_noncum_balance (db : database) (t : monthly_table)
    (a m : string) :
  a ∈ accounts_noncum (opening_balance db) ->
  m ∈ MONTHS ->
  mb_opening_balance <$> after_run db t !! (a, m) =
    Some (Some (periodic_stored db a m)).
Proof. apply noncumulative_batches_balance. Qed.

Lemma periodic_stored_plain (db : database) (a m : string) :
  Forall SqlText.plain (accounts_noncum (opening_balance db)) ->
  a ∈ accounts_noncum (opening_balance db) ->
  m ∈ MONTHS ->
  periodic_stored db a m = Spec.periodic_balance db a m.
Proof.
  intros Hp Ha Hm. unfold periodic_stored, Spec.periodic_balance.
  assert (year_month m = Some (ym_of m)) as Hy
    by by apply (proj1 (Forall_forall _ _) months_parse).
  rewrite voucher_map_of_plain; [|by intros E; rewrite E in Ha; inversion Ha|done].
  by rewrite voucher_amounts_q_get0, voucher_sum_q_activity.
Qed.

Lemma activity_rows_dated db a m :
  Spec.activity_rows db a m =
    filter (fun r => account_code r = a /\ ~ Spec.is_marker (voucher r))
      (filter (Spec.dated_in m) (voucher_table db m)).
Proof.
  unfold Spec.activity_rows. rewrite list_filter_filter.
  apply list_filter_iff. intros r. tauto.
Qed.


(** ** The script depends on the voucher tables through its sums only *)

Section Ext.

Lemma bind_ext {A B} (m1 m2 : py A) (k1 k2 : A -> py B) c :
  m1 c = m2 c -> (forall a c', k1 a c' = k2 a c') ->
  bind m1 k1 c = bind m2 k2 c.
Proof.
  intros Hm Hk. unfold bind. rewrite Hm.
  destruct (m2 c) as [[a| |] c']; [apply Hk|done|done].
Qed.

Lemma try_except_ext {A} (b1 b2 h1 h2 : py A) c :
  b1 c = b2 c -> (forall c', h1 c' = h2 c') ->
  try_except b1 h1 c = try_except b2 h2 c.
Proof.
  intros Hb Hh. unfold try_except. rewrite Hb.
  destruct (b2 c) as [[a| |] c']; [done|done|apply Hh].
Qed.

Lemma for_fold_ext {A B} (l : list A) (f1 f2 : B -> A -> py B) b c :
  (forall b x c', f1 b x c' = f2 b x c') ->
  for_fold l f1 b c = for_fold l f2 b c.
Proof.
  intros Hf. revert b c. induction l as [|x l IH]; intros b c; [done|].
  simpl. apply bind_ext; [apply Hf|]. intros b' c'. apply IH.
Qed.

Lemma for_each_ext {A} (l : list A) (f1 f2 : A -> py unit) c :
  (forall x c', f1 x c' = f2 x c') ->
  for_each l f1 c = for_each l f2 c.
Proof.
  intros Hf. revert c. induction l as [|x l IH]; intros c; [done|].
  simpl. apply bind_ext; [apply Hf|]. intros _ c'. apply IH.
Qed.

Variables db1 db2 : database.
Hypothesis schema_eq : schema_tables db1 = schema_tables db2.
Hypothesis opening_eq : opening_balance db1 = opening_balance db2.
Hypothesis sums_eq : forall m acct ym,
  voucher_sum_q (voucher_table db1 m) acct ym =
    voucher_sum_q (voucher_table db2 m) acct ym.
Hypothesis amounts_eq : forall m accts ym,
  voucher_amounts_q (voucher_table db1 m) accts ym =
    voucher_amounts_q (voucher_table db2 m) accts ym.

Lemma process_cumulative_ext ob im c :
  process_cumulative db1 ob im c = process_cumulative db2 ob im c.
Proof.
  unfold process_cumulative. apply bind_ext; [|done].
  unfold cumulative_voucher_map. apply for_fold_ext. intros cmap acct c1.
  apply bind_ext; [|done]. apply for_fold_ext. intros t m c2.
  unfold add_month_sum. apply bind_ext; [done|]. intros ym c3.
  by rewrite sums_eq.
Qed.

Lemma process_noncumulative_ext ob m c :
  process_noncumulative db1 ob m c = process_noncumulative db2 ob m c.
Proof.
  unfold process_noncumulative. apply bind_ext; [|done].
  unfold fetch_voucher_amounts_for_month. apply try_except_ext; [|done].
  apply bind_ext; [done|]. intros ym c1. unfold query_in.
  destruct (SqlText.parse_in_list _); [|done]. by rewrite amounts_eq.
Qed.

Lemma main_ext c : main db1 c = main db2 c.
Proof.
  unfold main. apply bind_ext.
  { unfold validate_tables. by rewrite schema_eq. }
  intros _ c1. rewrite opening_eq. apply bind_ext; [done|].
  intros ob c2.
  assert (forall c', (cumulative_phase db1 ob;;; noncumulative_phase db1 ob) c' =
                     (cumulative_phase db2 ob;;; noncumulative_phase db2 ob) c')
    as Hph.
  { intros c'. apply bind_ext.
    - unfold cumulative_phase. destruct (accounts_cum ob); [done|].
      apply for_each_ext. intros. apply process_cumulative_ext.
    - intros _ c''. unfold noncumulative_phase.
      destruct (accounts_noncum ob); [done|].
      apply for_each_ext. intros. apply process_noncumulative_ext. }
  destruct (accounts_cum ob), (accounts_noncum ob); first [done|apply Hph].
Qed.

Lemma run_ext (t : monthly_table) fs : run db1 t fs = run db2 t fs.
Proof. unfold run. by rewrite main_ext. Qed.

End Ext.

(** ** Rules for [hoare] *)

Section HoareRules.

Context {A : Type}.
Implicit Types (P : conn -> Prop) (E : option Z -> conn -> Prop).

Lemma hoare_ret (a : A) (Q : A -> conn -> Prop) E :
  hoare (Q a) (ret a) Q E.
Proof. by intros c Hc. Qed.

Lemma hoare_sys_exit code (Q : A -> conn -> Prop) E :
  hoare (E (Some code)) (sys_exit code) Q E.
Proof. by intros c Hc. Qed.

Lemma hoare_raise (Q : A -> conn -> Prop) E : hoare (E None) raise Q E.
Proof. by intros c Hc. Qed.

Lemma hoare_bind {B} (m : py B) (k : B -> py A) P R
    (Q : A -> conn -> Prop) E :
  hoare P m R E -> (forall b, hoare (R b) (k b) Q E) ->
  hoare P (bind m k) Q E.
Proof.
  intros Hm Hk c Hc. specialize (Hm c Hc). unfold bind.
  destruct (m c) as [[b| |] c']; [by apply Hk|done|done].
Qed.

Lemma hoare_try_except (body handler : py A) P
    (Q : A -> conn -> Prop) E1 E :
  hoare P body Q E1 -> hoare (E1 None) handler Q E ->
  (forall code c, E1 (Some code) c -> E (Some code) c) ->
  hoare P (try_except body handler) Q E.
Proof.
  intros Hb Hh Hexit c Hc. specialize (Hb c Hc). unfold try_except.
  destruct (body c) as [[a| |] c']; [done|by apply Hexit|by apply Hh].
Qed.

Lemma hoare_conseq (m : py A) P P' (Q Q' : A -> conn -> Prop) E E' :
  hoare P' m Q' E' ->
  (forall c, P c -> P' c) -> (forall a c, Q' a c -> Q a c) ->
  (forall o c, E' o c -> E o c) ->
  hoare P m Q E.
Proof.
  intros Hm HP HQ HE c Hc. specialize (Hm c (HP c Hc)).
  destruct (m c) as [[a| |] c']; [by apply HQ|by apply HE|by apply HE].
Qed.

End HoareRules.

Lemma hoare_for_fold {A B} (l : list A) (f : B -> A -> py B) (b : B)
    (I : conn -> Prop) E :
  (forall b x, x ∈ l -> hoare I (f b x) (fun _ => I) E) ->
  hoare I (for_fold l f b) (fun _ => I) E.
Proof.
  revert b. induction l as [|x l IH]; intros b Hf; simpl.
  - apply (hoare_ret b (fun _ => I)).
  - eapply hoare_bind; [apply Hf; by left|].
    intros b'. apply IH. intros b'' y Hy. apply Hf. by right.
Qed.

Lemma hoare_for_each {A} (l : list A) (body : A -> py unit)
    (I : conn -> Prop) E :
  (forall x, x ∈ l -> hoare I (body x) (fun _ => I) E) ->
  hoare I (for_each l body) (fun _ => I) E.
Proof.
  induction l as [|x l IH]; intros Hf; simpl.
  - apply (hoare_ret tt (fun _ => I)).
  - eapply hoare_bind; [apply Hf; by left|].
    intros []. apply IH. intros y Hy. apply Hf. by right.
Qed.

Lemma hoare_execute (s : stmt) (I : conn -> Prop) :
  (forall c, I c -> I (advance s c)) ->
  hoare I (execute s) (fun _ => I) (fun _ => I).
Proof.
  intros Hs c Hc. unfold execute. destruct (next_fault c); by apply Hs.
Qed.

Lemma hoare_query {A} (table : string) (answer : A) (I : conn -> Prop) :
  (forall c, I c -> I (advance (SelectFrom table) c)) ->
  hoare I (query table answer) (fun _ => I) (fun _ => I).
Proof.
  intros Hs. unfold query. eapply hoare_bind; [by apply hoare_execute|].
  intros []. apply (hoare_ret answer (fun _ => I)).
Qed.

Lemma hoare_query_answer {A} (table : string) (answer : A)
    (I : conn -> Prop) :
  (forall c, I c -> I (advance (SelectFrom table) c)) ->
  hoare I (query table answer) (fun a c => a = answer /\ I c) (fun _ => I).
Proof.
  intros Hs c Hc. unfold query, bind, execute.
  destruct (next_fault c); cbv beta iota; [by apply Hs|].
  split; [done|by apply Hs].
Qed.

Lemma hoare_query_in {A} (table : string) (accts : list string)
    (answer : list string -> A) (I : conn -> Prop) :
  (forall c, I c -> I (advance (SelectFrom table) c)) ->
  hoare I (query_in table accts answer) (fun _ => I) (fun _ => I).
Proof.
  intros Hs. unfold query_in.
  destruct (SqlText.parse_in_list _); [by apply hoare_query|].
  intros c Hc. unfold bind, execute, raise.
  destruct (next_fault c); by apply Hs.
Qed.

Lemma hoare_parse (m : string) (I : conn -> Prop) :
  hoare I (parse_month_key m) (fun _ => I) (fun _ => I).
Proof. intros c Hc. unfold parse_month_key. by destruct (year_month m). Qed.

(** ** Invariants of the script *)

Lemma set_working_id c : set_working (working c) c = c.
Proof. by destruct c. Qed.

Section ScriptSpec.

Variable db : database.
Variable I : conn -> Prop.
Variable E : option Z -> conn -> Prop.
Hypothesis HS : script_spec db I E.

Let ob := opening_balance db.

Lemma voucher_table_name_stmt m :
  script_stmt (SelectFrom (voucher_table_name m)).
Proof.
  unfold voucher_table_name. simpl.
  destruct (PyStr.le m "2025-07"); auto.
Qed.

Lemma hoare_skip {A} (a : A) : hoare I (ret a) (fun _ => I) E.
Proof. by intros c Hc. Qed.

Lemma hoare_exit {A} code : hoare I (@sys_exit A code) (fun _ => I) E.
Proof. intros c Hc. by apply (spec_abort db I E HS). Qed.

Lemma hoare_script_query {A} table (answer : A) :
  script_stmt (SelectFrom table) ->
  hoare I (query table answer) (fun a c => a = answer /\ I c) E.
Proof.
  intros Hs.
  eapply hoare_conseq;
    [apply hoare_query_answer with (I := I)|done|done|].
  - intros c Hc. by apply (spec_advance db I E HS).
  - intros o c Hc. by apply (spec_abort db I E HS).
Qed.

Lemma hoare_script_parse m :
  hoare I (parse_month_key m) (fun _ => I) E.
Proof.
  eapply hoare_conseq; [apply hoare_parse with (I := I)|done|done|].
  intros o c Hc. by apply (spec_abort db I E HS).
Qed.

Lemma hoare_process_cumulative im :
  im.2 ∈ MONTHS -> hoare I (process_cumulative db ob im) (fun _ => I) E.
Proof.
  intros Him. unfold process_cumulative.
  eapply hoare_bind with (R := fun _ => I).
  - apply hoare_for_fold. intros cmap acct _.
    eapply hoare_bind with (R := fun _ => I).
    + apply hoare_for_fold. intros t m _. unfold add_month_sum.
      eapply hoare_bind with (R := fun _ => I);
        [apply hoare_script_parse|].
      intros ym.
      eapply hoare_bind with (R := fun _ => I).
      * eapply hoare_conseq;
          [apply hoare_script_query, voucher_table_name_stmt|done| |done].
        by intros a c [_ Hc].
      * intros result. apply hoare_skip.
    + intros total. apply hoare_skip.
  - intros cmap. eapply hoare_bind with (R := fun _ => I).
    + apply (spec_upsert db I E HS). exists im.2, (getf cmap).
      split; [done|by left].
    + intros n. apply hoare_skip.
Qed.

Lemma hoare_process_noncumulative m :
  m ∈ MONTHS -> hoare I (process_noncumulative db ob m) (fun _ => I) E.
Proof.
  intros Hm. unfold process_noncumulative.
  eapply hoare_bind with (R := fun _ => I).
  - unfold fetch_voucher_amounts_for_month.
    eapply hoare_try_except with (E1 := fun _ => I).
    + eapply hoare_bind with (R := fun _ => I);
        [apply hoare_parse with (I := I)|].
      intros ym. apply hoare_query_in. intros c Hc.
      apply (spec_advance db I E HS); [apply voucher_table_name_stmt|done].
    + apply hoare_skip.
    + intros code c Hc. by apply (spec_abort db I E HS).
  - intros vmap. eapply hoare_bind with (R := fun _ => I).
    + apply (spec_upsert db I E HS).
      exists m, (fun acct => PyFloat.of_Z (get0 vmap acct)).
      split; [done|by right].
    + intros n. apply hoare_skip.
Qed.

Lemma hoare_phases :
  hoare I (cumulative_phase db ob;;; noncumulative_phase db ob)
    (fun _ => I) E.
Proof.
  eapply hoare_bind with (R := fun _ => I).
  - unfold cumulative_phase. destruct (accounts_cum ob); [apply hoare_skip|].
    apply hoare_for_each. intros im Him.
    apply hoare_process_cumulative.
    apply elem_of_lookup_imap in Him as (j & mj & -> & Hj).
    by apply list_elem_of_lookup_2 in Hj.
  - intros []. unfold noncumulative_phase.
    destruct (accounts_noncum ob); [apply hoare_skip|].
    apply hoare_for_each. intros m Hm.
    by apply hoare_process_noncumulative.
Qed.

Lemma hoare_main : hoare I (main db) (fun _ => I) E.
Proof.
  unfold main. eapply hoare_bind with (R := fun _ => I).
  - unfold validate_tables. apply hoare_for_each. intros t _.
    eapply hoare_bind with (R := fun _ => I).
    + eapply hoare_bind with (R := fun _ => I).
      * eapply hoare_conseq;
          [apply hoare_execute with (I := I)|done|done|].
        -- intros c Hc. by apply (spec_advance db I E HS).
        -- intros o c Hc. by apply (spec_abort db I E HS).
      * intros []. apply hoare_skip.
    + intros r. destruct (r =? 0); [apply hoare_exit|apply hoare_skip].
  - intros [].
    eapply hoare_bind
      with (R := fun ob' c => ob' = opening_balance db /\ I c).
    + apply hoare_script_query. by left.
    + intros ob'. pose proof hoare_phases as Hph.
      intros c [-> Hc]. specialize (Hph c Hc). fold ob.
      destruct (accounts_cum ob), (accounts_noncum ob); try done.
      by apply (spec_abort db I E HS).
Qed.

End ScriptSpec.

Section Invariant.

Variable db : database.
Variable I : conn -> Prop.
Hypothesis HI : script_invariant db I.

Lemma inv_insert_rows rows c :
  Forall (script_row db) rows -> I c ->
  I (set_working (insert_rows rows (working c)) c).
Proof.
  intros Hrows. revert c. unfold insert_rows.
  induction Hrows as [|r rows Hr _ IH]; intros c Hc; simpl.
  - by rewrite set_working_id.
  - apply (IH (set_working (insert_row (working c) r) c)).
    by apply (inv_insert db I HI).
Qed.

Lemma preserves_upsert rows :
  Forall (script_row db) rows -> preserves I (upsert_monthly_rows rows).
Proof.
  intros Hrows. destruct rows as [|r0 rows0]; [by intros c Hc|].
  set (rows := r0 :: rows0) in *. unfold upsert_monthly_rows. fold rows.
  destruct HI as [Hadv Hcommit Hrollback Hins].
  eapply hoare_try_except with (E1 := fun _ => I); [| |done].
  - eapply hoare_bind with (R := fun _ => I).
    { intros c Hc. unfold start_transaction, bind, execute.
      destruct (next_fault c); cbv beta iota; [by apply Hadv|].
      by apply Hcommit, Hadv. }
    intros []. eapply hoare_bind with (R := fun _ => I).
    { intros c Hc. unfold execute_insert.
      destruct (next_fault c) as [k|].
      - apply (inv_insert_rows _ (advance _ c)); [by apply Forall_take|].
        by apply Hadv.
      - apply (inv_insert_rows _ (advance _ c)); [done|]. by apply Hadv. }
    intros []. eapply hoare_bind with (R := fun _ => I).
    { intros c Hc. unfold commit, bind, execute.
      destruct (next_fault c); cbv beta iota; [by apply Hadv|].
      by apply Hcommit, Hadv. }
    intros []. by intros c Hc.
  - eapply hoare_bind with (R := fun _ => I).
    { intros c Hc. unfold rollback, bind, execute.
      destruct (next_fault c); cbv beta iota; [by apply Hadv|].
      by apply Hrollback, Hadv. }
    intros []. by intros c Hc.
Qed.

Lemma whole_batch_rows rows :
  whole_batch db rows -> Forall (script_row db) rows.
Proof.
  intros (m & v & Hm & [->| ->]); apply Forall_forall;
    intros r (acct & -> & Hacct)%elem_of_map; exists m, (v acct), acct; auto.
Qed.

Lemma script_invariant_spec : script_spec db I (fun _ => I).
Proof.
  split; [|done|].
  { intros s c Hs. apply (inv_advance db I HI). by destruct s. }
  intros rows Hrows. by apply preserves_upsert, whole_batch_rows.
Qed.

Lemma preserves_main : preserves I (main db).
Proof. apply hoare_main, script_invariant_spec. Qed.

End Invariant.

Lemma table_invariant (db : database) (P : monthly_table -> Prop) :
  (forall r t, script_row db r -> P t -> P (insert_row t r)) ->
  script_invariant db (fun c => P (committed c) /\ P (working c)).
Proof.
  intros Hins. split.
  - by intros s c _ [? ?].
  - by intros c [? ?].
  - by intros c [? ?].
  - intros r c Hr [? ?]. split; [done|]. by apply Hins.
Qed.

(** Whatever fails during a run, a property of [monthly_balance] that the
    script's upserts keep holds of the table afterwards. *)
Lemma run_table_invariant (db : database) (P : monthly_table -> Prop)
    (t : monthly_table) (fs : list (option nat)) :
  (forall r t, script_row db r -> P t -> P (insert_row t r)) ->
  P t -> P (run db t fs).2.
Proof.
  intros Hins Ht. unfold run.
  pose proof (preserves_main db _ (table_invariant db P Hins)
                (connect t fs) (conj Ht Ht)) as H.
  destruct (main db (connect t fs)) as [[[]| |] c']; by destruct H.
Qed.

Lemma log_invariant (db : database) :
  script_invariant db (fun c => Forall script_stmt (log c)).
Proof.
  split; try done.
  intros s c Hs Hc. simpl. apply Forall_app. split; [done|].
  by apply Forall_singleton.
Qed.

(** ** Marker vouchers *)

Lemma filter_without {X} (f : X -> bool) (pre post : list X) x :
  f x = false ->
  List.filter f (pre ++ x :: post) = List.filter f (pre ++ post).
Proof. intros Hx. rewrite !List.filter_app. simpl. by rewrite Hx. Qed.

Lemma marker_filtered v : Spec.is_marker v -> Sql.not_marker v = false.
Proof.
  intros Hv. destruct (Sql.not_marker v) eqn:E; [|done].
  by apply not_marker_spec in E.
Qed.

Lemma voucher_sum_q_without pre post tx acct ym :
  Spec.is_marker (voucher tx) ->
  voucher_sum_q (pre ++ tx :: post) acct ym =
    voucher_sum_q (pre ++ post) acct ym.
Proof.
  intros Hm. unfold voucher_sum_q. rewrite filter_without; [done|].
  rewrite marker_filtered by done. apply andb_false_r.
Qed.

Lemma voucher_amounts_q_without pre post tx accts ym :
  Spec.is_marker (voucher tx) ->
  voucher_amounts_q (pre ++ tx :: post) accts ym =
    voucher_amounts_q (pre ++ post) accts ym.
Proof.
  intros Hm. unfold voucher_amounts_q. rewrite filter_without; [done|].
  rewrite marker_filtered by done. apply andb_false_r.
Qed.

(** C5. A transaction whose voucher tag is BRTFWD, ROLCLR or OBTFER
    contributes nothing to the monthly sums the script computes, whatever
    its amount: with the transaction [tx] in a voucher table or without
    it, the per-account sum of the cumulative loop and the grouped sums
    of [fetch_voucher_amounts_for_month] are the same, and so is every
    run of the script, in either voucher table. *)
Theorem C5_marker_vouchers_contribute_nothing (db : database)
    (pre post : list voucher_row) (tx : voucher_row) :
  Spec.is_marker (voucher tx) ->
  (forall acct ym,
     voucher_sum_q (pre ++ tx :: post) acct ym =
       voucher_sum_q (pre ++ post) acct ym) /\
  (forall accts ym,
     voucher_amounts_q (pre ++ tx :: post) accts ym =
       voucher_amounts_q (pre ++ post) accts ym) /\
  (forall (t : monthly_table) fs,
     run (with_vouchers (pre ++ tx :: post) db) t fs =
       run (with_vouchers (pre ++ post) db) t fs) /\
  (forall (t : monthly_table) fs,
     run (with_vouchers_curr_month (pre ++ tx :: post) db) t fs =
       run (with_vouchers_curr_month (pre ++ post) db) t fs).
Proof.
  intros Hm. repeat split.
  - intros. by apply voucher_sum_q_without.
  - intros. by apply voucher_amounts_q_without.
  - intros t fs. apply run_ext; try done.
    + intros m acct ym. unfold voucher_table. simpl.
      destruct (PyStr.le m "2025-07"); [|done].
      by apply voucher_sum_q_without.
    + intros m accts ym. unfold voucher_table. simpl.
      destruct (PyStr.le m "2025-07"); [|done].
      by apply voucher_amounts_q_without.
  - intros t fs. apply run_ext; try done.
    + intros m acct ym. unfold voucher_table. simpl.
      destruct (PyStr.le m "2025-07"); [done|].
      by apply voucher_sum_q_without.
    + intros m accts ym. unfold voucher_table. simpl.
      destruct (PyStr.le m "2025-07"); [done|].
      by apply voucher_amounts_q_without.
Qed.

(** ** The historical table *)

Lemma run_log_script_stmt (db : database) (t : monthly_table)
    (fs : list (option nat)) :
  Forall script_stmt (log (main db (connect t fs)).2).
Proof.
  pose proof (preserves_main _ _ (log_invariant db) (connect t fs)
                (Forall_nil_2 _)) as H.
  by destruct (main db (connect t fs)) as [[[]| |] c'].
Qed.

Lemma script_stmt_not_monthly s :
  script_stmt s -> s <> SelectFrom MONTHLY_TABLE.
Proof. intros Hs ->. by destruct Hs as [?|[?|?]]. Qed.

Lemma script_stmt_not_historical s :
  script_stmt s -> s <> SelectFrom HISTORICAL_TABLE.
Proof. intros Hs ->. by destruct Hs as [?|[?|?]]. Qed.

(** C1. For a cumulative account [a] and the month [m] of index [i] in the
    window, the balance the cumulative loop writes for ([a], [m]) is the
    opening balance plus the sum, over months 0..i, of the account's
    monthly transaction sums with marker vouchers excluded, in the
    floating-point arithmetic of the script: the monthly sums are added
    up in month order from 0, and the total is added to the opening
    balance. When none of these additions rounds, the balance is the
    exact sum. The monthly sums are those of the rows of [vouchers] for
    the first seven months of the window, and of [vouchers_curr_month]
    for the last two. The balance is recomputed from the window start:
    the value does not depend on what [monthly_balance] held before (the
    connection [c], and the table [t], are arbitrary), and no statement
    of a run reads [monthly_balance]. When the account is not also an
    income/expense account, this is the balance the table holds after
    the run. *)
Theorem C1_cumulative_balance_resummed (db : database) (a m : string)
    (i : nat) :
  a ∈ accounts_cum (opening_balance db) ->
  MONTHS !! i = Some m ->
  (forall c, faults c = [] -> committed c = working c ->
     exists c',
       cumulative_phase db (opening_balance db) c = (Ok tt, c') /\
       mb_opening_balance <$> committed c' !! (a, m) =
         Some (Some (Spec.cumulative_balance db a i)) /\
       (Spec.cumulative_exact db a i ->
        mb_opening_balance <$> committed c' !! (a, m) =
          Some (Some (PyFloat.of_Z (Spec.exact_cumulative db a i))))) /\
  (forall t : monthly_table,
     tables_ok db = true ->
     a ∉ accounts_noncum (opening_balance db) ->
     mb_opening_balance <$> (run_ok db t).2 !! (a, m) =
       Some (Some (Spec.cumulative_balance db a i)) /\
     (Spec.cumulative_exact db a i ->
      mb_opening_balance <$> (run_ok db t).2 !! (a, m) =
        Some (Some (PyFloat.of_Z (Spec.exact_cumulative db a i))))) /\
  (forall (j : nat) (mj : string),
     MONTHS !! j = Some mj ->
     Spec.month_activity db a mj =
       Spec.sumZ
         (map amount_original
            (filter (fun r => account_code r = a /\ Spec.dated_in mj r /\
                              ~ Spec.is_marker (voucher r))
                    (if decide (j < 7)%nat then vouchers db
                     else vouchers_curr_month db)))) /\
  (forall (t : monthly_table) fs,
     Forall (fun s => s <> SelectFrom MONTHLY_TABLE)
       (log (main db (connect t fs)).2)).
Proof.
  intros Ha Hi. split; [|split; [|split]]; cycle 3.
  { intros t fs. eapply Forall_impl; [apply run_log_script_stmt|].
    apply script_stmt_not_monthly. }
  3: { intros j mj Hj. by apply month_activity_table. }
  - intros c Hf Hs.
    destruct (quietly_cumulative_phase db c Hf Hs) as (c' & E & _ & Hs' & Hw).
    exists c'. split; [done|]. rewrite Hs', Hw.
    rewrite (after_cumulative_balance db _ a m i) by done.
    split; [done|]. intros Hx. by rewrite cumulative_balance_exact.
  - intros t Hok Hn. rewrite run_ok_eq, Hok. simpl.
    assert (mb_opening_balance <$> after_run db t !! (a, m) =
              Some (Some (Spec.cumulative_balance db a i))) as Hrun.
    { unfold after_run. rewrite apply_batches_concat, insert_rows_lookup.
      rewrite cell_after_frame; [by apply after_cumulative_balance|].
      intros r (l & (mj & -> & _)%elem_of_map & Hr)%elem_of_concat.
      apply elem_of_map in Hr as (acct & -> & Hacct).
      intros [= -> _]. done. }
    split; [done|]. intros Hx. by rewrite Hrun, cumulative_balance_exact.
Qed.

(** C10. Two runs over inputs that differ only in the contents of
    [historical_variance] (same fault script, same stored table) end with
    the same exit status and the same [monthly_balance]; every SELECT a
    run sends is against the schema catalogue, [opening_balance] or one of
    the two voucher tables, so none reads [historical_variance]: the
    deltas of both policy groups come from the voucher tables. *)
Theorem C10_historical_table_irrelevant (db : database)
    (h1 h2 : list historical_row) (t : monthly_table)
    (fs : list (option nat)) :
  run (with_historical h1 db) t fs = run (with_historical h2 db) t fs /\
  Forall script_stmt (log (main (with_historical h1 db) (connect t fs)).2) /\
  Forall (fun s => s <> SelectFrom HISTORICAL_TABLE)
    (log (main (with_historical h1 db) (connect t fs)).2).
Proof.
  pose proof (run_log_script_stmt (with_historical h1 db) t fs) as Hlog.
  split; [by apply run_ext|]. split; [done|].
  eapply Forall_impl; [exact Hlog|]. apply script_stmt_not_historical.
Qed.

(** ** The writer *)

Lemma on_duplicate_key_update_blank old r :
  on_duplicate_key_update old r =
    {| mb_opening_balance := Some (p_balance r);
       mb_description :=
         if is_blank (mb_description old) then p_description r
         else mb_description old;
       mb_account_type :=
         if is_blank (mb_account_type old) then p_account_type r
         else mb_account_type old |}.
Proof.
  unfold on_duplicate_key_update. f_equal.
  - destruct (mb_description old) as [s|]; [|done]. simpl.
    by destruct (String.eqb s "").
  - destruct (mb_account_type old) as [s|]; [|done]. simpl.
    by destruct (String.eqb s "").
Qed.

Lemma keeps_metadata_insert_row (k : string * string) (row : monthly_row)
    (t : monthly_table) (r : param_row) :
  keeps_metadata k row t -> keeps_metadata k row (insert_row t r).
Proof.
  intros (row' & Hk & Hd & Ht). unfold keeps_metadata.
  rewrite insert_row_lookup. case_decide as E; [|by exists row'].
  rewrite Hk. simpl. rewrite on_duplicate_key_update_blank.
  eexists. split; [done|]. simpl. split.
  - intros Hb. rewrite Hd by done. by rewrite Hb.
  - intros Hb. rewrite Ht by done. by rewrite Hb.
Qed.

(** C6. An upsert that meets a stored row overwrites its balance with the
    incoming value, and replaces its description and its account type by
    the incoming ones exactly when the stored text is NULL or empty; an
    upsert that meets no row stores the incoming values. Consequently a
    stored row keeps a non-empty description or account type through any
    run of the script, whatever fails during it. *)
Theorem C6_upsert_overwrites_balance_keeps_metadata :
  (forall (t : monthly_table) (r : param_row) (old : monthly_row),
     t !! row_key r = Some old ->
     insert_row t r !! row_key r =
       Some {| mb_opening_balance := Some (p_balance r);
               mb_description :=
                 if is_blank (mb_description old) then p_description r
                 else mb_description old;
               mb_account_type :=
                 if is_blank (mb_account_type old) then p_account_type r
                 else mb_account_type old |}) /\
  (forall (t : monthly_table) (r : param_row),
     t !! row_key r = None ->
     insert_row t r !! row_key r =
       Some {| mb_opening_balance := Some (p_balance r);
               mb_description := p_description r;
               mb_account_type := p_account_type r |}) /\
  (forall (db : database) (t : monthly_table) (fs : list (option nat))
          (k : string * string) (row : monthly_row),
     t !! k = Some row ->
     exists row',
       (run db t fs).2 !! k = Some row' /\
       (is_blank (mb_description row) = false ->
        mb_description row' = mb_description row) /\
       (is_blank (mb_account_type row) = false ->
        mb_account_type row' = mb_account_type row)).
Proof.
  split; [|split].
  - intros t r old Hold. rewrite insert_row_lookup, decide_True by done.
    rewrite Hold. simpl. by rewrite on_duplicate_key_update_blank.
  - intros t r Hnone. rewrite insert_row_lookup, decide_True by done.
    by rewrite Hnone.
  - intros db t fs k row Hk.
    apply (run_table_invariant db (keeps_metadata k row)).
    + intros r t' _. apply keeps_metadata_insert_row.
    + by exists row.
Qed.

(** How a call of the writer can end, from a connection with no open
    transaction. *)
Lemma upsert_outcome (rows : list param_row) (c : conn) :
  synced c ->
  match upsert_monthly_rows rows c with
  | (Ok n, c') =>
      n = length rows /\ synced c' /\
      committed c' = insert_rows rows (committed c)
  | (SysExit code, c') =>
      code = 5 /\ synced c' /\ committed c' = committed c
  | (Raised, c') => committed c' = committed c
  end.
Proof.
  unfold synced. destruct c as [fs lg cm wk]. simpl. intros ->.
  destruct rows as [|r rows]; [done|].
  unfold upsert_monthly_rows, try_except, bind, start_transaction,
    execute_insert, commit, rollback, execute, next_fault.
  destruct fs as [|[k1|] fs]; simpl.
  - done.
  - by destruct fs as [|[k2|] fs].
  - destruct fs as [|[k2|] fs]; simpl; [done| |].
    + by destruct fs as [|[k3|] fs].
    + destruct fs as [|[k3|] fs]; simpl; [done| |done].
      by destruct fs as [|[k4|] fs].
Qed.








(** ** Running the script again *)

Lemma fill_nonblank d ns : is_blank d = false -> foldl fill d ns = d.
Proof.
  intros Hd. induction ns as [|n ns IH]; [done|]. simpl.
  unfold fill at 2. by rewrite Hd.
Qed.

Lemma fill_blank_start d d' ns :
  is_blank d = true -> is_blank d' = true -> ns <> [] ->
  foldl fill d ns = foldl fill d' ns.
Proof.
  intros Hd Hd' Hns. destruct ns as [|n ns]; [done|]. simpl.
  unfold fill at 2 4. by rewrite Hd, Hd'.
Qed.

Lemma foldl_fill_idem d ns :
  foldl fill (foldl fill d ns) ns = foldl fill d ns.
Proof.
  destruct (is_blank (foldl fill d ns)) eqn:E.
  - destruct ns as [|n ns]; [done|].
    apply fill_blank_start; [done| |done].
    destruct (is_blank d) eqn:Ed; [done|].
    by rewrite fill_nonblank, Ed in E.
  - by apply fill_nonblank.
Qed.

Lemma upsert_cell_fields o r :
  upsert_cell o r =
    {| mb_opening_balance := Some (p_balance r);
       mb_description := fill (o ≫= mb_description) (p_description r);
       mb_account_type := fill (o ≫= mb_account_type) (p_account_type r) |}.
Proof.
  destruct o as [old|]; simpl; [|done].
  apply on_duplicate_key_update_blank.
Qed.

Lemma cell_after_cell_of k rows o :
  cell_after k rows o = cell_of o (filter (fun r => row_key r = k) rows).
Proof.
  induction rows as [|x rows IH] using rev_ind.
  - by destruct o.
  - rewrite cell_after_app, IH, filter_app, filter_cons, filter_nil.
    unfold cell_after at 1. simpl. case_decide as E.
    + set (rs := filter (fun r => row_key r = k) rows).
      unfold cell_of at 2. rewrite last_snoc, !map_app, !foldl_app. simpl.
      rewrite upsert_cell_fields. unfold cell_of.
      destruct (last rs) eqn:El; [done|].
      apply last_None in El. by rewrite El.
    + by rewrite app_nil_r.
Qed.

Lemma cell_of_idem o rs : cell_of (cell_of o rs) rs = cell_of o rs.
Proof.
  unfold cell_of. destruct (last rs) as [r|]; [|done]. simpl.
  by rewrite !foldl_fill_idem.
Qed.

(** Any sequence of upserts, applied twice, gives what it gives once. *)
Lemma insert_rows_idem (rows : list param_row) (t : monthly_table) :
  insert_rows rows (insert_rows rows t) = insert_rows rows t.
Proof.
  apply map_eq. intros k.
  by rewrite !insert_rows_lookup, !cell_after_cell_of, cell_of_idem.
Qed.

Lemma after_run_concat (db : database) (t : monthly_table) :
  after_run db t =
    insert_rows
      (concat (map (cumulative_batch db) (imap pair MONTHS)) ++
       concat (map (noncumulative_batch db) MONTHS)) t.
Proof.
  unfold after_run, after_cumulative, insert_rows.
  by rewrite !apply_batches_concat, foldl_app.
Qed.

(** C9. A second run without faults over unchanged input tables leaves
    [monthly_balance] exactly as the first run left it (every balance,
    description and account type), and ends with the same exit status. *)
Theorem C9_second_run_changes_nothing (db : database) (t : monthly_table) :
  run_ok db (run_ok db t).2 = run_ok db t.
Proof.
  rewrite !run_ok_eq. destruct (tables_ok db); [|done]. simpl.
  by rewrite !after_run_concat, insert_rows_idem.
Qed.

(** ** Classification *)

Lemma elem_of_accounts_cum ob a :
  a ∈ accounts_cum ob <->
  exists r, r ∈ ob /\ ob_account r = a /\ mask_cum r = true.
Proof.
  unfold accounts_cum. rewrite elem_of_map. split.
  - intros (r & -> & Hr). apply list_elem_of_In, filter_In in Hr as [Hr Hm].
    exists r. by rewrite <- list_elem_of_In in Hr.
  - intros (r & Hr & <- & Hm). exists r. split; [done|].
    apply list_elem_of_In, filter_In. by rewrite <- list_elem_of_In.
Qed.

Lemma elem_of_accounts_noncum ob a :
  a ∈ accounts_noncum ob <->
  exists r, r ∈ ob /\ ob_account r = a /\ mask_noncum r = true.
Proof.
  unfold accounts_noncum. rewrite elem_of_map. split.
  - intros (r & -> & Hr). apply list_elem_of_In, filter_In in Hr as [Hr Hm].
    exists r. by rewrite <- list_elem_of_In in Hr.
  - intros (r & Hr & <- & Hm). exists r. split; [done|].
    apply list_elem_of_In, filter_In. by rewrite <- list_elem_of_In.
Qed.

Lemma script_row_account db r :
  script_row db r ->
  p_account r ∈ accounts_cum (opening_balance db) \/
  p_account r ∈ accounts_noncum (opening_balance db).
Proof. by intros (m & vmap & acct & -> & _ & H). Qed.

(** C3, as the script has it. The two keyword tests classify each row of
    the snapshot independently: the row's account is in the cumulative
    group when its label contains asset or liab, and in the periodic
    group when it contains income or expens. An account whose label
    matches both is in both groups; the cumulative loop writes its rows
    first and the periodic loop then overwrites their balances, so after
    a run without faults it holds the periodic balance (balances are
    floating-point sums; the account codes of the periodic group are
    taken to hold no backslash and no colon). An account none
    of whose rows matches is in neither group: no run writes or changes a
    row of it, and it does not make the run fail. *)
Theorem C3_groups_classified_independently (db : database)
    (r : opening_row) :
  r ∈ opening_balance db ->
  (mask_cum r = true -> ob_account r ∈ accounts_cum (opening_balance db)) /\
  (mask_noncum r = true ->
   ob_account r ∈ accounts_noncum (opening_balance db)) /\
  (mask_cum r = true -> mask_noncum r = true ->
   Forall SqlText.plain (accounts_noncum (opening_balance db)) ->
   ob_account r ∈ accounts_cum (opening_balance db) /\
   ob_account r ∈ accounts_noncum (opening_balance db) /\
   (forall c m i,
      faults c = [] -> synced c -> MONTHS !! i = Some m ->
      exists c1 c2,
        cumulative_phase db (opening_balance db) c = (Ok tt, c1) /\
        mb_opening_balance <$> committed c1 !! (ob_account r, m) =
          Some (Some (Spec.cumulative_balance db (ob_account r) i)) /\
        noncumulative_phase db (opening_balance db) c1 = (Ok tt, c2) /\
        mb_opening_balance <$> committed c2 !! (ob_account r, m) =
          Some (Some (Spec.periodic_balance db (ob_account r) m))) /\
   (forall (t : monthly_table) m,
      tables_ok db = true -> m ∈ MONTHS ->
      mb_opening_balance <$> (run_ok db t).2 !! (ob_account r, m) =
        Some (Some (Spec.periodic_balance db (ob_account r) m)))) /\
  ((forall r', r' ∈ opening_balance db -> ob_account r' = ob_account r ->
               mask_cum r' = false /\ mask_noncum r' = false) ->
   (ob_account r ∉ accounts_cum (opening_balance db)) /\
   (ob_account r ∉ accounts_noncum (opening_balance db)) /\
   (forall (t : monthly_table) fs m,
      (run db t fs).2 !! (ob_account r, m) = t !! (ob_account r, m)) /\
   (forall t : monthly_table,
      tables_ok db = true -> (run_ok db t).1 = 0)).
Proof.
  intros Hr.
  assert (mask_cum r = true -> ob_account r ∈ accounts_cum (opening_balance db))
    as Hc by (intros; apply elem_of_accounts_cum; by exists r).
  assert (mask_noncum r = true ->
          ob_account r ∈ accounts_noncum (opening_balance db))
    as Hn by (intros; apply elem_of_accounts_noncum; by exists r).
  repeat split; auto.
  - intros c m i Hf Hs Hi.
    destruct (quietly_cumulative_phase db c Hf Hs)
      as (c1 & E1 & Hf1 & Hs1 & Hw1).
    destruct (quietly_noncumulative_phase db c1 Hf1 Hs1)
      as (c2 & E2 & _ & Hs2 & Hw2).
    exists c1, c2. repeat split; [done| |done|].
    + rewrite Hs1, Hw1. by apply after_cumulative_balance; auto.
    + apply list_elem_of_lookup_2 in Hi.
      rewrite Hs2, Hw2, noncumulative_batches_balance by auto.
      by rewrite periodic_stored_plain by auto.
  - intros t m Hok Hm. rewrite run_ok_eq, Hok. cbn [snd].
    rewrite after_run_noncum_balance by auto.
    by rewrite periodic_stored_plain by auto.
  - intros (r' & Hr' & E & Hm)%elem_of_accounts_cum.
    destruct (H r' Hr' E) as [Hm' _]. by rewrite Hm in Hm'.
  - intros (r' & Hr' & E & Hm)%elem_of_accounts_noncum.
    destruct (H r' Hr' E) as [_ Hm']. by rewrite Hm in Hm'.
  - intros t fs m.
    apply (run_table_invariant db
             (fun t' => t' !! (ob_account r, m) = t !! (ob_account r, m)));
      [|done].
    intros p t' Hp Ht'. rewrite insert_row_lookup, decide_False; [done|].
    intros [= E _].
    destruct (script_row_account db p Hp)
      as [(r' & Hr' & E' & Hm')%elem_of_accounts_cum
         |(r' & Hr' & E' & Hm')%elem_of_accounts_noncum].
    + destruct (H r' Hr') as [Hm'' _]; [congruence|]. by rewrite Hm' in Hm''.
    + destruct (H r' Hr') as [_ Hm'']; [congruence|]. by rewrite Hm' in Hm''.
  - intros t Hok. by rewrite run_ok_eq, Hok.
Qed.

(** ** The historical reader *)

Lemma historical_q_get0 col rows m accts a :
  a ∈ accts ->
  get0 (historical_q col rows m accts) a =
    default 0
      (last (filter (fun r => hv_account r = a /\ hv_month_key r = m) rows)
         ≫= col).
Proof.
  intros Ha. unfold get0, historical_q.
  rewrite (py_dict_lookup hv_account (fun r => Sql.COALESCE (col r) 0)).
  rewrite (List_filter_decide _
             (fun r => hv_month_key r = m /\ hv_account r ∈ accts)).
  - rewrite list_filter_filter.
    rewrite (list_filter_iff _
               (fun r => hv_account r = a /\ hv_month_key r = m)).
    + destruct (last _) as [r|]; [|done]. simpl. by destruct (col r).
    + intros r. split; [tauto|]. intros [<- ?]. done.
  - intros r. by rewrite andb_true_iff, String.eqb_eq, IN_true.
Qed.

Lemma archive_month_activity db a m :
  PyStr.le m "2025-07" = true ->
  Spec.month_activity db a m =
    Spec.sumZ
      (map amount_original
         (filter (fun r => account_code r = a /\ Spec.dated_in m r /\
                           ~ Spec.is_marker (voucher r))
                 (vouchers db))).
Proof.
  intros Hm. unfold Spec.month_activity, Spec.activity_rows, voucher_table.
  by rewrite Hm.
Qed.

(** C2, as the script has it. [fetch_historical_for_month], called for a
    month up to 2025-07 and for account codes without backslash or colon,
    when its query succeeds, returns for a requested account the smoothed
    amount ([use_smoothened]) or the journal amount (otherwise) that
    [historical_variance] records for that month. The loops of the script
    do not call it: for such a month of the window too, the delta they
    use is the month's sum over [vouchers], markers excluded; the
    periodic balance is the floating-point sum of the opening balance
    and of that sum (the account codes of the periodic group holding no
    backslash and no colon), and the cumulative balance that of the
    opening balance and of these sums added up from the window start. *)
Theorem C2_historical_reader_unused_by_loops (db : database) (m : string) :
  m ∈ MONTHS ->
  PyStr.le m "2025-07" = true ->
  (forall accts a (use_smoothened : bool) c,
     Forall SqlText.plain accts ->
     a ∈ accts -> next_fault c = None ->
     exists d,
       fetch_historical_for_month db m accts use_smoothened c =
         (Ok d, advance (SelectFrom HISTORICAL_TABLE) c) /\
       get0 d a =
         Spec.historical_amount
           (if use_smoothened then smoothened_amount else journal_amount)
           db a m) /\
  (forall a,
     Spec.month_activity db a m =
       Spec.sumZ
         (map amount_original
            (filter (fun r => account_code r = a /\ Spec.dated_in m r /\
                              ~ Spec.is_marker (voucher r))
                    (vouchers db)))) /\
  (forall a (t : monthly_table),
     tables_ok db = true -> a ∈ accounts_noncum (opening_balance db) ->
     Forall SqlText.plain (accounts_noncum (opening_balance db)) ->
     mb_opening_balance <$> (run_ok db t).2 !! (a, m) =
       Some (Some (PrimFloat.add
                     (PyFloat.of_Z (Spec.opening_of db a))
                     (PyFloat.of_Z (Spec.month_activity db a m))))) /\
  (forall a i (t : monthly_table),
     tables_ok db = true -> MONTHS !! i = Some m ->
     a ∈ accounts_cum (opening_balance db) ->
     a ∉ accounts_noncum (opening_balance db) ->
     mb_opening_balance <$> (run_ok db t).2 !! (a, m) =
       Some (Some (PrimFloat.add
                     (PyFloat.of_Z (Spec.opening_of db a))
                     (Spec.float_sum
                        (map (Spec.month_activity db a)
                             (take (S i) MONTHS)))))).
Proof.
  intros Hm Hle. repeat split.
  - intros accts a smooth c Hp Ha Hf.
    assert (accts <> []) as Hne by (intros E; rewrite E in Ha; inversion Ha).
    unfold fetch_historical_for_month, try_except, query_in.
    rewrite Hle, (parse_in_list_plain accts Hne Hp).
    unfold Spec.historical_amount.
    destruct smooth; cbn [andb negb]; unfold query, bind, execute;
      rewrite Hf; eexists; (split; [done|]); by apply historical_q_get0.
  - intros a. by apply archive_month_activity.
  - intros a t Hok Ha Hp. rewrite run_ok_eq, Hok. cbn [snd].
    rewrite after_run_noncum_balance by done.
    by rewrite periodic_stored_plain.
  - intros a i t Hok Hi Ha Hn.
    rewrite run_ok_eq, Hok. cbn [snd].
    unfold after_run. rewrite apply_batches_concat, insert_rows_lookup.
    rewrite cell_after_frame; [by apply after_cumulative_balance|].
    intros r (l & (mj & -> & _)%elem_of_map & Hr)%elem_of_concat.
    apply elem_of_map in Hr as (acct & -> & Hacct).
    intros [= -> _]. done.
Qed.

(** ** Failures that end the run, failures that do not *)

Section Strict.

Lemma strict_ret {A} (a : A) : strict (ret a).
Proof. intros c. exists []. simpl. by rewrite app_nil_r. Qed.

Lemma strict_raise {A} : strict (@raise A).
Proof. intros c. exists []. simpl. by rewrite app_nil_r. Qed.

Lemma strict_bind {A B} (m : py A) (k : A -> py B) :
  strict m -> (forall a, strict (k a)) -> strict (bind m k).
Proof.
  intros Hm Hk c. destruct (Hm c) as (s1 & Hl1 & Hf1 & Hr1).
  unfold bind. destruct (m c) as [[a| |] c1]; simpl in *;
    [|by exists s1|by exists s1].
  destruct (Hk a c1) as (s2 & Hl2 & Hf2 & Hr2).
  exists (s1 ++ s2)%list. destruct (k a c1) as [r c2]. simpl in *.
  rewrite Hl2, Hl1, Hf2, Hf1, drop_drop, length_app, app_assoc.
  repeat split. destruct r as [b| |]; [|done|done].
  rewrite <- take_take_drop. apply Forall_app. by rewrite <- Hf1.
Qed.

Lemma strict_for_fold {A B} (l : list A) (f : B -> A -> py B) (b : B) :
  (forall b x, strict (f b x)) -> strict (for_fold l f b).
Proof.
  intros Hf. revert b. induction l as [|x l IH]; intros b; simpl.
  - apply strict_ret.
  - apply strict_bind; [apply Hf|]. intros b'. apply IH.
Qed.

Lemma strict_for_each {A} (l : list A) (body : A -> py unit) :
  (forall x, strict (body x)) -> strict (for_each l body).
Proof.
  intros Hf. induction l as [|x l IH]; simpl.
  - apply strict_ret.
  - apply strict_bind; [apply Hf|]. by intros [].
Qed.

Lemma strict_execute (s : stmt) : strict (execute s).
Proof.
  intros [fs lg cm wk]. exists [s]. unfold execute, next_fault.
  destruct fs as [|[k|] fs]; simpl; repeat split; auto.
Qed.

Lemma strict_query {A} table (answer : A) : strict (query table answer).
Proof.
  unfold query. apply strict_bind; [apply strict_execute|].
  intros []. apply strict_ret.
Qed.

Lemma strict_parse m : strict (parse_month_key m).
Proof.
  unfold parse_month_key.
  destruct (year_month m); [apply strict_ret|apply strict_raise].
Qed.

Local Ltac sent stmts :=
  exists stmts; rewrite <- ?app_assoc; simpl; repeat split;
  first [done|by repeat constructor].

Lemma strict_upsert rows : strict (upsert_monthly_rows rows).
Proof.
  destruct rows as [|r rows]; [apply strict_ret|].
  intros [fs lg cm wk].
  unfold upsert_monthly_rows, try_except, bind, start_transaction,
    execute_insert, commit, rollback, execute, next_fault.
  destruct fs as [|[k1|] fs]; simpl.
  - sent [StartTransaction; InsertInto MONTHLY_TABLE (S (length rows));
          Commit].
  - destruct fs as [|[k2|] fs]; simpl; sent [StartTransaction; Rollback].
  - destruct fs as [|[k2|] fs]; simpl.
    + sent [StartTransaction; InsertInto MONTHLY_TABLE (S (length rows));
            Commit].
    + destruct fs as [|[k3|] fs]; simpl;
        sent [StartTransaction;
              InsertInto MONTHLY_TABLE (S (length rows)); Rollback].
    + destruct fs as [|[k3|] fs]; simpl.
      * sent [StartTransaction;
              InsertInto MONTHLY_TABLE (S (length rows)); Commit].
      * destruct fs as [|[k4|] fs]; simpl;
          sent [StartTransaction;
                InsertInto MONTHLY_TABLE (S (length rows)); Commit;
                Rollback].
      * sent [StartTransaction;
              InsertInto MONTHLY_TABLE (S (length rows)); Commit].
Qed.

Lemma strict_cumulative_phase db ob : strict (cumulative_phase db ob).
Proof.
  unfold cumulative_phase. destruct (accounts_cum ob); [apply strict_ret|].
  apply strict_for_each. intros im. unfold process_cumulative.
  apply strict_bind.
  - apply strict_for_fold. intros cmap acct.
    apply strict_bind; [|intros; apply strict_ret].
    apply strict_for_fold. intros total m. unfold add_month_sum.
    apply strict_bind; [apply strict_parse|]. intros ym.
    apply strict_bind; [apply strict_query|]. intros; apply strict_ret.
  - intros cmap. apply strict_bind; [apply strict_upsert|].
    intros; apply strict_ret.
Qed.

End Strict.

Lemma month_in_window_parses m :
  m ∈ MONTHS -> year_month m = Some (ym_of m).
Proof. apply (proj1 (Forall_forall _ _) months_parse). Qed.

Lemma fetch_voucher_amounts_fault db m accts c k :
  m ∈ MONTHS -> next_fault c = Some k ->
  fetch_voucher_amounts_for_month db m accts c =
    (Ok ∅, advance (SelectFrom (voucher_table_name m)) c).
Proof.
  intros Hm Hf.
  unfold fetch_voucher_amounts_for_month, try_except, bind, parse_month_key.
  rewrite (month_in_window_parses m Hm). simpl.
  unfold query_in.
  destruct (SqlText.parse_in_list _);
    unfold query, bind, execute; by rewrite Hf.
Qed.

Lemma fetch_historical_fault db m accts smooth c k :
  PyStr.le m "2025-07" = true \/ m = "2025-08" ->
  next_fault c = Some k ->
  exists c', fetch_historical_for_month db m accts smooth c = (SysExit 3, c').
Proof.
  intros Hm Hf. unfold fetch_historical_for_month, try_except.
  destruct Hm as [Hle| ->].
  - rewrite Hle. unfold query_in.
    destruct (SqlText.parse_in_list _);
      destruct smooth; cbn [andb negb]; unfold query, bind, execute;
      rewrite Hf; by eexists.
  - change (PyStr.le "2025-08" "2025-07") with false.
    change (String.eqb "2025-08" "2025-08") with true. unfold query_in.
    destruct (SqlText.parse_in_list _);
      destruct smooth; cbn [andb negb]; unfold query, bind, execute;
      rewrite Hf; by eexists.
Qed.

Lemma add_month_sum_fault db acct total m c k :
  m ∈ MONTHS -> next_fault c = Some k ->
  add_month_sum db acct total m c =
    (Raised, advance (SelectFrom (voucher_table_name m)) c).
Proof.
  intros Hm Hf. unfold add_month_sum, bind, parse_month_key.
  rewrite (month_in_window_parses m Hm). simpl.
  unfold query, bind, execute. by rewrite Hf.
Qed.

Lemma tables_ok_IN db t :
  tables_ok db = true -> t ∈ required_tables ->
  Sql.IN t (schema_tables db) = true.
Proof.
  unfold tables_ok. rewrite forallb_forall. intros H Ht.
  by apply H, list_elem_of_In.
Qed.

(** The connection once the pre-flight check and the read of
    [opening_balance] have succeeded. *)
Lemma main_after_preflight (db : database) (t : monthly_table)
    (fs : list (option nat)) :
  tables_ok db = true ->
  exists c,
    faults c = fs /\ committed c = t /\ working c = t /\
    main db (connect t (None :: None :: None :: None :: fs)) =
      match accounts_cum (opening_balance db),
            accounts_noncum (opening_balance db) with
      | [], [] => sys_exit 0
      | _, _ =>
          cumulative_phase db (opening_balance db);;;
          noncumulative_phase db (opening_balance db)
      end c.
Proof.
  intros Hok. eexists. split; [|split; [|split]]; cycle 3.
  - unfold main, validate_tables, required_tables, connect.
    unfold for_each, bind at 1 2 3 4 5 6 7, execute, next_fault, query. simpl.
    rewrite !(tables_ok_IN db) by (done || set_solver). simpl.
    unfold bind at 1, execute, next_fault. simpl. reflexivity.
  - done.
  - done.
  - done.
Qed.

(** C8. Query failures are not handled alike. A failing query of
    [fetch_voucher_amounts_for_month] yields the empty dict and the
    script goes on; a failing query of [fetch_historical_for_month] ends
    the run with status 3; a failing month sum of the cumulative loop
    raises an exception that nothing catches. The cumulative loop never
    swallows a failure: it completes only if no statement it sent failed,
    and otherwise the run ends with a non-zero status. At the level of
    runs: when the first month sum of the cumulative loop fails, the run
    ends with status 1 and [monthly_balance] unchanged; when the first
    fetch of the income/expense loop fails (and nothing else does), the
    run still ends with status 0. *)
Theorem C8_failures_fatal_or_swallowed (db : database) :
  (forall m accts c k,
     m ∈ MONTHS -> next_fault c = Some k ->
     fetch_voucher_amounts_for_month db m accts c =
       (Ok ∅, advance (SelectFrom (voucher_table_name m)) c)) /\
  (forall m accts smooth c k,
     PyStr.le m "2025-07" = true \/ m = "2025-08" ->
     next_fault c = Some k ->
     exists c',
       fetch_historical_for_month db m accts smooth c = (SysExit 3, c') /\
       exit_status (@SysExit unit 3) <> 0) /\
  (forall acct total m c k,
     m ∈ MONTHS -> next_fault c = Some k ->
     add_month_sum db acct total m c =
       (Raised, advance (SelectFrom (voucher_table_name m)) c) /\
     exit_status (@Raised unit) <> 0) /\
  strict (cumulative_phase db (opening_balance db)) /\
  (forall (t : monthly_table) k fs,
     tables_ok db = true -> accounts_cum (opening_balance db) <> [] ->
     run db t (None :: None :: None :: None :: Some k :: fs) = (1, t)) /\
  (forall (t : monthly_table) k,
     tables_ok db = true -> accounts_cum (opening_balance db) = [] ->
     accounts_noncum (opening_balance db) <> [] ->
     (run db t [None; None; None; None; Some k]).1 = 0).
Proof.
  split; [|split; [|split; [|split; [|split]]]].
  - intros m accts c k Hm Hf.
    by apply (fetch_voucher_amounts_fault db m accts c k).
  - intros m accts smooth c k Hm Hf.
    destruct (fetch_historical_fault db m accts smooth c k Hm Hf) as [c' E].
    by exists c'.
  - intros acct total m c k Hm Hf.
    split; [by apply (add_month_sum_fault db acct total m c k)|done].
  - apply strict_cumulative_phase.
  - intros t k fs Hok Hcum. unfold run.
    destruct (main_after_preflight db t (Some k :: fs) Hok)
      as (c & Hf & Hc & Hw & ->).
    destruct (accounts_cum (opening_balance db)) as [|a l] eqn:Ea; [done|].
    assert (process_cumulative db (opening_balance db) (0%nat, "2025-01") c =
              (Raised, advance (SelectFrom "vouchers") c)) as Hp.
    { unfold process_cumulative, cumulative_voucher_map. rewrite Ea.
      cbn [for_fold take fst MONTHS]. unfold bind at 1 2 3 4.
      rewrite (add_month_sum_fault db a PrimFloat.zero "2025-01" c k);
        [done|set_solver|by unfold next_fault; rewrite Hf]. }
    unfold cumulative_phase. rewrite Ea.
    change (imap pair MONTHS)
      with ((0%nat, "2025-01") :: imap (pair ∘ S) (tail MONTHS)).
    cbn [for_each]. unfold bind at 1 2. rewrite Hp. simpl.
    by rewrite Hc.
  - intros t k Hok Hcum Hnon. unfold run.
    destruct (main_after_preflight db t [Some k] Hok)
      as (c & Hf & Hc & Hw & ->).
    rewrite Hcum.
    destruct (accounts_noncum (opening_balance db)) as [|a l] eqn:Ea;
      [done|].
    unfold cumulative_phase, noncumulative_phase. rewrite Hcum, Ea.
    unfold bind at 1. cbn [ret].
    change MONTHS with ("2025-01" :: tail MONTHS). cbn [for_each].
    unfold bind at 1. unfold process_noncumulative at 1. unfold bind at 1.
    rewrite (fetch_voucher_amounts_fault db "2025-01" _ c k);
      [|set_solver|by unfold next_fault; rewrite Hf].
    set (c1 := advance _ c).
    assert (faults c1 = []) as Hf1 by (unfold c1; simpl; by rewrite Hf).
    assert (synced c1) as Hs1 by (unfold c1, synced; simpl; congruence).
    match goal with
    | |- context [bind (upsert_monthly_rows ?rows) ?k c1] =>
        destruct (quietly_seq (upsert_monthly_rows rows) k _ (Ok tt) _ id _
                    (quietly_upsert rows) (quietly_ret tt) (fun _ => eq_refl)
                    c1 Hf1 Hs1)
          as (c2 & -> & Hf2 & Hs2 & _)
    end.
    destruct (quietly_for_each (tail MONTHS)
                (process_noncumulative db (opening_balance db))
                (fun m => insert_rows (noncumulative_batch db m))
                (fun m Hm => quietly_process_noncumulative db m
                               (list_elem_of_further _ _ _ Hm))
                c2 Hf2 Hs2)
      as (c3 & -> & _).
    done.
Qed.

(** ** The worked databases, checked *)

Lemma scenario_cumulative_group :
  "1000" ∈ accounts_cum (opening_balance scenario_db).
Proof. by apply (bool_decide_unpack _). Qed.

Lemma scenario_periodic_group :
  "4000" ∈ accounts_noncum (opening_balance scenario_db).
Proof. by apply (bool_decide_unpack _). Qed.

Lemma scenario_not_periodic :
  "1000" ∉ accounts_noncum (opening_balance scenario_db).
Proof. by apply (bool_decide_unpack _). Qed.

Lemma february_in_window : "2025-02" ∈ MONTHS.
Proof. by apply (bool_decide_unpack _). Qed.

Lemma january_in_window : "2025-01" ∈ MONTHS.
Proof. by apply (bool_decide_unpack _). Qed.

(** Two stored balances that evaluate to different floats. *)
Ltac stored_differs :=
  let H := fresh in
  vm_compute; intros [= H]; apply (f_equal FloatOps.Prim2SF) in H;
  vm_compute in H; discriminate H.

(** Account codes given by their text, none with a backslash or a
    colon. *)
Ltac plain_codes := repeat constructor; intros [=].

Lemma scenario_plain :
  Forall SqlText.plain (accounts_noncum (opening_balance scenario_db)).
Proof. plain_codes. Qed.

Lemma dual_plain :
  Forall SqlText.plain (accounts_noncum (opening_balance dual_db)).
Proof. plain_codes. Qed.

Lemma scenario_february_exact : Spec.cumulative_exact scenario_db "1000" 1.
Proof. vm_compute. repeat split. Qed.

(** The scenario of the specification: 1000 + 50 in January, and
    1000 + (50 - 20) in February, the carried-forward 9999 left out; no
    addition rounds. *)
Lemma C1_witness :
  "1000" ∈ accounts_cum (opening_balance scenario_db) /\
  MONTHS !! 1%nat = Some "2025-02" /\
  mb_opening_balance <$>
    (run_ok scenario_db (∅ : monthly_table)).2 !! ("1000", "2025-02") =
    Some (Some (PyFloat.of_Z 1030)).
Proof.
  split; [exact scenario_cumulative_group|]. split; [reflexivity|].
  destruct (C1_cumulative_balance_resummed scenario_db "1000" "2025-02" 1
              scenario_cumulative_group eq_refl) as (_ & H & _ & _).
  destruct (H ∅ eq_refl scenario_not_periodic) as [_ Hx].
  exact (Hx scenario_february_exact).
Defined.

(** January lies before the cutover, and [historical_variance] records a
    smoothed 70 for account 1000 and a journal amount of 5 for account
    4000; the script stores 1000 + 50 and 200 + 12, the sums of the
    vouchers. *)
Lemma C2_counterexample :
  "2025-01" ∈ MONTHS /\
  PyStr.le "2025-01" "2025-07" = true /\
  "1000" ∈ accounts_cum (opening_balance scenario_db) /\
  "4000" ∈ accounts_noncum (opening_balance scenario_db) /\
  mb_opening_balance <$>
    (run_ok scenario_db (∅ : monthly_table)).2 !! ("1000", "2025-01") <>
    Some (Some (PrimFloat.add
                  (PyFloat.of_Z (Spec.opening_of scenario_db "1000"))
                  (PyFloat.of_Z
                     (Spec.historical_amount smoothened_amount scenario_db
                        "1000" "2025-01")))) /\
  mb_opening_balance <$>
    (run_ok scenario_db (∅ : monthly_table)).2 !! ("4000", "2025-01") <>
    Some (Some (PrimFloat.add
                  (PyFloat.of_Z (Spec.opening_of scenario_db "4000"))
                  (PyFloat.of_Z
                     (Spec.historical_amount journal_amount scenario_db
                        "4000" "2025-01")))) /\
  mb_opening_balance <$>
    (run_ok scenario_db (∅ : monthly_table)).2 !! ("1000", "2025-01") =
    Some (Some (PyFloat.of_Z 1050)) /\
  mb_opening_balance <$>
    (run_ok scenario_db (∅ : monthly_table)).2 !! ("4000", "2025-01") =
    Some (Some (PyFloat.of_Z 212)).
Proof.
  split; [exact january_in_window|]. split; [reflexivity|].
  split; [exact scenario_cumulative_group|].
  split; [exact scenario_periodic_group|].
  split; [stored_differs|]. split; [stored_differs|].
  split; reflexivity.
Qed.

Lemma C2_witness :
  "2025-01" ∈ MONTHS /\
  PyStr.le "2025-01" "2025-07" = true /\
  (exists d,
     fetch_historical_for_month scenario_db "2025-01" ["1000"; "4000"] false
       (connect ∅ []) =
       (Ok d, advance (SelectFrom HISTORICAL_TABLE) (connect ∅ [])) /\
     get0 d "4000" = 5) /\
  mb_opening_balance <$>
    (run_ok scenario_db (∅ : monthly_table)).2 !! ("4000", "2025-01") =
    Some (Some (PyFloat.of_Z 212)).
Proof.
  split; [exact january_in_window|]. split; [reflexivity|].
  destruct (C2_historical_reader_unused_by_loops scenario_db "2025-01"
              january_in_window eq_refl) as (Hreader & _ & Hper & _).
  split.
  - apply (Hreader ["1000"; "4000"] "4000" false (connect ∅ []));
      [plain_codes|by apply (bool_decide_unpack _)|reflexivity].
  - exact (Hper "4000" ∅ eq_refl scenario_periodic_group scenario_plain).
Defined.

Lemma dual_row_in_snapshot :
  OpeningRow "1500" (Some 100) (Some "Fixed Asset - Rental Income")
    (Some "Property") ∈ opening_balance dual_db.
Proof. by left. Qed.

(** The account labelled Fixed Asset - Rental Income is in both groups;
    the periodic loop runs last, so February holds 100 + 5, not the
    cumulative 100 + 10 + 5. *)
Lemma C3_counterexample :
  "1500" ∈ accounts_cum (opening_balance dual_db) /\
  "1500" ∈ accounts_noncum (opening_balance dual_db) /\
  mb_opening_balance <$>
    (run_ok dual_db (∅ : monthly_table)).2 !! ("1500", "2025-02") =
    Some (Some (PyFloat.of_Z 105)) /\
  Spec.cumulative_balance dual_db "1500" 1 = PyFloat.of_Z 115.
Proof.
  split; [by apply (bool_decide_unpack _)|].
  split; [by apply (bool_decide_unpack _)|].
  split; reflexivity.
Qed.

Lemma C3_witness :
  OpeningRow "1500" (Some 100) (Some "Fixed Asset - Rental Income")
    (Some "Property") ∈ opening_balance dual_db /\
  "1500" ∈ accounts_cum (opening_balance dual_db) /\
  "1500" ∈ accounts_noncum (opening_balance dual_db) /\
  mb_opening_balance <$>
    (run_ok dual_db (∅ : monthly_table)).2 !! ("1500", "2025-02") =
    Some (Some (PyFloat.of_Z 105)).
Proof.
  split; [exact dual_row_in_snapshot|].
  destruct (C3_groups_classified_independently dual_db _ dual_row_in_snapshot)
    as (_ & _ & Hboth & _).
  destruct (Hboth eq_refl eq_refl dual_plain) as (Hc & Hn & _ & Hbal).
  split; [exact Hc|]. split; [exact Hn|].
  exact (Hbal ∅ "2025-02" eq_refl february_in_window).
Defined.



(** The carried-forward 9999 of the scenario. *)
Lemma C5_witness :
  Spec.is_marker (voucher (tx 2025 1 "1000" 9999 "BRTFWD")) /\
  voucher_sum_q
    ([tx 2025 1 "1000" 30 "JV001"; tx 2025 1 "1000" 20 "JV002"] ++
     tx 2025 1 "1000" 9999 "BRTFWD" :: [tx 2025 2 "1000" (-20) "JV003"])
    "1000" (2025, 1) = 50 /\
  run (with_vouchers
         ([tx 2025 1 "1000" 30 "JV001"; tx 2025 1 "1000" 20 "JV002"] ++
          tx 2025 1 "1000" 9999 "BRTFWD" ::
          [tx 2025 2 "1000" (-20) "JV003"]) scenario_db)
    (∅ : monthly_table) [] =
  run (with_vouchers
         ([tx 2025 1 "1000" 30 "JV001"; tx 2025 1 "1000" 20 "JV002"] ++
          [tx 2025 2 "1000" (-20) "JV003"]) scenario_db)
    (∅ : monthly_table) [].
Proof.
  assert (Spec.is_marker (voucher (tx 2025 1 "1000" 9999 "BRTFWD"))) as Hm
    by by left.
  split; [exact Hm|].
  destruct (C5_marker_vouchers_contribute_nothing scenario_db
              [tx 2025 1 "1000" 30 "JV001"; tx 2025 1 "1000" 20 "JV002"]
              [tx 2025 2 "1000" (-20) "JV003"]
              (tx 2025 1 "1000" 9999 "BRTFWD") Hm) as (Hsum & _ & Hrun & _).
  split; [by rewrite Hsum|]. apply Hrun.
Defined.

(** A stored description survives an upsert and a run cut short by a
    failed INSERT; the empty account type is filled in. *)
Lemma C6_witness :
  enriched_table !! row_key (ParamRow "1000" "2025-01" (PyFloat.of_Z 1050) (Some "Cash")
                               (Some "Asset")) =
    Some (MonthlyRow (Some (PyFloat.of_Z 1)) (Some "Petty cash") (Some "")) /\
  insert_row enriched_table
    (ParamRow "1000" "2025-01" (PyFloat.of_Z 1050) (Some "Cash") (Some "Asset"))
    !! ("1000", "2025-01") =
    Some (MonthlyRow (Some (PyFloat.of_Z 1050)) (Some "Petty cash") (Some "Asset")) /\
  exists row',
    (run scenario_db enriched_table
       [None; None; None; None; None; None; Some 0%nat]).2
      !! ("1000", "2025-01") = Some row' /\
    mb_description row' = Some "Petty cash".
Proof.
  destruct C6_upsert_overwrites_balance_keeps_metadata as (Hup & _ & Hrun).
  split; [reflexivity|]. split.
  - exact (Hup enriched_table
             (ParamRow "1000" "2025-01" (PyFloat.of_Z 1050) (Some "Cash") (Some "Asset"))
             _ eq_refl).
  - destruct (Hrun scenario_db enriched_table
                [None; None; None; None; None; None; Some 0%nat]
                ("1000", "2025-01") _ eq_refl) as (row' & Hk & Hd & _).
    exists row'. split; [exact Hk|]. exact (Hd eq_refl).
Defined.

(** The fifth statement of a run is the first month sum when there is a
    cumulative account, and the first fetch when there is none. *)
Lemma C8_witness :
  tables_ok scenario_db = true /\
  accounts_cum (opening_balance scenario_db) <> [] /\
  run scenario_db (∅ : monthly_table)
    [None; None; None; None; Some 0%nat] = (1, ∅) /\
  tables_ok income_db = true /\
  accounts_cum (opening_balance income_db) = [] /\
  accounts_noncum (opening_balance income_db) <> [] /\
  (run income_db (∅ : monthly_table)
     [None; None; None; None; Some 0%nat]).1 = 0.
Proof.
  assert (accounts_cum (opening_balance scenario_db) <> []) as H1
    by (intros [=]).
  assert (accounts_noncum (opening_balance income_db) <> []) as H2
    by (intros [=]).
  split; [reflexivity|]. split; [exact H1|]. split.
  - destruct (C8_failures_fatal_or_swallowed scenario_db)
      as (_ & _ & _ & _ & Hcum & _).
    exact (Hcum ∅ 0%nat [] eq_refl H1).
  - split; [reflexivity|]. split; [reflexivity|]. split; [exact H2|].
    destruct (C8_failures_fatal_or_swallowed income_db)
      as (_ & _ & _ & _ & _ & Hnon).
    exact (Hnon ∅ 0%nat eq_refl eq_refl H2).
Defined.

(** * Further properties of the script *)

(** ** The IN-list helper *)

(** X1. The text [sql_in_list] builds from a non-empty list of values
    without backslashes is read back by MySQL as exactly these values,
    whatever quotes and commas they hold; the text built from no value
    at all is empty, and is not a list MySQL accepts. *)
Theorem X1_sql_in_list_round_trip (values : list string) :
  values <> [] ->
  Forall SqlText.no_backslash values ->
  SqlText.parse_in_list (SqlText.sql_in_list values) = Some values /\
  SqlText.sql_in_list [] = EmptyString /\
  SqlText.parse_in_list (SqlText.sql_in_list []) = None.
Proof.
  intros Hne Hvs. split; [|done].
  destruct values as [|v vs]; [done|].
  unfold SqlText.parse_in_list. by rewrite read_in_list.
Qed.

Lemma X1_witness :
  ["O'Brien"; "a,b"; ""] <> [] /\
  Forall SqlText.no_backslash ["O'Brien"; "a,b"; ""] /\
  SqlText.parse_in_list (SqlText.sql_in_list ["O'Brien"; "a,b"; ""]) =
    Some ["O'Brien"; "a,b"; ""].
Proof.
  assert (["O'Brien"; "a,b"; ""] <> []) as H1 by (intros [=]).
  assert (Forall SqlText.no_backslash ["O'Brien"; "a,b"; ""]) as H2.
  { repeat constructor; intros [=]. }
  split; [exact H1|]. split; [exact H2|].
  exact (proj1 (X1_sql_in_list_round_trip _ H1 H2)).
Defined.

Lemma read_doubled v cur rest acc :
  SqlText.no_backslash v ->
  SqlText.read_list (SqlText.double_quotes v ++ rest)%string
    (SqlText.Inside cur) acc =
  SqlText.read_list rest (SqlText.Inside (cur ++ v)%string) acc.
Proof.
  revert cur. induction v as [|c v IH]; intros cur Hv.
  - simpl. by rewrite string_app_nil_r.
  - destruct Hv as [Hc Hv]. simpl SqlText.double_quotes.
    destruct (Ascii.eqb_spec c SqlText.quote) as [->|Hq].
    + rewrite !string_app_cons. simpl SqlText.read_list.
      rewrite IH by done. by rewrite string_app_assoc.
    + rewrite string_app_cons. simpl SqlText.read_list.
      apply Ascii.eqb_neq in Hq, Hc. rewrite Hq, Hc.
      rewrite IH by done. by rewrite string_app_assoc.
Qed.

Lemma double_quotes_app (s t : string) :
  SqlText.double_quotes (s ++ t) =
    (SqlText.double_quotes s ++ SqlText.double_quotes t)%string.
Proof.
  induction s as [|c s IH]; [done|].
  rewrite string_app_cons. simpl SqlText.double_quotes.
  destruct (Ascii.eqb c SqlText.quote); by rewrite ?string_app_cons, IH.
Qed.

Lemma read_trailing_backslash v acc :
  SqlText.no_backslash v ->
  SqlText.read_list
    (SqlText.literal (v ++ String SqlText.backslash EmptyString))
    SqlText.Before acc = None.
Proof.
  intros Hv. unfold SqlText.literal. rewrite double_quotes_app.
  simpl SqlText.read_list. rewrite string_app_assoc.
  by rewrite read_doubled.
Qed.

(** X2. [sql_in_list] leaves backslashes as they are: when the last value
    ends in a backslash (and there is none elsewhere), MySQL under its
    default [sql_mode] takes the closing quote for an escaped one and
    rejects the list. *)
Theorem X2_sql_in_list_trailing_backslash (values : list string)
    (v : string) :
  Forall SqlText.no_backslash values ->
  SqlText.no_backslash v ->
  SqlText.parse_in_list
    (SqlText.sql_in_list
       (values ++ [(v ++ String SqlText.backslash EmptyString)%string])) =
    None.
Proof.
  intros Hvs Hv. unfold SqlText.parse_in_list.
  enough (forall acc,
            SqlText.read_list
              (SqlText.sql_in_list
                 (values ++
                  [(v ++ String SqlText.backslash EmptyString)%string]))
              SqlText.Before acc = None) as H by apply H.
  induction Hvs as [|w values Hw Hvs IH]; intros acc.
  - by apply read_trailing_backslash.
  - destruct (values ++ [(v ++ String SqlText.backslash "")%string])%list
      as [|u us] eqn:E.
    { by destruct values. }
    change (SqlText.sql_in_list ((w :: values) ++ [(v ++ String SqlText.backslash "")%string]))
      with (SqlText.sql_in_list (w :: (values ++ [(v ++ String SqlText.backslash "")%string]))).
    rewrite E.
    change (SqlText.sql_in_list (w :: u :: us))
      with (SqlText.literal w ++
            String SqlText.comma (SqlText.sql_in_list (u :: us)))%string.
    rewrite read_literal by done. simpl SqlText.read_list. apply IH.
Qed.

Lemma X2_witness :
  Forall SqlText.no_backslash ["1000"] /\
  SqlText.no_backslash "20" /\
  SqlText.parse_in_list (SqlText.sql_in_list (["1000"] ++ ["20\"])) = None.
Proof.
  assert (Forall SqlText.no_backslash ["1000"]) as H1.
  { repeat constructor; intros [=]. }
  assert (SqlText.no_backslash "20") as H2.
  { repeat constructor; intros [=]. }
  split; [exact H1|]. split; [exact H2|].
  exact (X2_sql_in_list_trailing_backslash ["1000"] "20" H1 H2).
Defined.

(** ** The pre-flight check and the early exit *)

Lemma preflight_loop (db : database) (ts : list string) (c : conn) :
  let body := fun t =>
    bind (execute (SelectSchema t);;;
          ret (if Sql.IN t (schema_tables db) then 1 else 0))
         (fun r => if r =? 0 then sys_exit 2 else ret tt) in
  let '(r, c') := for_each ts body c in
  committed c' = committed c /\ working c' = working c /\
  (exists n, log c' = (log c ++ map SelectSchema (take n ts))%list) /\
  match r with
  | Ok _ =>
      forallb (fun t => Sql.IN t (schema_tables db)) ts = true /\
      log c' = (log c ++ map SelectSchema ts)%list
  | SysExit code =>
      code = 2 /\ forallb (fun t => Sql.IN t (schema_tables db)) ts = false
  | Raised => True
  end.
Proof.
  intros body. revert c. induction ts as [|t ts IH]; intros c.
  - simpl. rewrite app_nil_r. split_and!; try done. exists 0%nat.
    by rewrite app_nil_r.
  - cbn [for_each forallb]. unfold bind at 1.
    assert (body t c =
              match next_fault c with
              | Some _ => (Raised, advance (SelectSchema t) c)
              | None =>
                  if Sql.IN t (schema_tables db)
                  then (Ok tt, advance (SelectSchema t) c)
                  else (SysExit 2, advance (SelectSchema t) c)
              end) as ->.
    { unfold body, bind, execute.
      destruct (next_fault c); [done|]. cbv beta iota. unfold ret.
      by destruct (Sql.IN t (schema_tables db)). }
    destruct (next_fault c).
    { split_and!; try done. by exists 1%nat. }
    destruct (Sql.IN t (schema_tables db)).
    + specialize (IH (advance (SelectSchema t) c)).
      destruct (for_each ts body (advance (SelectSchema t) c)) as [r c'].
      destruct IH as (Hc & Hw & (n & Hl) & Hr).
      split_and!; try done.
      * exists (S n). rewrite Hl. simpl. by rewrite <- app_assoc.
      * destruct r as [[]| |]; [|done|done].
        destruct Hr as [Hr ->]. split; [done|]. simpl.
        by rewrite <- app_assoc.
    + split_and!; try done. by exists 1%nat.
Qed.

(** X3. When one of the three required tables is missing from the schema,
    a run stops in the pre-flight check whatever else happens: it ends
    with status 2 (1 when a catalogue query itself fails), it has sent
    catalogue queries only (no business table is read or written) and
    [monthly_balance] is as it was. *)
Theorem X3_missing_table_stops_before_any_data (db : database)
    (t : monthly_table) (fs : list (option nat)) :
  tables_ok db = false ->
  (run db t fs).2 = t /\
  ((run db t fs).1 = 2 \/ (run db t fs).1 = 1) /\
  (exists sent,
     log (main db (connect t fs)).2 = map SelectSchema sent) /\
  run_ok db t = (2, t).
Proof.
  intros Hok.
  assert (exists r c',
            main db (connect t fs) = (r, c') /\ committed c' = t /\
            (r = SysExit 2 \/ r = Raised) /\
            exists sent, log c' = map SelectSchema sent)
    as (r & c' & E & Hc & Hr & Hl).
  { unfold main, validate_tables. unfold bind at 1.
    pose proof (preflight_loop db required_tables (connect t fs)) as H.
    cbv zeta in H.
    destruct (for_each required_tables _ (connect t fs)) as [[[]|code|] c'];
      destruct H as (Hc & Hw & (n & Hl) & Hr);
      assert (exists sent, log c' = map SelectSchema sent) as Hsent
        by (exists (take n required_tables); exact Hl).
    - unfold tables_ok in Hok. destruct Hr. congruence.
    - destruct Hr as [-> _]. exists (SysExit 2), c'. auto.
    - exists Raised, c'. auto. }
  unfold run. rewrite E. cbn [snd fst]. split_and!; try done.
  - destruct Hr as [-> | ->]; auto.
  - by rewrite run_ok_eq, Hok.
Qed.

Lemma X3_witness :
  tables_ok unprepared_db = false /\
  (run unprepared_db enriched_table [None; Some 0%nat]).2 = enriched_table /\
  run_ok unprepared_db enriched_table = (2, enriched_table).
Proof.
  split; [reflexivity|].
  destruct (X3_missing_table_stops_before_any_data unprepared_db
              enriched_table [None; Some 0%nat] eq_refl)
    as (Ht & _ & _ & Hrun).
  split; [exact Ht|exact Hrun].
Defined.

(** X4. When no row of the snapshot is an asset, liability, income or
    expense account, a run writes nothing, whatever fails: it sends the
    three catalogue queries and the read of [opening_balance] at most,
    never a transaction statement, and when the tables exist and
    nothing fails it ends with status 0. *)
Theorem X4_no_relevant_account_no_write (db : database)
    (t : monthly_table) (fs : list (option nat)) :
  accounts_cum (opening_balance db) = [] ->
  accounts_noncum (opening_balance db) = [] ->
  (run db t fs).2 = t /\
  (exists n,
     log (main db (connect t fs)).2 =
       take n (map SelectSchema required_tables ++
               [SelectFrom OPENING_BALANCE_TABLE])) /\
  (tables_ok db = true -> run_ok db t = (0, t)).
Proof.
  intros Hcum Hnon. split_and!.
  - apply (run_table_invariant db (fun t' => t' = t)); [|done].
    intros r t' (m & vmap & acct & _ & _ & [H|H]) _;
      rewrite ?Hcum, ?Hnon in H; by apply elem_of_nil in H.
  - unfold main, validate_tables. unfold bind at 1.
    pose proof (preflight_loop db required_tables (connect t fs)) as H.
    cbv zeta in H.
    destruct (for_each required_tables _ (connect t fs)) as [[[]|code|] c'];
      destruct H as (Hc & Hw & (n & Hl) & Hr); cbn [snd].
    + destruct Hr as [_ Hlog]. simpl in Hlog.
      unfold query, bind at 1 2, execute.
      destruct (next_fault c'); cbv beta iota; [|unfold ret; rewrite Hcum, Hnon];
        cbn [snd advance log sys_exit]; rewrite Hlog; by exists 4%nat.
    + exists (n `min` 3)%nat. rewrite Hl.
      by destruct n as [|[|[|[|n]]]].
    + exists (n `min` 3)%nat. rewrite Hl.
      by destruct n as [|[|[|[|n]]]].
  - intros Hok. rewrite run_ok_eq, Hok. f_equal.
    unfold after_run, after_cumulative.
    rewrite !apply_batches_nil; [done| |].
    + intros im. unfold cumulative_batch. by rewrite Hcum.
    + intros m. unfold noncumulative_batch. by rewrite Hnon.
Qed.

Lemma X4_witness :
  accounts_cum (opening_balance equity_db) = [] /\
  accounts_noncum (opening_balance equity_db) = [] /\
  (run equity_db enriched_table [None; None; None; Some 0%nat]).2 =
    enriched_table /\
  run_ok equity_db enriched_table = (0, enriched_table).
Proof.
  split; [reflexivity|]. split; [reflexivity|].
  destruct (X4_no_relevant_account_no_write equity_db enriched_table
              [None; None; None; Some 0%nat] eq_refl eq_refl)
    as (Ht & _ & Hrun).
  split; [exact Ht|exact (Hrun eq_refl)].
Defined.

(** ** Classification by keyword *)

Lemma prefix_spec (p s : string) :
  String.prefix p s = true <-> exists suf, s = (p ++ suf)%string.
Proof.
  revert s. induction p as [|c p IH]; intros s.
  - split; [|by destruct s]. intros _. by exists s.
  - destruct s as [|d s]; simpl.
    + split; [done|]. by intros (suf & [=]).
    + destruct (Ascii.ascii_dec c d) as [->|Hne]; cbv beta iota.
      * split.
        -- intros (suf & ->)%IH. by exists suf.
        -- intros (suf & E). apply IH. exists suf. by injection E.
      * split; [done|]. intros (suf & [= E _]). by symmetry in E.
Qed.

Lemma contains_spec (p s : string) :
  PyStr.contains p s = true <->
  exists pre suf, s = (pre ++ p ++ suf)%string.
Proof.
  induction s as [|d s IH].
  - cbn [PyStr.contains]. rewrite orb_false_r, prefix_spec. split.
    + intros (suf & E). by exists EmptyString, suf.
    + intros (pre & suf & E). destruct pre; [by exists suf|done].
  - cbn [PyStr.contains]. rewrite orb_true_iff, IH, prefix_spec. split.
    + intros [(suf & E)|(pre & suf & E)].
      * by exists EmptyString, suf.
      * exists (String d pre), suf. by rewrite E.
    + intros (pre & suf & E). destruct pre as [|d' pre].
      * left. by exists suf.
      * right. exists pre, suf. by injection E.
Qed.

Lemma lower_app (s t : string) :
  PyStr.lower (s ++ t) = (PyStr.lower s ++ PyStr.lower t)%string.
Proof.
  induction s as [|c s IH]; [done|].
  rewrite string_app_cons. cbn [PyStr.lower]. by rewrite IH.
Qed.

(** X5. The two masks are substring tests on the lower-cased label: a row
    is cumulative exactly when its normalized label has asset or liab
    somewhere in it, periodic exactly when it has income or expens, so a
    keyword in any letter case anywhere in the label classifies the row;
    a row whose label is NULL is in neither group. *)
Theorem X5_masks_are_keyword_substrings :
  (forall r,
     mask_cum r = true <->
     exists pre suf,
       acct_type_norm r = (pre ++ "asset" ++ suf)%string \/
       acct_type_norm r = (pre ++ "liab" ++ suf)%string) /\
  (forall r,
     mask_noncum r = true <->
     exists pre suf,
       acct_type_norm r = (pre ++ "income" ++ suf)%string \/
       acct_type_norm r = (pre ++ "expens" ++ suf)%string) /\
  (forall acct bal descr (pre w suf : string),
     (PyStr.lower w = "asset" \/ PyStr.lower w = "liab" ->
      mask_cum (OpeningRow acct bal (Some (pre ++ w ++ suf)%string) descr)
        = true) /\
     (PyStr.lower w = "income" \/ PyStr.lower w = "expens" ->
      mask_noncum (OpeningRow acct bal (Some (pre ++ w ++ suf)%string) descr)
        = true)) /\
  (forall r,
     ob_account_type r = None ->
     mask_cum r = false /\ mask_noncum r = false).
Proof.
  assert (forall r,
            mask_cum r = true <->
            exists pre suf,
              acct_type_norm r = (pre ++ "asset" ++ suf)%string \/
              acct_type_norm r = (pre ++ "liab" ++ suf)%string) as Hcum.
  { intros r. unfold mask_cum. rewrite orb_true_iff, !contains_spec.
    split.
    - intros [(pre & suf & E)|(pre & suf & E)]; exists pre, suf; auto.
    - intros (pre & suf & [E|E]); [left|right]; by exists pre, suf. }
  assert (forall r,
            mask_noncum r = true <->
            exists pre suf,
              acct_type_norm r = (pre ++ "income" ++ suf)%string \/
              acct_type_norm r = (pre ++ "expens" ++ suf)%string) as Hnon.
  { intros r. unfold mask_noncum. rewrite orb_true_iff, !contains_spec.
    split.
    - intros [(pre & suf & E)|(pre & suf & E)]; exists pre, suf; auto.
    - intros (pre & suf & [E|E]); [left|right]; by exists pre, suf. }
  split_and!; try done.
  - intros acct bal descr pre w suf. split.
    + intros Hw. apply Hcum.
      exists (PyStr.lower pre), (PyStr.lower suf).
      change (acct_type_norm
                (OpeningRow acct bal (Some (pre ++ w ++ suf)%string) descr))
        with (PyStr.lower (pre ++ w ++ suf)).
      rewrite !lower_app. destruct Hw as [-> | ->]; auto.
    + intros Hw. apply Hnon.
      exists (PyStr.lower pre), (PyStr.lower suf).
      change (acct_type_norm
                (OpeningRow acct bal (Some (pre ++ w ++ suf)%string) descr))
        with (PyStr.lower (pre ++ w ++ suf)).
      rewrite !lower_app. destruct Hw as [-> | ->]; auto.
  - intros r Hr. unfold mask_cum, mask_noncum, acct_type_norm.
    by rewrite Hr.
Qed.

(** ** The rows the loops build and what a run leaves *)

Lemma get_text_py_dict ob (col : opening_row -> option string) a :
  get_text (py_dict (map (fun r => (ob_account r, col r)) ob)) a =
    snapshot_row ob a ≫= col.
Proof.
  unfold get_text, snapshot_row. rewrite (py_dict_lookup ob_account col).
  by destruct (last _).
Qed.

(** X6. When the snapshot holds several rows for an account, the row the
    loops build for it takes its opening balance (0 when NULL), its
    description and its account type from the last of them, whichever
    row put the account in the group; an account without any row gets
    balance 0 and NULL texts. *)
Theorem X6_rows_built_from_last_snapshot_row (ob_df_all : list opening_row)
    (month_key : string) (voucher_val : PrimFloat.float) (acct : string) :
  make_row ob_df_all month_key voucher_val acct =
    {| p_account := acct;
       p_month_key := month_key;
       p_balance :=
         PrimFloat.add
           (PyFloat.of_Z
              (default 0 (snapshot_row ob_df_all acct ≫= ob_opening_balance)))
           voucher_val;
       p_description := snapshot_row ob_df_all acct ≫= ob_description;
       p_account_type := snapshot_row ob_df_all acct ≫= ob_account_type |}.
Proof.
  unfold make_row, ob_desc_map, ob_type_map. rewrite !get_text_py_dict.
  f_equal. f_equal. f_equal. unfold get0, ob_map, snapshot_row.
  rewrite (py_dict_lookup ob_account
             (fun r => default 0 (ob_opening_balance r))).
  destruct (last _) as [r|]; [|done]. simpl. by destruct (ob_opening_balance r).
Qed.

Lemma fill_fill d0 d : fill (fill d0 d) d = fill d0 d.
Proof.
  unfold fill. destruct (is_blank d0) eqn:E; [|by rewrite ?E].
  by destruct (is_blank d).
Qed.

Lemma foldl_fill_const d0 d ns :
  ns <> [] -> Forall (fun n => n = d) ns -> foldl fill d0 ns = fill d0 d.
Proof.
  intros Hne Hns. destruct Hns as [|n ns -> Hns]; [done|]. cbn [foldl].
  clear Hne. induction Hns as [|n ns -> _ IH]; [done|]. cbn [foldl].
  by rewrite fill_fill.
Qed.

Lemma all_rows_key db r :
  r ∈ (concat (map (cumulative_batch db) (imap pair MONTHS)) ++
       concat (map (noncumulative_batch db) MONTHS))%list ->
  written_key db (row_key r) /\
  p_description r =
    snapshot_row (opening_balance db) (p_account r) ≫= ob_description /\
  p_account_type r =
    snapshot_row (opening_balance db) (p_account r) ≫= ob_account_type.
Proof.
  rewrite elem_of_app, elem_of_cumulative_rows, elem_of_concat.
  intros [(j & mj & acct & Hj & Hacct & ->)
         |(l & (mj & -> & Hmj)%elem_of_map & (acct & -> & Hacct)%elem_of_map)];
    unfold make_row, ob_desc_map, ob_type_map; cbn [p_account
      p_description p_account_type row_key p_month_key];
    rewrite !get_text_py_dict.
  - split; [|done]. split; [by left|].
    by apply list_elem_of_lookup_2 in Hj.
  - split; [|done]. split; [by right|done].
Qed.

Lemma written_key_row db k :
  written_key db k ->
  exists r,
    r ∈ (concat (map (cumulative_batch db) (imap pair MONTHS)) ++
         concat (map (noncumulative_batch db) MONTHS))%list /\
    row_key r = k.
Proof.
  destruct k as [a m]. intros [[Ha|Ha] Hm]; cbn [fst snd] in *.
  - apply list_elem_of_lookup_1 in Hm as [i Hi].
    eexists. split.
    + apply elem_of_app. left. apply elem_of_cumulative_rows.
      by exists i, m, a.
    + done.
  - eexists. split.
    + apply elem_of_app. right. apply elem_of_concat.
      exists (noncumulative_batch db m). split.
      * apply elem_of_map. by exists m.
      * apply elem_of_map. by exists a.
    + done.
Qed.

Lemma run_ok_lookup (db : database) (t : monthly_table)
    (k : string * string) :
  tables_ok db = true ->
  (run_ok db t).2 !! k =
    cell_of (t !! k)
      (filter (fun r => row_key r = k)
         (concat (map (cumulative_batch db) (imap pair MONTHS)) ++
          concat (map (noncumulative_batch db) MONTHS))%list).
Proof.
  intros Hok. rewrite run_ok_eq, Hok. cbn [snd].
  by rewrite after_run_concat, insert_rows_lookup, cell_after_cell_of.
Qed.

Lemma run_ok_balance (db : database) (t : monthly_table) (a m : string)
    (i : nat) :
  tables_ok db = true ->
  MONTHS !! i = Some m ->
  a ∈ accounts_cum (opening_balance db) \/
  a ∈ accounts_noncum (opening_balance db) ->
  mb_opening_balance <$> (run_ok db t).2 !! (a, m) =
    Some (Some (if decide (a ∈ accounts_noncum (opening_balance db))
                then periodic_stored db a m
                else Spec.cumulative_balance db a i)).
Proof.
  intros Hok Hi Ha. rewrite run_ok_eq, Hok. cbn [snd].
  case_decide as Hn.
  - apply after_run_noncum_balance; [done|].
    by apply list_elem_of_lookup_2 in Hi.
  - destruct Ha as [Ha|Ha]; [|done].
    unfold after_run. rewrite apply_batches_concat, insert_rows_lookup.
    rewrite cell_after_frame; [by apply after_cumulative_balance|].
    intros r (l & (mj & -> & _)%elem_of_map & Hr)%elem_of_concat.
    apply elem_of_map in Hr as (acct & -> & Hacct).
    intros [= -> _]. done.
Qed.

(** X7. After a run without faults, the row of a window month [m] (of
    index [i]) and an account [a] of either group is known in full, when
    the account codes of the income/expense group hold no backslash and
    no colon: its balance is the periodic one when [a] is an
    income/expense account (also when it is an asset/liability account as
    well) and the cumulative one otherwise, both being floating-point
    sums; its description and its account type are the stored ones when
    these were not blank, and else those of the account's last snapshot
    row. *)
Theorem X7_row_after_a_run (db : database) (t : monthly_table)
    (a m : string) (i : nat) :
  tables_ok db = true ->
  MONTHS !! i = Some m ->
  a ∈ accounts_cum (opening_balance db) \/
  a ∈ accounts_noncum (opening_balance db) ->
  Forall SqlText.plain (accounts_noncum (opening_balance db)) ->
  (run_ok db t).2 !! (a, m) =
    Some {| mb_opening_balance :=
              Some (if decide (a ∈ accounts_noncum (opening_balance db))
                    then Spec.periodic_balance db a m
                    else Spec.cumulative_balance db a i);
            mb_description :=
              fill (t !! (a, m) ≫= mb_description)
                (snapshot_row (opening_balance db) a ≫= ob_description);
            mb_account_type :=
              fill (t !! (a, m) ≫= mb_account_type)
                (snapshot_row (opening_balance db) a ≫= ob_account_type) |}.
Proof.
  intros Hok Hi Ha Hp.
  pose proof (run_ok_balance db t a m i Hok Hi Ha) as Hbal.
  assert (m ∈ MONTHS) as Hm by by apply list_elem_of_lookup_2 in Hi.
  assert ((if decide (a ∈ accounts_noncum (opening_balance db))
           then periodic_stored db a m
           else Spec.cumulative_balance db a i) =
          (if decide (a ∈ accounts_noncum (opening_balance db))
           then Spec.periodic_balance db a m
           else Spec.cumulative_balance db a i)) as Hval.
  { case_decide; [by apply periodic_stored_plain|done]. }
  rewrite Hval in Hbal. clear Hval.
  rewrite run_ok_lookup in Hbal |- * by done.
  set (rs := filter _ _) in *.
  assert (rs <> []) as Hne.
  { destruct (written_key_row db (a, m)) as (r & Hr & Hk).
    - split; [done|]. by apply list_elem_of_lookup_2 in Hi.
    - intros E. assert (r ∈ rs) as Hin by by apply list_elem_of_filter.
      rewrite E in Hin. by apply elem_of_nil in Hin. }
  assert (Forall (fun r => p_account r = a /\
                           r ∈ (concat (map (cumulative_batch db)
                                          (imap pair MONTHS)) ++
                                concat (map (noncumulative_batch db)
                                          MONTHS))%list) rs) as Hrs.
  { apply Forall_forall. intros r [Hk Hr]%list_elem_of_filter.
    split; [|done]. by injection Hk. }
  unfold cell_of in *. destruct (last rs) as [r|] eqn:El.
  2: { by apply last_None in El. }
  simpl in Hbal. injection Hbal as Hbal. f_equal.
  f_equal; [by rewrite Hbal| |].
  - apply foldl_fill_const; [by destruct rs|].
    apply Forall_forall. intros d (r' & -> & Hr')%elem_of_map.
    destruct (proj1 (Forall_forall _ _) Hrs r' Hr') as [<- Hall].
    by destruct (all_rows_key db r' Hall) as (_ & -> & _).
  - apply foldl_fill_const; [by destruct rs|].
    apply Forall_forall. intros d (r' & -> & Hr')%elem_of_map.
    destruct (proj1 (Forall_forall _ _) Hrs r' Hr') as [<- Hall].
    by destruct (all_rows_key db r' Hall) as (_ & _ & ->).
Qed.

Lemma script_row_written db r : script_row db r -> written_key db (row_key r).
Proof. by intros (m & vmap & acct & -> & Hm & Ha). Qed.

(** X8. Which rows a run touches. Whatever fails, a run deletes no row,
    leaves every row outside (accounts of the two groups) x (months of
    the window) exactly as it was, and creates rows under such keys only;
    a run without faults leaves a row under every such key, so that the
    table then holds the rows it held and one row per account of a group
    and month of the window, without gaps. *)
Theorem X8_rows_touched_by_a_run (db : database) (t : monthly_table) :
  (forall fs k, is_Some (t !! k) -> is_Some ((run db t fs).2 !! k)) /\
  (forall fs k, ~ written_key db k -> (run db t fs).2 !! k = t !! k) /\
  (tables_ok db = true ->
   forall k,
     is_Some ((run_ok db t).2 !! k) <-> is_Some (t !! k) \/ written_key db k).
Proof.
  split_and!.
  - intros fs k Hk.
    apply (run_table_invariant db (fun t' => is_Some (t' !! k))); [|done].
    intros r t' _ Ht'. rewrite insert_row_lookup. by case_decide.
  - intros fs k Hk.
    apply (run_table_invariant db (fun t' => t' !! k = t !! k)); [|done].
    intros r t' Hr Ht'. rewrite insert_row_lookup, decide_False; [done|].
    intros <-. by apply Hk, script_row_written.
  - intros Hok k. rewrite run_ok_lookup by done.
    set (rs := filter _ _). unfold cell_of.
    destruct (last rs) as [r|] eqn:El.
    + split; [|done]. intros _. right.
      assert (r ∈ rs) as [Hk Hr]%list_elem_of_filter.
      { destruct rs as [|r0 rs0] using rev_ind; [done|].
        rewrite last_snoc in El. injection El as ->.
        apply elem_of_app. right. by left. }
      rewrite <- Hk. by destruct (all_rows_key db r Hr) as [? _].
    + apply last_None in El. split; [by left|].
      intros [Hs|Hw]; [done|].
      destruct (written_key_row db k Hw) as (r & Hr & Hk).
      assert (r ∈ rs) as Hin by by apply list_elem_of_filter.
      rewrite El in Hin. by apply elem_of_nil in Hin.
Qed.

(** ** Months before and after *)

Lemma voucher_amounts_q_dated m (rows rows' : list voucher_row) accts :
  year_month m = Some (ym_of m) ->
  filter (Spec.dated_in m) rows' = filter (Spec.dated_in m) rows ->
  voucher_amounts_q rows' accts (ym_of m) =
    voucher_amounts_q rows accts (ym_of m).
Proof.
  intros Hy E. unfold voucher_amounts_q.
  rewrite <- (List_filter_filter_decide _ (Spec.dated_in m) rows').
  - rewrite E. by rewrite List_filter_filter_decide;
      [|intros r; rewrite !andb_true_iff, in_month_spec by done; tauto].
  - intros r. rewrite !andb_true_iff, in_month_spec by done. tauto.
Qed.

Lemma periodic_stored_dated db db' a m :
  m ∈ MONTHS ->
  opening_balance db' = opening_balance db ->
  filter (Spec.dated_in m) (voucher_table db' m) =
    filter (Spec.dated_in m) (voucher_table db m) ->
  periodic_stored db' a m = periodic_stored db a m.
Proof.
  intros Hm Hob E. unfold periodic_stored, voucher_map_of, Spec.opening_of.
  rewrite Hob. destruct (SqlText.parse_in_list _) as [values|]; [|done].
  by rewrite (voucher_amounts_q_dated m _ _ values
                (month_in_window_parses m Hm) E).
Qed.

Lemma month_activity_dated db db' a m :
  filter (Spec.dated_in m) (voucher_table db' m) =
    filter (Spec.dated_in m) (voucher_table db m) ->
  Spec.month_activity db' a m = Spec.month_activity db a m.
Proof.
  intros E. unfold Spec.month_activity. by rewrite !activity_rows_dated, E.
Qed.

(** X9. The balance stored for a month never looks ahead: two databases
    with the same opening balances and the same transactions dated in
    the window months up to [m] yield, for an account of either group,
    the same balance for [m], whatever transactions they hold for later
    months. *)
Theorem X9_balance_never_looks_ahead (db db' : database)
    (t t' : monthly_table) (a m : string) (i : nat) :
  tables_ok db = true ->
  tables_ok db' = true ->
  opening_balance db' = opening_balance db ->
  MONTHS !! i = Some m ->
  a ∈ accounts_cum (opening_balance db) \/
  a ∈ accounts_noncum (opening_balance db) ->
  (forall mj, mj ∈ take (S i) MONTHS ->
     filter (Spec.dated_in mj) (voucher_table db' mj) =
       filter (Spec.dated_in mj) (voucher_table db mj)) ->
  mb_opening_balance <$> (run_ok db' t').2 !! (a, m) =
    mb_opening_balance <$> (run_ok db t).2 !! (a, m).
Proof.
  intros Hok Hok' Hob Hi Ha Hrows.
  rewrite (run_ok_balance db t a m i), (run_ok_balance db' t' a m i);
    rewrite ?Hob; try done.
  assert (Spec.opening_of db' a = Spec.opening_of db a) as Hopen
    by (unfold Spec.opening_of; by rewrite Hob).
  case_decide.
  - do 2 f_equal. apply periodic_stored_dated; [|done|].
    + by apply list_elem_of_lookup_2 in Hi.
    + apply Hrows. apply elem_of_take. exists i. split; [done|lia].
  - unfold Spec.cumulative_balance, Spec.sums_to. rewrite Hopen.
    do 4 f_equal.
    apply map_ext_in. intros mj Hmj%list_elem_of_In.
    by apply month_activity_dated, Hrows.
Qed.

(** X10. What the cumulative loop carries from one month to the next is
    the voucher total, not the balance. For an asset/liability account, a
    run without faults stores for each month the floating-point sum of
    the opening balance and of that month's voucher total; the total of
    the first month is 0 plus its transaction sum, and the total of every
    later month is the total of the month before plus its own
    transaction sum. The stored balances obey the carry-forward
    recurrence (a month holds what the month before holds plus its own
    transaction sum) when no addition involved rounds. *)
Theorem X10_voucher_total_carries_forward (db : database)
    (t : monthly_table) (a : string) :
  tables_ok db = true ->
  a ∈ accounts_cum (opening_balance db) ->
  a ∉ accounts_noncum (opening_balance db) ->
  (forall i m,
     MONTHS !! i = Some m ->
     mb_opening_balance <$> (run_ok db t).2 !! (a, m) =
       Some (Some (PrimFloat.add
                     (PyFloat.of_Z (Spec.opening_of db a))
                     (cumulative_total db a (take (S i) MONTHS))))) /\
  cumulative_total db a (take 1 MONTHS) =
    PrimFloat.add PrimFloat.zero
      (PyFloat.of_Z (Spec.month_activity db a "2025-01")) /\
  (forall i m',
     MONTHS !! S i = Some m' ->
     cumulative_total db a (take (S (S i)) MONTHS) =
       PrimFloat.add (cumulative_total db a (take (S i) MONTHS))
                     (PyFloat.of_Z (Spec.month_activity db a m'))) /\
  (forall i m m',
     MONTHS !! i = Some m -> MONTHS !! S i = Some m' ->
     Spec.cumulative_exact db a i -> Spec.cumulative_exact db a (S i) ->
     PyFloat.exact_add (Spec.exact_cumulative db a i)
                       (Spec.month_activity db a m') ->
     exists b,
       mb_opening_balance <$> (run_ok db t).2 !! (a, m) = Some (Some b) /\
       mb_opening_balance <$> (run_ok db t).2 !! (a, m') =
         Some (Some (PrimFloat.add
                       b (PyFloat.of_Z (Spec.month_activity db a m'))))).
Proof.
  intros Hok Ha Hn.
  assert (forall i m, MONTHS !! i = Some m ->
            mb_opening_balance <$> (run_ok db t).2 !! (a, m) =
              Some (Some (Spec.cumulative_balance db a i))) as Hbal.
  { intros i m Hi. rewrite (run_ok_balance db t a m i) by auto.
    by rewrite decide_False by done. }
  split_and!.
  - intros i m Hi. rewrite (Hbal i m Hi). unfold Spec.cumulative_balance.
    by rewrite cumulative_total_spec by apply Forall_take, months_parse.
  - unfold cumulative_total. cbn [take MONTHS foldl].
    by rewrite voucher_sum_q_activity.
  - intros i m' Hi'. rewrite (take_S_r MONTHS (S i) m') by done.
    unfold cumulative_total. rewrite foldl_app. cbn [foldl].
    rewrite voucher_sum_q_activity; [done|].
    apply month_in_window_parses. by apply list_elem_of_lookup_2 in Hi'.
  - intros i m m' Hi Hi' Hx Hx' Hadd. eexists. split.
    + rewrite (Hbal i m Hi). by rewrite cumulative_balance_exact.
    + rewrite (Hbal (S i) m' Hi'), cumulative_balance_exact by done.
      unfold PyFloat.exact_add in Hadd. rewrite Hadd. do 3 f_equal.
      unfold Spec.exact_cumulative, Spec.sums_to.
      rewrite (take_S_r MONTHS (S i) m') by done.
      rewrite map_app, sumZ_app. simpl. lia.
Qed.

(** With an opening balance of 2^53 and a transaction of 1 in January and
    in February, January holds 2^53 and February 2^53 + 2, which is not
    what January holds plus 1. *)
Lemma large_db_balance_not_carried :
  mb_opening_balance <$>
    (run_ok large_db (∅ : monthly_table)).2 !! ("1000", "2025-01") =
    Some (Some (PyFloat.of_Z (2 ^ 53))) /\
  mb_opening_balance <$>
    (run_ok large_db (∅ : monthly_table)).2 !! ("1000", "2025-02") =
    Some (Some (PyFloat.of_Z (2 ^ 53 + 2))) /\
  PrimFloat.add (PyFloat.of_Z (2 ^ 53)) (PyFloat.of_Z 1) =
    PyFloat.of_Z (2 ^ 53).
Proof. split; [|split]; reflexivity. Qed.

Lemma X7_witness :
  (run_ok scenario_db enriched_table).2 !! ("1000", "2025-01") =
    Some {| mb_opening_balance := Some (PyFloat.of_Z 1050);
            mb_description := Some "Petty cash";
            mb_account_type := Some "Asset" |}.
Proof.
  exact (X7_row_after_a_run scenario_db enriched_table "1000" "2025-01" 0
           eq_refl eq_refl (or_introl scenario_cumulative_group)
           scenario_plain).
Defined.

Lemma later_db_agrees mj :
  mj ∈ take 2 MONTHS ->
  filter (Spec.dated_in mj) (voucher_table later_db mj) =
    filter (Spec.dated_in mj) (voucher_table scenario_db mj).
Proof.
  cbn [take MONTHS]. intros Hmj.
  apply elem_of_cons in Hmj as [->|Hmj]; [reflexivity|].
  apply elem_of_cons in Hmj as [->|Hmj]; [reflexivity|].
  by apply elem_of_nil in Hmj.
Qed.

Lemma X9_witness :
  mb_opening_balance <$>
    (run_ok later_db ∅).2 !! ("1000", "2025-02") =
  mb_opening_balance <$>
    (run_ok scenario_db enriched_table).2 !! ("1000", "2025-02").
Proof.
  exact (X9_balance_never_looks_ahead scenario_db later_db enriched_table ∅
           "1000" "2025-02" 1 eq_refl eq_refl eq_refl eq_refl
           (or_introl scenario_cumulative_group) later_db_agrees).
Defined.

Lemma scenario_january_exact : Spec.cumulative_exact scenario_db "1000" 0.
Proof. vm_compute. repeat split. Qed.

Lemma X10_witness :
  mb_opening_balance <$>
    (run_ok scenario_db ∅).2 !! ("1000", "2025-02") =
    Some (Some (PrimFloat.add (PyFloat.of_Z 1000) (PyFloat.of_Z 30))) /\
  cumulative_total scenario_db "1000" (take 2 MONTHS) =
    PrimFloat.add (cumulative_total scenario_db "1000" (take 1 MONTHS))
                  (PyFloat.of_Z (-20)) /\
  exists b,
    mb_opening_balance <$>
      (run_ok scenario_db ∅).2 !! ("1000", "2025-01") = Some (Some b) /\
    mb_opening_balance <$>
      (run_ok scenario_db ∅).2 !! ("1000", "2025-02") =
      Some (Some (PrimFloat.add b (PyFloat.of_Z (-20)))).
Proof.
  destruct (X10_voucher_total_carries_forward scenario_db ∅ "1000"
              eq_refl scenario_cumulative_group scenario_not_periodic)
    as (H1 & _ & H2 & H3).
  split; [exact (H1 1%nat "2025-02" eq_refl)|].
  split; [exact (H2 0%nat "2025-02" eq_refl)|].
  refine (H3 0%nat "2025-01" "2025-02" eq_refl eq_refl
            scenario_january_exact scenario_february_exact _).
  reflexivity.
Defined.


(** ** Runs during which statements fail *)

Lemma suffix_tail {A} (l k : list A) :
  l `suffix_of` k -> tail l `suffix_of` k.
Proof. destruct l; [done|]. apply suffix_cons_l. Qed.

Lemma hoare_for_fold_value {A B} (l : list A) (f : B -> A -> py B)
    (g : B -> A -> B) (b : B) (I : conn -> Prop) E :
  (forall b x, x ∈ l ->
     hoare I (f b x) (fun b' c => b' = g b x /\ I c) E) ->
  hoare I (for_fold l f b) (fun b' c => b' = foldl g b l /\ I c) E.
Proof.
  revert b. induction l as [|x l IH]; intros b Hf; simpl.
  - by intros c Hc.
  - eapply hoare_bind; [apply Hf; by left|].
    intros b' c [-> Hc]. refine (IH (g b x) _ c Hc).
    intros b'' y Hy. apply Hf. by right.
Qed.

(** A loop whose invariant counts the passes made: a pass that ends
    abnormally leaves [F n], [n] being the number of passes completed
    before it. *)
Lemma hoare_for_each_count {A} (l : list A) (body : A -> py unit)
    (I : nat -> conn -> Prop) (F : nat -> option Z -> conn -> Prop) :
  (forall n x, l !! n = Some x ->
     hoare (I n) (body x) (fun _ => I (S n)) (F n)) ->
  hoare (I 0%nat) (for_each l body) (fun _ => I (length l))
    (fun o c => exists n, (n < length l)%nat /\ F n o c).
Proof.
  revert I F. induction l as [|x l IH]; intros I F Hb; simpl.
  - by intros c Hc.
  - eapply hoare_bind with (R := fun _ => I 1%nat).
    + eapply hoare_conseq; [apply (Hb 0%nat x eq_refl)|done|done|].
      intros o c HF. exists 0%nat. split; [lia|done].
    + intros [].
      eapply hoare_conseq;
        [apply (IH (fun n => I (S n)) (fun n => F (S n)))|done|done|].
      * intros n y Hn. apply (Hb (S n) y Hn).
      * intros o c (n & Hn & HF). exists (S n). split; [lia|done].
Qed.

Lemma cumulative_row_balance db a j m :
  a ∈ accounts_cum (opening_balance db) ->
  p_balance
    (make_row (opening_balance db) m
       (getf (cumulative_map db (opening_balance db) (take (S j) MONTHS)) a)
       a) =
    Spec.cumulative_balance db a j.
Proof.
  intros Ha. cbn [p_balance make_row].
  rewrite get0_ob_map, get0_cumulative_map by done.
  rewrite cumulative_total_spec by apply Forall_take, months_parse.
  done.
Qed.

Lemma month_index_inj i j m :
  MONTHS !! i = Some m -> MONTHS !! j = Some m -> i = j.
Proof. apply NoDup_lookup, MONTHS_NoDup. Qed.

Ltac suffix_goal :=
  first [by exists []|by eexists [_]|by eexists [_; _]
        |by eexists [_; _; _]|by eexists [_; _; _; _]].

Ltac fault_goal := eexists; repeat first [left|right].

Lemma upsert_faults (rows : list param_row) (c : conn) :
  let '(r, c') := upsert_monthly_rows rows c in
  faults c' `suffix_of` faults c /\
  match r with
  | Ok _ => True
  | SysExit _ | Raised => failure_seen (faults c)
  end.
Proof.
  destruct c as [fs lg cm wk]. destruct rows as [|r rows]; [done|].
  unfold upsert_monthly_rows, try_except, bind, start_transaction,
    execute_insert, commit, rollback, execute, next_fault, failure_seen.
  destruct fs as [|[k1|] fs]; simpl.
  - split; [suffix_goal|done].
  - destruct fs as [|[k2|] fs]; simpl; (split; [suffix_goal|fault_goal]).
  - destruct fs as [|[k2|] fs]; simpl.
    + split; [suffix_goal|done].
    + destruct fs as [|[k3|] fs]; simpl; (split; [suffix_goal|fault_goal]).
    + destruct fs as [|[k3|] fs]; simpl.
      * split; [suffix_goal|done].
      * destruct fs as [|[k4|] fs]; simpl;
          (split; [suffix_goal|fault_goal]).
      * split; [suffix_goal|done].
Qed.

Section Faulty.

Variable db : database.
Variable fs : list (option nat).
Implicit Types (P : monthly_table -> Prop).

Lemma next_fault_seen c k :
  faults c `suffix_of` fs -> next_fault c = Some k -> failure_seen fs.
Proof.
  unfold next_fault. intros [pre ->] Hk. exists k.
  destruct (faults c) as [|[k'|] l]; simplify_eq/=.
  apply elem_of_app. right. by left.
Qed.

Lemma live_advance s P c : live fs P c -> live fs P (advance s c).
Proof.
  intros (Hf & Hs & HP). split; [by apply suffix_tail|].
  split; [exact Hs|exact HP].
Qed.

Lemma live_execute s P :
  hoare (live fs P) (execute s) (fun _ => live fs P) (failed_at fs P).
Proof.
  intros c Hc. unfold execute. destruct (next_fault c) as [k|] eqn:E.
  - destruct Hc as (Hf & _ & HP). split; [|exact HP].
    split; [by left|]. by eapply next_fault_seen.
  - by apply live_advance.
Qed.

Lemma live_query {A} table (answer : A) P :
  hoare (live fs P) (query table answer)
    (fun a c => a = answer /\ live fs P c) (failed_at fs P).
Proof.
  unfold query. eapply hoare_bind; [apply live_execute|].
  intros [] c Hc. by split.
Qed.

Lemma live_add_month_sum acct total m P :
  m ∈ MONTHS ->
  hoare (live fs P) (add_month_sum db acct total m)
    (fun v c =>
       v = PrimFloat.add total
             (PyFloat.of_Z
                (voucher_sum_q (voucher_table db m) acct (ym_of m))) /\
       live fs P c)
    (failed_at fs P).
Proof.
  intros Hm. unfold add_month_sum, parse_month_key.
  rewrite (month_in_window_parses m Hm).
  eapply hoare_bind with (R := fun ym c => ym = ym_of m /\ live fs P c);
    [by intros c Hc|].
  intros ym.
  eapply hoare_bind
    with (R := fun r c =>
                 r = voucher_sum_q (voucher_table db m) acct (ym_of m) /\
                 live fs P c).
  - intros c [-> Hc]. by apply live_query.
  - intros r c [-> Hc]. by split.
Qed.

Lemma live_cumulative_voucher_map ms P :
  (forall m, m ∈ ms -> m ∈ MONTHS) ->
  hoare (live fs P) (cumulative_voucher_map db (opening_balance db) ms)
    (fun cmap c =>
       cmap = cumulative_map db (opening_balance db) ms /\ live fs P c)
    (failed_at fs P).
Proof.
  intros Hms. unfold cumulative_voucher_map, cumulative_map.
  apply (hoare_for_fold_value _ _
           (fun cmap acct => <[acct := cumulative_total db acct ms]> cmap)).
  intros cmap acct _.
  eapply hoare_bind
    with (R := fun v c => v = cumulative_total db acct ms /\ live fs P c).
  - unfold cumulative_total.
    apply (hoare_for_fold_value _ _
             (fun t m =>
                PrimFloat.add t
                  (PyFloat.of_Z
                     (voucher_sum_q (voucher_table db m) acct (ym_of m))))).
    intros t m Hm. apply live_add_month_sum. by apply Hms.
  - intros total c [-> Hc]. by split.
Qed.

Lemma live_upsert rows P :
  hoare (live fs P) (upsert_monthly_rows rows)
    (fun _ => live fs (fun t => exists t0, P t0 /\ t = insert_rows rows t0))
    (failed_at fs P).
Proof.
  intros c (Hf & Hs & HP).
  pose proof (upsert_outcome rows c Hs) as H1.
  pose proof (upsert_faults rows c) as H2.
  assert (failure_seen (faults c) -> failure_seen fs) as Hseen.
  { intros [k Hk]. exists k. destruct Hf as [pre ->].
    apply elem_of_app. by right. }
  destruct (upsert_monthly_rows rows c) as [[n| |] c'].
  - destruct H1 as (_ & Hs' & Hc'), H2 as [Hf' _].
    split_and!; [by etrans|done|by exists (committed c)].
  - destruct H1 as (-> & _ & Hc'), H2 as [_ Hk].
    split; [|by rewrite Hc']. split; [by right|auto].
  - destruct H2 as [_ Hk].
    split; [|by rewrite H1]. split; [by left|auto].
Qed.

Lemma live_fetch_voucher_amounts m accts P :
  m ∈ MONTHS ->
  hoare (live fs P) (fetch_voucher_amounts_for_month db m accts)
    (fun v c =>
       (v = voucher_map_of db m accts \/ failure_seen fs /\ v = ∅) /\
       live fs P c)
    (failed_at fs P).
Proof.
  intros Hm c Hc.
  destruct (next_fault c) as [k|] eqn:E.
  - rewrite (fetch_voucher_amounts_fault db m accts c k Hm E).
    split; [|by apply live_advance]. right. split; [|done].
    destruct Hc as [Hf _]. by eapply next_fault_seen.
  - unfold fetch_voucher_amounts_for_month, try_except, bind,
      parse_month_key.
    rewrite (month_in_window_parses m Hm). simpl.
    unfold query_in, voucher_map_of.
    destruct (SqlText.parse_in_list _);
      unfold query, bind, execute, raise, ret; rewrite E;
      (split; [by left|by apply live_advance]).
Qed.

Variable t0 : monthly_table.

Lemma live_process_cumulative n m :
  MONTHS !! n = Some m ->
  hoare (live fs (cum_prog db t0 n))
    (process_cumulative db (opening_balance db) (n, m))
    (fun _ => live fs (cum_prog db t0 (S n)))
    (failed_at fs (cum_prog db t0 n)).
Proof.
  intros Hn. unfold process_cumulative. cbn [fst snd].
  eapply hoare_bind.
  { apply live_cumulative_voucher_map. intros x Hx.
    apply elem_of_take in Hx as (i & Hi & _).
    by apply list_elem_of_lookup_2 in Hi. }
  intros cmap.
  eapply hoare_bind
    with (R := fun _ => live fs (cum_prog db t0 (S n)));
    [|by intros k c Hc].
  intros c [-> Hc].
  pose proof
    (live_upsert
       (map (fun acct =>
               make_row (opening_balance db) m
                 (getf (cumulative_map db (opening_balance db)
                          (take (S n) MONTHS)) acct)
                 acct)
          (accounts_cum (opening_balance db)))
       (cum_prog db t0 n) c Hc) as H.
  destruct (upsert_monthly_rows _ c) as [[k| |] c']; [|done|done].
  destruct H as (Hf & Hs & t1 & (H1 & H2 & H3) & Ht).
  split_and!; [done|done|]. rewrite Ht. split_and!.
  - intros a j mj Ha Hj Hlt. rewrite insert_rows_lookup.
    destruct (decide (j = n)) as [->|Hne].
    + assert (mj = m) as -> by congruence.
      apply cell_after_balance.
      * intros r (acct & -> & Hacct)%elem_of_map [= ->].
        by apply cumulative_row_balance.
      * right. eexists. split; [apply elem_of_map; by exists a|done].
    + rewrite cell_after_frame; [apply (H1 a j mj Ha Hj); lia|].
      intros r (acct & -> & _)%elem_of_map [= _ E]. subst mj.
      by apply Hne, (month_index_inj j n m).
  - intros a j mj Hj Hle.
    rewrite insert_rows_lookup, cell_after_frame;
      [apply (H2 a j mj Hj); lia|].
    intros r (acct & -> & _)%elem_of_map [= _ E]. subst mj.
    pose proof (month_index_inj j n m Hj Hn). lia.
  - intros a mj Ha.
    rewrite insert_rows_lookup, cell_after_frame; [by apply H3|].
    by intros r (acct & -> & Hacct)%elem_of_map [= -> _].
Qed.

Lemma live_process_noncumulative p m :
  MONTHS !! p = Some m ->
  hoare (live fs (per_prog db fs t0 p))
    (process_noncumulative db (opening_balance db) m)
    (fun _ => live fs (per_prog db fs t0 (S p)))
    (failed_at fs (per_prog db fs t0 p)).
Proof.
  intros Hp. assert (m ∈ MONTHS) as Hm by by eapply list_elem_of_lookup_2.
  unfold process_noncumulative.
  eapply hoare_bind; [by apply live_fetch_voucher_amounts|].
  intros vmap.
  eapply hoare_bind
    with (R := fun _ => live fs (per_prog db fs t0 (S p)));
    [|by intros k c Hc].
  intros c [Hv Hc].
  pose proof
    (live_upsert
       (map (fun acct =>
               make_row (opening_balance db) m
                 (PyFloat.of_Z (get0 vmap acct)) acct)
          (accounts_noncum (opening_balance db)))
       (per_prog db fs t0 p) c Hc) as H.
  destruct (upsert_monthly_rows _ c) as [[k| |] c']; [|done|done].
  destruct H as (Hf & Hs & t1 & (H1 & H2 & H3) & Ht).
  split_and!; [done|done|]. rewrite Ht. split_and!.
  - intros a j mj Ha Hna Hj.
    rewrite insert_rows_lookup, cell_after_frame; [by apply (H1 a j mj)|].
    by intros r (acct & -> & Hacct)%elem_of_map [= -> _].
  - intros a j mj Ha Hj Hlt. rewrite !insert_rows_lookup.
    destruct (decide (j = p)) as [->|Hne].
    + assert (mj = m) as -> by congruence.
      destruct Hv as [->|[Hseen ->]].
      * left. apply cell_after_balance.
        -- intros r (acct & -> & Hacct)%elem_of_map [= ->].
           cbn [p_balance make_row]. by rewrite get0_ob_map.
        -- right. eexists. split; [apply elem_of_map; by exists a|done].
      * right. split; [done|]. apply cell_after_balance.
        -- intros r (acct & -> & Hacct)%elem_of_map [= ->].
           cbn [p_balance make_row]. rewrite get0_ob_map.
           unfold get0. by rewrite lookup_empty.
        -- right. eexists. split; [apply elem_of_map; by exists a|done].
    + rewrite cell_after_frame; [apply (H2 a j mj Ha Hj); lia|].
      intros r (acct & -> & _)%elem_of_map [= _ E]. subst mj.
      by apply Hne, (month_index_inj j p m).
  - intros a j mj Ha Hna Hj Hle.
    rewrite insert_rows_lookup, cell_after_frame;
      [apply (H3 a j mj Ha Hna Hj); lia|].
    intros r (acct & -> & _)%elem_of_map [= _ E]. subst mj.
    pose proof (month_index_inj j p m Hj Hp). lia.
Qed.

Lemma cum_prog_start : cum_prog db t0 0 t0.
Proof. split_and!; [|done|done]. intros a j m _ _ Hlt. lia. Qed.

Lemma cum_prog_per_prog t :
  cum_prog db t0 (length MONTHS) t -> per_prog db fs t0 0 t.
Proof.
  intros (H1 & H2 & H3). split_and!.
  - intros a j m Ha _ Hj. apply (H1 a j m Ha Hj).
    by apply lookup_lt_Some in Hj.
  - intros a j m _ _ Hlt. lia.
  - intros a j m _ Ha _ _. by apply H3.
Qed.

Lemma live_phases :
  hoare (live fs (cum_prog db t0 0))
    (cumulative_phase db (opening_balance db);;;
     noncumulative_phase db (opening_balance db))
    (fun _ => live fs (per_prog db fs t0 (length MONTHS)))
    (fun o c => failed fs o c /\ stopped db fs t0 (committed c)).
Proof.
  eapply hoare_bind
    with (R := fun _ => live fs (cum_prog db t0 (length MONTHS))).
  - unfold cumulative_phase.
    destruct (accounts_cum (opening_balance db)) as [|a0 l0] eqn:Ecum.
    + intros c (Hf & Hs & _ & H2 & H3). split_and!; [done|done|].
      split_and!; [| |done].
      * intros a j m Ha. rewrite Ecum in Ha. by apply elem_of_nil in Ha.
      * intros a j m Hj _. apply (H2 a j m Hj). lia.
    + eapply hoare_conseq;
        [apply (hoare_for_each_count (imap pair MONTHS) _
                  (fun n => live fs (cum_prog db t0 n))
                  (fun n => failed_at fs (cum_prog db t0 n)))
        |done| |].
      * intros n [j m] Hx. rewrite list_lookup_imap in Hx.
        destruct (MONTHS !! n) as [mn|] eqn:En; simplify_eq/=.
        by apply live_process_cumulative.
      * intros [] c. by rewrite length_imap.
      * intros o c (n & Hn & Hfail & Hprog). split; [done|].
        left. exists n. by rewrite length_imap in Hn.
  - intros []. unfold noncumulative_phase.
    destruct (accounts_noncum (opening_balance db)) as [|a0 l0] eqn:Enon.
    + intros c (Hf & Hs & Hcum). split_and!; [done|done|].
      apply cum_prog_per_prog in Hcum as (H1 & _ & _). split_and!; [done|..].
      * intros a j m Ha. rewrite Enon in Ha. by apply elem_of_nil in Ha.
      * intros a j m Ha. rewrite Enon in Ha. by apply elem_of_nil in Ha.
    + eapply hoare_conseq;
        [apply (hoare_for_each_count MONTHS _
                  (fun p => live fs (per_prog db fs t0 p))
                  (fun p => failed_at fs (per_prog db fs t0 p)))
        | |done|].
      * intros p m Hp. by apply live_process_noncumulative.
      * intros c (Hf & Hs & Hcum). split_and!; [done|done|].
        by apply cum_prog_per_prog.
      * intros o c (p & Hp & Hfail & Hprog). split; [done|].
        right. by exists p.
Qed.

Lemma live_validate P :
  hoare (live fs P) (validate_tables db) (fun _ => live fs P)
    (fun o c => (o = Some 2 \/ failed fs o c) /\ P (committed c)).
Proof.
  unfold validate_tables. apply hoare_for_each. intros x _ c Hc.
  unfold bind, execute. destruct (next_fault c) as [k|] eqn:E.
  - destruct Hc as (Hf & _ & HP). split; [|exact HP]. right.
    split; [by left|]. by eapply next_fault_seen.
  - unfold ret. destruct (Sql.IN x (schema_tables db)); simpl.
    + by apply live_advance.
    + destruct Hc as (_ & _ & HP). split; [by left|exact HP].
Qed.

Lemma live_after_validation :
  hoare (live fs (cum_prog db t0 0))
    (let* ob_df_all := query OPENING_BALANCE_TABLE (opening_balance db) in
     match accounts_cum ob_df_all, accounts_noncum ob_df_all with
     | [], [] => sys_exit 0
     | _, _ => cumulative_phase db ob_df_all;;;
               noncumulative_phase db ob_df_all
     end)
    (fun _ => live fs (per_prog db fs t0 (length MONTHS)))
    (fun o c =>
       o = Some 0 /\ accounts_cum (opening_balance db) = [] /\
       accounts_noncum (opening_balance db) = [] /\
       cum_prog db t0 0 (committed c) \/
       failed fs o c /\ stopped db fs t0 (committed c)).
Proof.
  eapply hoare_bind
    with (R := fun a c =>
                 a = opening_balance db /\ live fs (cum_prog db t0 0) c).
  - eapply hoare_conseq; [apply live_query|done|done|].
    intros o c [Hfail Hprog]. right. split; [done|].
    left. exists 0%nat. split; [simpl; lia|done].
  - intros ob' c [-> Hc]. pose proof (live_phases c Hc) as Hph.
    destruct (accounts_cum (opening_balance db)) eqn:E1,
             (accounts_noncum (opening_balance db)) eqn:E2;
      [left; by destruct Hc as (_ & _ & HP)|..];
      (destruct (bind _ _ c) as [[[]| |] c']; [done|by right|by right]).
Qed.

End Faulty.

(** How a run can end, whatever fails. *)
Lemma main_outcome (db : database) (fs : list (option nat))
    (t : monthly_table) :
  match main db (connect t fs) with
  | (Ok _, c') =>
      tables_ok db = true /\ per_prog db fs t (length MONTHS) (committed c')
  | (SysExit code, c') =>
      code = 2 /\ tables_ok db = false /\ committed c' = t \/
      code = 0 /\ tables_ok db = true /\
        accounts_cum (opening_balance db) = [] /\
        accounts_noncum (opening_balance db) = [] /\ committed c' = t \/
      code = 5 /\ failure_seen fs /\ stopped db fs t (committed c')
  | (Raised, c') => failure_seen fs /\ stopped db fs t (committed c')
  end.
Proof.
  assert (live fs (fun t' => t' = t) (connect t fs)) as H0 by by split_and!.
  pose proof (live_validate db fs _ _ H0) as H2.
  pose proof (preflight_loop db required_tables (connect t fs)) as H1.
  cbv zeta in H1.
  unfold main. unfold bind at 1. unfold validate_tables in *.
  assert ((0 < length MONTHS)%nat) as Hlen by (simpl; lia).
  destruct (for_each required_tables _ (connect t fs)) as [[[]|code|] c1].
  - destruct H1 as (_ & _ & _ & Hok & _).
    assert (live fs (cum_prog db t 0) c1) as H2'.
    { destruct H2 as (Hf & Hs & Hc1). split_and!; [done|done|].
      rewrite Hc1. apply cum_prog_start. }
    pose proof (live_after_validation db fs t c1 H2') as H3.
    destruct (bind _ _ c1) as [[[]|code|] c2].
    + split; [done|]. by destruct H3 as (_ & _ & H3).
    + destruct H3 as [([= ->] & E1 & E2 & Hprog)|[[[[=]|[= ->]] Hseen] Hst]].
      * right; left. split_and!; try done.
        apply map_eq. intros [a m]. destruct Hprog as (_ & _ & Hout).
        apply Hout. rewrite E1. apply not_elem_of_nil.
      * right; right. by split_and!.
    + destruct H3 as [([=] & _)|[[_ Hseen] Hst]]. by split.
  - destruct H1 as (_ & _ & _ & -> & Hok). left.
    destruct H2 as [_ ->]. by split_and!.
  - destruct H2 as [[[=]|[_ Hseen]] ->]. split; [done|].
    left. exists 0%nat. split; [done|]. apply cum_prog_start.
Qed.

(** X11. What the exit status of a run tells, whatever fails. The status
    is 0, 1, 2 or 5: the statuses 3 and 4 of the two unused readers never
    occur. Status 2 means that a required table is missing; status 0
    means that none is; status 1 or 5 means that some statement
    failed. *)
Theorem X11_exit_statuses (db : database) (t : monthly_table)
    (fs : list (option nat)) :
  ((run db t fs).1 = 0 \/ (run db t fs).1 = 1 \/
   (run db t fs).1 = 2 \/ (run db t fs).1 = 5) /\
  ((run db t fs).1 = 2 -> tables_ok db = false) /\
  ((run db t fs).1 = 0 -> tables_ok db = true) /\
  ((run db t fs).1 = 1 \/ (run db t fs).1 = 5 -> exists k, Some k ∈ fs).
Proof.
  unfold run. pose proof (main_outcome db fs t) as H.
  destruct (main db (connect t fs)) as [[[]|code|] c']; simpl.
  - destruct H as [Hok _].
    split_and!; [by left|done|done|by intros [|]].
  - destruct H as [(-> & Hok & _)|[(-> & Hok & _)|(-> & Hseen & _)]].
    + split_and!; [right; right; by left|done|done|by intros [|]].
    + split_and!; [by left|done|done|by intros [|]].
    + split_and!; [by do 3 right|done|done|done].
  - destruct H as [Hseen _].
    split_and!; [right; by left|done|done|done].
Qed.

(** X12. What exit status 0 guarantees, whatever failed on the way, when
    the account codes of the income/expense group hold no backslash and
    no colon: the required tables exist; every asset/liability account
    that is not also an income/expense account holds its cumulative
    balance for every window month; every income/expense account holds,
    for every window month, its periodic balance or, only if some
    statement failed, its bare opening balance. The balances are
    floating-point sums. *)
Theorem X12_status_zero_guarantee (db : database) (t : monthly_table)
    (fs : list (option nat)) :
  (run db t fs).1 = 0 ->
  Forall SqlText.plain (accounts_noncum (opening_balance db)) ->
  tables_ok db = true /\
  (forall a m i,
     a ∈ accounts_cum (opening_balance db) ->
     a ∉ accounts_noncum (opening_balance db) ->
     MONTHS !! i = Some m ->
     mb_opening_balance <$> (run db t fs).2 !! (a, m) =
       Some (Some (Spec.cumulative_balance db a i))) /\
  (forall a m,
     a ∈ accounts_noncum (opening_balance db) -> m ∈ MONTHS ->
     mb_opening_balance <$> (run db t fs).2 !! (a, m) =
       Some (Some (Spec.periodic_balance db a m)) \/
     (exists k, Some k ∈ fs) /\
     mb_opening_balance <$> (run db t fs).2 !! (a, m) =
       Some (Some (Spec.bare_balance db a))).
Proof.
  unfold run. pose proof (main_outcome db fs t) as H.
  destruct (main db (connect t fs)) as [[[]|code|] c']; simpl; [| |done].
  - intros _ Hp. destruct H as (Hok & Hcum & Hper & _).
    split_and!; [done| |].
    + intros a m i Ha Hna Hi. by apply (Hcum a i m).
    + intros a m Ha Hm.
      pose proof Hm as (j & Hj)%list_elem_of_lookup_1.
      rewrite <- (periodic_stored_plain db a m) by done.
      apply (Hper a j m Ha Hj). by apply lookup_lt_Some in Hj.
  - intros -> Hp.
    destruct H as [([=] & _)|[(_ & Hok & E1 & E2 & _)|([=] & _)]].
    split_and!; [done| |].
    + intros a m i Ha. rewrite E1 in Ha. by apply elem_of_nil in Ha.
    + intros a m Ha. rewrite E2 in Ha. by apply elem_of_nil in Ha.
Qed.


Lemma income_periodic_group :
  "4000" ∈ accounts_noncum (opening_balance income_db).
Proof. by apply (bool_decide_unpack _). Qed.

Lemma income_run_with_failed_fetch :
  (run income_db ∅ [None; None; None; None; Some 0%nat]).1 = 0.
Proof. vm_compute. reflexivity. Qed.

Lemma income_plain :
  Forall SqlText.plain (accounts_noncum (opening_balance income_db)).
Proof. plain_codes. Qed.

(** The first fetch of the income/expense loop fails: the run ends with
    status 0, and January holds the bare opening balance. *)
Lemma X12_witness :
  (run income_db ∅ [None; None; None; None; Some 0%nat]).1 = 0 /\
  Forall SqlText.plain (accounts_noncum (opening_balance income_db)) /\
  (mb_opening_balance <$>
     (run income_db ∅ [None; None; None; None; Some 0%nat]).2
       !! ("4000", "2025-01") =
     Some (Some (Spec.periodic_balance income_db "4000" "2025-01")) \/
   (exists k, Some k ∈ [None; None; None; None; Some 0%nat]) /\
   mb_opening_balance <$>
     (run income_db ∅ [None; None; None; None; Some 0%nat]).2
       !! ("4000", "2025-01") =
     Some (Some (Spec.bare_balance income_db "4000"))).
Proof.
  split; [exact income_run_with_failed_fetch|].
  split; [exact income_plain|].
  destruct (X12_status_zero_guarantee income_db ∅
              [None; None; None; None; Some 0%nat]
              income_run_with_failed_fetch income_plain) as (_ & _ & H).
  exact (H "4000" "2025-01" income_periodic_group january_in_window).
Defined.


(** ** The writer and the run *)





(** ** The rows of the voucher tables a run depends on *)

Lemma voucher_sum_q_window m rows a :
  year_month m = Some (ym_of m) ->
  voucher_sum_q
    (filter (fun r => Spec.dated_in m r /\ ~ Spec.is_marker (voucher r)) rows)
    a (ym_of m) =
  voucher_sum_q rows a (ym_of m).
Proof.
  intros E. unfold voucher_sum_q.
  rewrite List_filter_filter_decide; [done|]. intros r.
  rewrite !andb_true_iff, in_month_spec, not_marker_spec by done. tauto.
Qed.

Lemma voucher_amounts_q_window m rows accts :
  year_month m = Some (ym_of m) ->
  voucher_amounts_q
    (filter (fun r => Spec.dated_in m r /\ ~ Spec.is_marker (voucher r)) rows)
    accts (ym_of m) =
  voucher_amounts_q rows accts (ym_of m).
Proof.
  intros E. unfold voucher_amounts_q.
  rewrite List_filter_filter_decide; [done|]. intros r.
  rewrite !andb_true_iff, in_month_spec, not_marker_spec by done. tauto.
Qed.

Lemma for_fold_ext_in {A B} (l : list A) (f1 f2 : B -> A -> py B) b c :
  (forall b x c', x ∈ l -> f1 b x c' = f2 b x c') ->
  for_fold l f1 b c = for_fold l f2 b c.
Proof.
  revert b c. induction l as [|x l IH]; intros b c Hf; [done|].
  simpl. apply bind_ext; [apply Hf; by left|].
  intros b' c'. apply IH. intros b'' y c'' Hy. apply Hf. by right.
Qed.

Lemma for_each_ext_in {A} (l : list A) (f1 f2 : A -> py unit) c :
  (forall x c', x ∈ l -> f1 x c' = f2 x c') ->
  for_each l f1 c = for_each l f2 c.
Proof.
  revert c. induction l as [|x l IH]; intros c Hf; [done|].
  simpl. apply bind_ext; [apply Hf; by left|].
  intros _ c'. apply IH. intros y c'' Hy. apply Hf. by right.
Qed.

Section ExtWindow.

Variables db1 db2 : database.
Hypothesis schema_eq : schema_tables db1 = schema_tables db2.
Hypothesis opening_eq : opening_balance db1 = opening_balance db2.
Hypothesis rows_eq : forall m, m ∈ MONTHS ->
  filter (fun r => Spec.dated_in m r /\ ~ Spec.is_marker (voucher r))
    (voucher_table db1 m) =
  filter (fun r => Spec.dated_in m r /\ ~ Spec.is_marker (voucher r))
    (voucher_table db2 m).

Lemma add_month_sum_window acct total m c :
  m ∈ MONTHS ->
  add_month_sum db1 acct total m c = add_month_sum db2 acct total m c.
Proof.
  intros Hm. pose proof (month_in_window_parses m Hm) as Hp.
  unfold add_month_sum, parse_month_key. rewrite Hp.
  unfold bind at 1 3. unfold ret at 1 3. cbv beta iota.
  rewrite <- (voucher_sum_q_window m (voucher_table db1 m)) by done.
  rewrite <- (voucher_sum_q_window m (voucher_table db2 m)) by done.
  by rewrite (rows_eq m Hm).
Qed.

Lemma process_cumulative_window ob im c :
  process_cumulative db1 ob im c = process_cumulative db2 ob im c.
Proof.
  unfold process_cumulative. apply bind_ext; [|done].
  unfold cumulative_voucher_map. apply for_fold_ext. intros cmap acct c1.
  apply bind_ext; [|done]. apply for_fold_ext_in. intros t m c2 Hm.
  apply add_month_sum_window.
  apply elem_of_take in Hm as (i & Hi & _).
  by apply list_elem_of_lookup_2 in Hi.
Qed.

Lemma process_noncumulative_window ob m c :
  m ∈ MONTHS ->
  process_noncumulative db1 ob m c = process_noncumulative db2 ob m c.
Proof.
  intros Hm. pose proof (month_in_window_parses m Hm) as Hp.
  unfold process_noncumulative. apply bind_ext; [|done].
  unfold fetch_voucher_amounts_for_month, parse_month_key. rewrite Hp.
  apply try_except_ext; [|done].
  unfold bind at 1 2. unfold ret at 1 2. cbv beta iota. unfold query_in.
  destruct (SqlText.parse_in_list _) as [values|]; [|done].
  rewrite <- (voucher_amounts_q_window m (voucher_table db1 m)) by done.
  rewrite <- (voucher_amounts_q_window m (voucher_table db2 m)) by done.
  by rewrite (rows_eq m Hm).
Qed.

Lemma main_window c : main db1 c = main db2 c.
Proof.
  unfold main. apply bind_ext.
  { unfold validate_tables. by rewrite schema_eq. }
  intros _ c1. rewrite opening_eq. apply bind_ext; [done|].
  intros ob c2.
  assert (forall c', (cumulative_phase db1 ob;;; noncumulative_phase db1 ob) c' =
                     (cumulative_phase db2 ob;;; noncumulative_phase db2 ob) c')
    as Hph.
  { intros c'. apply bind_ext.
    - unfold cumulative_phase. destruct (accounts_cum ob); [done|].
      apply for_each_ext. intros. apply process_cumulative_window.
    - intros _ c''. unfold noncumulative_phase.
      destruct (accounts_noncum ob); [done|].
      apply for_each_ext_in. intros. by apply process_noncumulative_window. }
  destruct (accounts_cum ob), (accounts_noncum ob); first [done|apply Hph].
Qed.

End ExtWindow.

(** X13. A run, whatever fails during it, depends on the two voucher
    tables only through the rows that are dated in a window month, stored
    in the table that month selects ([vouchers] up to 2025-07,
    [vouchers_curr_month] after) and not marker vouchers: two databases
    with the same schema and opening balances that agree on these rows
    end with the same status and the same [monthly_balance]. *)
Theorem X13_run_reads_window_rows_only (db1 db2 : database)
    (t : monthly_table) (fs : list (option nat)) :
  schema_tables db1 = schema_tables db2 ->
  opening_balance db1 = opening_balance db2 ->
  (forall m, m ∈ MONTHS ->
     filter (fun r => Spec.dated_in m r /\ ~ Spec.is_marker (voucher r))
       (voucher_table db1 m) =
     filter (fun r => Spec.dated_in m r /\ ~ Spec.is_marker (voucher r))
       (voucher_table db2 m)) ->
  run db1 t fs = run db2 t fs.
Proof.
  intros Hs Ho Hrows. unfold run. by rewrite (main_window db1 db2).
Qed.


Lemma misfiled_rows_ignored m :
  m ∈ MONTHS ->
  filter (fun r => Spec.dated_in m r /\ ~ Spec.is_marker (voucher r))
    (voucher_table scenario_db m) =
  filter (fun r => Spec.dated_in m r /\ ~ Spec.is_marker (voucher r))
    (voucher_table misfiled_db m).
Proof.
  unfold MONTHS. intros Hm.
  repeat (apply elem_of_cons in Hm as [->|Hm]; [vm_compute; reflexivity|]).
  by apply elem_of_nil in Hm.
Qed.

Lemma X13_witness :
  run scenario_db enriched_table [None; None; None; None; None; Some 0%nat] =
    run misfiled_db enriched_table
      [None; None; None; None; None; Some 0%nat].
Proof.
  exact (X13_run_reads_window_rows_only scenario_db misfiled_db
           enriched_table [None; None; None; None; None; Some 0%nat]
           eq_refl eq_refl misfiled_rows_ignored).
Defined.


(** ** The historical reader from August on *)

Lemma sumZ_filter_split {X} (f : X -> Z) (P M : X -> Prop)
    `{!forall x, Decision (P x)} `{!forall x, Decision (M x)} (l : list X) :
  Spec.sumZ (map f (filter P l)) =
    Spec.sumZ (map f (filter (fun x => P x /\ ~ M x) l)) +
    Spec.sumZ (map f (filter (fun x => P x /\ M x) l)).
Proof.
  induction l as [|x l IH]; [done|].
  rewrite !filter_cons.
  destruct (decide (P x)) as [HP|HP], (decide (M x)) as [HM|HM].
  - rewrite decide_False, decide_True by tauto. simpl. rewrite IH. lia.
  - rewrite decide_True, decide_False by tauto. simpl. rewrite IH. lia.
  - by rewrite !decide_False by tauto.
  - by rewrite !decide_False by tauto.
Qed.

Lemma curr_month_q_get0 rows accts a :
  a ∈ accts ->
  get0 (curr_month_q rows accts) a =
    Spec.sumZ
      (map amount_original
         (filter (fun r => account_code r = a /\ Spec.dated_in "2025-08" r)
            rows)).
Proof.
  intros Ha. unfold curr_month_q. rewrite group_sum_get0.
  rewrite <- (List_filter_decide
                (fun r => String.eqb (account_code r) a &&
                          in_month (2025, 8) r)).
  2: { intros r. rewrite andb_true_iff, String.eqb_eq.
       by rewrite (in_month_spec "2025-08" r eq_refl). }
  induction rows as [|r rows IH]; [done|]. simpl.
  destruct (String.eqb_spec (account_code r) a) as [E|Hne].
  - assert (Sql.IN (account_code r) accts = true) as ->
      by (apply IN_true; by rewrite E).
    rewrite andb_true_r. simpl.
    destruct (in_month (2025, 8) r); simpl; [|done].
    apply String.eqb_eq in E. rewrite E. simpl. by rewrite IH.
  - simpl.
    destruct (in_month (2025, 8) r && Sql.IN (account_code r) accts);
      simpl; [|done].
    apply String.eqb_neq in Hne. by rewrite Hne.
Qed.

(** X14. [fetch_historical_for_month] from August on. For 2025-08 it
    reads [vouchers_curr_month] whatever [use_smoothened] says, and what
    it returns for a requested account, the requested codes holding no
    backslash and no colon, is the month's transaction sum with the
    marker vouchers included: the sum the loops use plus the markers'
    total. For any later month (any key after 2025-07 other than
    2025-08) it returns the empty dict without sending a statement. *)
Theorem X14_historical_reader_from_august (db : database) :
  (forall accts a (use_smoothened : bool) c,
     Forall SqlText.plain accts ->
     a ∈ accts -> next_fault c = None ->
     exists d,
       fetch_historical_for_month db "2025-08" accts use_smoothened c =
         (Ok d, advance (SelectFrom "vouchers_curr_month") c) /\
       get0 d a =
         Spec.month_activity db a "2025-08" +
         Spec.sumZ
           (map amount_original
              (filter (fun r => account_code r = a /\
                                Spec.dated_in "2025-08" r /\
                                Spec.is_marker (voucher r))
                 (vouchers_curr_month db)))) /\
  (forall m accts (use_smoothened : bool) c,
     PyStr.le m "2025-07" = false -> m <> "2025-08" ->
     fetch_historical_for_month db m accts use_smoothened c = (Ok ∅, c)).
Proof.
  split.
  - intros accts a smooth c Hp Ha Hf.
    assert (accts <> []) as Hne by (intros E; rewrite E in Ha; inversion Ha).
    exists (curr_month_q (vouchers_curr_month db) accts). split.
    + unfold fetch_historical_for_month, try_except.
      change (PyStr.le "2025-08" "2025-07") with false.
      rewrite !andb_false_r.
      change (String.eqb "2025-08" "2025-08") with true. cbv beta iota.
      unfold query_in. rewrite (parse_in_list_plain accts Hne Hp).
      unfold query, bind, execute. by rewrite Hf.
    + rewrite curr_month_q_get0 by done.
      rewrite (sumZ_filter_split amount_original _
                 (fun r => Spec.is_marker (voucher r))).
      unfold Spec.month_activity, Spec.activity_rows.
      change (voucher_table db "2025-08") with (vouchers_curr_month db).
      f_equal; do 2 f_equal; apply list_filter_iff; intros r; tauto.
  - intros m accts smooth c Hle Hne.
    unfold fetch_historical_for_month, try_except.
    rewrite Hle, !andb_false_r.
    by apply String.eqb_neq in Hne as ->.
Qed.

(** ** The reader of [monthly_balance] *)

Lemma filter_none {X} (P : X -> Prop) `{!forall x, Decision (P x)}
    (l : list X) :
  (forall x, x ∈ l -> ~ P x) -> filter P l = [].
Proof.
  induction l as [|x l IH]; intros Hl; [done|].
  rewrite filter_cons, decide_False by (apply Hl; by left).
  apply IH. intros y Hy. apply Hl. by right.
Qed.

Lemma filter_key_NoDup {K V} `{EqDecision K} (l : list (K * V)) k v :
  NoDup (l.*1) -> (k, v) ∈ l ->
  filter (fun kv : K * V => kv.1 = k) l = [(k, v)].
Proof.
  induction l as [|kv0 l IH]; intros Hnd Hin; [by apply elem_of_nil in Hin|].
  rewrite fmap_cons in Hnd. apply NoDup_cons in Hnd as [Hk0 Hnd].
  rewrite filter_cons.
  apply elem_of_cons in Hin as [<-|Hin].
  - rewrite decide_True by done. f_equal. apply filter_none.
    intros kv Hkv E. apply Hk0. simpl. rewrite <- E.
    apply list_elem_of_fmap. by exists kv.
  - rewrite decide_False; [by apply IH|].
    intros E. apply Hk0. rewrite E.
    apply list_elem_of_fmap. by exists (k, v).
Qed.

Lemma filter_key_map_to_list (t : monthly_table) (k : string * string) :
  filter (fun kv : string * string * monthly_row => kv.1 = k)
    (map_to_list t) =
  match t !! k with
  | Some v => [(k, v)]
  | None => []
  end.
Proof.
  destruct (t !! k) as [v|] eqn:E.
  - apply filter_key_NoDup; [apply NoDup_fst_map_to_list|].
    by apply elem_of_map_to_list.
  - apply filter_none. intros [k' v'] Hin. simpl. intros ->.
    apply elem_of_map_to_list in Hin. by rewrite E in Hin.
Qed.

Lemma monthly_q_lookup (t : monthly_table) (m : string)
    (accts : list string) (a : string) :
  monthly_q t m accts !! a =
    if decide (a ∈ accts)
    then (fun row => default PrimFloat.zero (mb_opening_balance row)) <$>
           t !! (a, m)
    else None.
Proof.
  unfold monthly_q.
  rewrite (py_dict_lookup
             (fun kv : string * string * monthly_row => kv.1.1)
             (fun kv =>
                Sql.COALESCE (mb_opening_balance kv.2) PrimFloat.zero)).
  rewrite (List_filter_decide _
             (fun kv : string * string * monthly_row =>
                kv.1.2 = m /\ kv.1.1 ∈ accts)).
  2: { intros kv. by rewrite andb_true_iff, String.eqb_eq, IN_true. }
  rewrite list_filter_filter.
  destruct (decide (a ∈ accts)) as [Ha|Ha].
  - rewrite (list_filter_iff _ (fun kv => kv.1 = (a, m))).
    2: { intros [[a' m'] row]. simpl. split.
         - by intros (-> & -> & _).
         - by intros [= -> ->]. }
    rewrite filter_key_map_to_list. by destruct (t !! (a, m)).
  - rewrite filter_none; [done|].
    intros kv _ (E & _ & Hin). by rewrite E in Hin.
Qed.

(** X15. [fetch_monthly_for_month], for a non-empty list of account
    codes without backslash or colon and a month key without quote,
    backslash or colon. When its query succeeds it returns, for each
    requested account that has a row for the month, the balance the
    session sees (NULL read as 0), and no entry for any other account;
    when the query fails the run ends with status 4. It reads back what
    the writer wrote: after a successful upsert of a batch, the entry of
    a row's account is the row's balance. *)
Theorem X15_monthly_reader_reads_back (m : string) (accts : list string)
    (c : conn) :
  accts <> [] ->
  Forall SqlText.plain accts ->
  SqlText.plain_key m ->
  (next_fault c = None ->
   exists d,
     fetch_monthly_for_month m accts c =
       (Ok d, advance (SelectFrom MONTHLY_TABLE) c) /\
     forall a,
       d !! a =
         if decide (a ∈ accts)
         then (fun row => default PrimFloat.zero (mb_opening_balance row)) <$>
                working c !! (a, m)
         else None) /\
  (forall k, next_fault c = Some k ->
     fetch_monthly_for_month m accts c =
       (SysExit 4, advance (SelectFrom MONTHLY_TABLE) c)) /\
  (forall rows r,
     faults c = [] -> synced c ->
     r ∈ rows -> p_month_key r = m -> p_account r ∈ accts ->
     (forall r', r' ∈ rows -> row_key r' = row_key r ->
                 p_balance r' = p_balance r) ->
     exists d c',
       (upsert_monthly_rows rows;;; fetch_monthly_for_month m accts) c =
         (Ok d, c') /\
       d !! p_account r = Some (p_balance r)).
Proof.
  intros Hne Hp _.
  assert (forall c',
            fetch_monthly_for_month m accts c' =
              try_except
                (query MONTHLY_TABLE (monthly_q (working c') m accts))
                (sys_exit 4) c') as Hfetch.
  { intros c'. unfold fetch_monthly_for_month, try_except, query_in.
    by rewrite (parse_in_list_plain accts Hne Hp). }
  split_and!.
  - intros Hf. exists (monthly_q (working c) m accts). split.
    + rewrite Hfetch. unfold try_except, query, bind, execute.
      by rewrite Hf.
    + intros a. apply monthly_q_lookup.
  - intros k Hf.
    rewrite Hfetch. unfold try_except, query, bind, execute.
    by rewrite Hf.
  - intros rows r Hf Hs Hr Hm Ha Hb.
    destruct (quietly_upsert rows c Hf Hs) as (c1 & E1 & Hf1 & Hs1 & Hw1).
    exists (monthly_q (working c1) m accts),
           (advance (SelectFrom MONTHLY_TABLE) c1).
    split.
    + unfold bind. rewrite E1, Hfetch.
      unfold try_except, query, bind, execute, next_fault.
      by rewrite Hf1.
    + rewrite monthly_q_lookup, decide_True by done.
      rewrite Hw1, <- Hm. change (p_account r, p_month_key r) with (row_key r).
      rewrite insert_rows_lookup.
      pose proof (cell_after_balance (row_key r) rows
                    (working c !! row_key r) (p_balance r)) as H.
      destruct (cell_after (row_key r) rows (working c !! row_key r))
        as [row|]; simpl in *.
      * assert (Some (mb_opening_balance row) = Some (Some (p_balance r)))
          as [= ->]; [|done].
        apply H; [done|]. right. by exists r.
      * assert (@None (option PrimFloat.float) = Some (Some (p_balance r)))
          as [=].
        apply H; [done|]. right. by exists r.
Qed.


Lemma X15_witness :
  ["1000"] <> [] /\
  Forall SqlText.plain ["1000"] /\
  SqlText.plain_key "2025-01" /\
  exists d,
    fetch_monthly_for_month "2025-01" ["1000"] (connect enriched_table []) =
      (Ok d, advance (SelectFrom MONTHLY_TABLE) (connect enriched_table [])) /\
    d !! "1000" = Some (PyFloat.of_Z 1) /\ d !! "4000" = None.
Proof.
  assert (["1000"] <> []) as Hne by discriminate.
  assert (Forall SqlText.plain ["1000"]) as Hp by plain_codes.
  assert (SqlText.plain_key "2025-01") as Hk by plain_codes.
  split; [exact Hne|]. split; [exact Hp|]. split; [exact Hk|].
  destruct (X15_monthly_reader_reads_back "2025-01" ["1000"]
              (connect enriched_table []) Hne Hp Hk) as (H & _ & _).
  destruct (H eq_refl) as (d & E & Hd).
  exists d. split; [exact E|]. split.
  - rewrite (Hd "1000"). vm_compute. reflexivity.
  - rewrite (Hd "4000"). vm_compute. reflexivity.
Defined.


(** ** Batches of the writer *)

Lemma filter_key_short (rows : list param_row) (k : string * string) :
  NoDup (map row_key rows) ->
  filter (fun r => row_key r = k) rows = [] \/
  exists r, filter (fun r => row_key r = k) rows = [r].
Proof.
  intros Hnd.
  assert (NoDup (map row_key (filter (fun r => row_key r = k) rows))) as Hf.
  { eapply sublist_NoDup; [exact Hnd|].
    apply (fmap_sublist row_key), sublist_filter. }
  assert (Forall (fun r => row_key r = k)
            (filter (fun r => row_key r = k) rows)) as Hk.
  { apply Forall_forall. by intros r [? _]%list_elem_of_filter. }
  destruct (filter (fun r => row_key r = k) rows) as [|r1 [|r2 l]];
    [by left|right; by exists r1|].
  apply Forall_cons in Hk as [E1 [E2 _]%Forall_cons].
  simpl in Hf. rewrite E1, E2 in Hf.
  apply NoDup_cons in Hf as [Hf _]. exfalso. apply Hf. by left.
Qed.

(** X16. A batch of upserts acts on [monthly_balance] key by key. The
    row stored under a key after the batch is made of the row stored
    before and of the batch's rows with that key, in order: the balance
    of the last one, and for each text column the first value that is
    not blank among the stored one and the incoming ones (a key without
    a row in the batch keeps its row). So replaying a batch changes
    nothing, and the order of the rows of a batch does not matter when
    their keys are distinct. *)
Theorem X16_batch_acts_key_by_key (rows : list param_row)
    (t : monthly_table) :
  (forall k,
     insert_rows rows t !! k =
       cell_of (t !! k) (filter (fun r => row_key r = k) rows)) /\
  insert_rows rows (insert_rows rows t) = insert_rows rows t /\
  (forall rows',
     rows' ≡ₚ rows -> NoDup (map row_key rows) ->
     insert_rows rows' t = insert_rows rows t).
Proof.
  split_and!.
  - intros k. by rewrite insert_rows_lookup, cell_after_cell_of.
  - apply insert_rows_idem.
  - intros rows' Hp Hnd. apply map_eq. intros k.
    rewrite !insert_rows_lookup, !cell_after_cell_of. f_equal.
    pose proof (filter_Permutation (fun r => row_key r = k) _ _ Hp) as Hpf.
    destruct (filter_key_short rows k Hnd) as [E|[r E]]; rewrite E in Hpf |- *.
    + symmetry in Hpf. by apply Permutation_nil in Hpf.
    + symmetry in Hpf. by apply Permutation_length_1_inv in Hpf.
Qed.


(** ** The snapshot importer *)

Lemma last_filter_None {X} (P : X -> Prop) `{!forall x, Decision (P x)}
    (l : list X) :
  last (filter P l) = None <-> forall x, x ∈ l -> ~ P x.
Proof.
  rewrite last_None. split.
  - intros E x Hx HP.
    assert (x ∈ filter P l) as Hin by by apply list_elem_of_filter.
    rewrite E in Hin. by apply elem_of_nil in Hin.
  - apply filter_none.
Qed.

Lemma cols_lower_lookup (df_cols : list string) (k : string) :
  OpeningImport.cols_lower df_cols !! k =
    last (filter (fun c => PyStr.lower c = k) df_cols).
Proof.
  unfold OpeningImport.cols_lower.
  rewrite (py_dict_lookup PyStr.lower (fun c => c)).
  by destruct (last _).
Qed.

Lemma find_column_None (df_cols candidates : list string) :
  OpeningImport.find_column df_cols candidates = None <->
  forall cand c, cand ∈ candidates -> c ∈ df_cols ->
                 PyStr.lower c <> PyStr.lower cand.
Proof.
  unfold OpeningImport.find_column.
  induction candidates as [|cand rest IH]; simpl.
  - split; [|done]. by intros _ cand c ?%elem_of_nil.
  - rewrite cols_lower_lookup.
    destruct (last _) as [c|] eqn:E.
    + split; [done|]. intros H. exfalso.
      assert (c ∈ filter (fun c => PyStr.lower c = PyStr.lower cand) df_cols)
        as [Hc Hin]%list_elem_of_filter.
      { apply last_Some in E as [l' ->]. apply elem_of_app. right. by left. }
      apply (H cand c); [by left|done|done].
    + rewrite IH. pose proof (proj1 (last_filter_None _ _) E) as E'. split.
      * intros H x c [->|Hx]%elem_of_cons Hc; [by apply E'|by apply H].
      * intros H x c Hx Hc. apply H; [by right|done].
Qed.

Lemma find_column_Some (df_cols candidates : list string) (c : string) :
  OpeningImport.find_column df_cols candidates = Some c ->
  exists pre cand post,
    candidates = (pre ++ cand :: post)%list /\
    OpeningImport.find_column df_cols pre = None /\
    last (filter (fun c' => PyStr.lower c' = PyStr.lower cand) df_cols) =
      Some c.
Proof.
  unfold OpeningImport.find_column.
  induction candidates as [|cand rest IH]; simpl; [done|].
  rewrite cols_lower_lookup.
  destruct (last _) as [c0|] eqn:E.
  - intros [= ->]. by exists [], cand, rest.
  - intros (pre & x & post & -> & Hpre & Hx)%IH.
    exists (cand :: pre), x, post. split; [done|]. split; [|done].
    simpl. by rewrite cols_lower_lookup, E.
Qed.

Lemma last_filter_Some {X} (P : X -> Prop) `{!forall x, Decision (P x)}
    (l : list X) (x : X) :
  last (filter P l) = Some x -> x ∈ l /\ P x.
Proof.
  intros [l' E]%last_Some.
  assert (x ∈ filter P l) as [? ?]%list_elem_of_filter; [|done].
  rewrite E. apply elem_of_app. right. by left.
Qed.

Lemma lower_length (s : string) :
  String.length (PyStr.lower s) = String.length s.
Proof. induction s as [|c s IH]; simpl; [done|]. by rewrite IH. Qed.

(** X17. [find_column], for headers and candidates made of ASCII
    characters, looks the candidates up in order, ignoring letter case on
    both sides. It returns [None] exactly when no header equals a
    candidate up to case; otherwise it returns a header of the sheet: the
    one matching the first candidate that matches any header, and the
    last such header when several differ in case only. Only the
    lower-cased candidates matter. *)
Theorem X17_find_column_case_insensitive (df_cols candidates : list string) :
  Forall PyStr.is_ascii df_cols ->
  Forall PyStr.is_ascii candidates ->
  (OpeningImport.find_column df_cols candidates = None <->
   forall cand c, cand ∈ candidates -> c ∈ df_cols ->
                  PyStr.lower c <> PyStr.lower cand) /\
  (forall c,
     OpeningImport.find_column df_cols candidates = Some c ->
     c ∈ df_cols /\
     exists pre cand post,
       candidates = (pre ++ cand :: post)%list /\
       (forall x c', x ∈ pre -> c' ∈ df_cols ->
                     PyStr.lower c' <> PyStr.lower x) /\
       last (filter (fun c' => PyStr.lower c' = PyStr.lower cand) df_cols) =
         Some c) /\
  (forall candidates',
     Forall PyStr.is_ascii candidates' ->
     map PyStr.lower candidates' = map PyStr.lower candidates ->
     OpeningImport.find_column df_cols candidates' =
       OpeningImport.find_column df_cols candidates).
Proof.
  intros _ _. split_and!.
  - apply find_column_None.
  - intros c (pre & cand & post & -> & Hpre & Hc)%find_column_Some.
    split; [by apply last_filter_Some in Hc as [? _]|].
    exists pre, cand, post. split; [done|]. split; [|done].
    by apply find_column_None.
  - unfold OpeningImport.find_column. intros candidates' _.
    revert candidates.
    induction candidates' as [|x l IH]; intros [|y l'] E;
      simplify_eq/=; [done|].
    rewrite H. destruct (_ !! _); [done|]. by apply IH.
Qed.

(** Texts given by their characters, all ASCII. *)
Ltac ascii_texts := repeat constructor.

(** A sheet whose amount column is headed AMOUNT. *)
Lemma X17_witness :
  Forall PyStr.is_ascii ["Account"; "amount"; "AMOUNT"] /\
  Forall PyStr.is_ascii ["opening_balance"; "Opening Balance"; "Amount"] /\
  OpeningImport.find_column ["Account"; "amount"; "AMOUNT"]
    ["opening_balance"; "Opening Balance"; "Amount"] = Some "AMOUNT" /\
  OpeningImport.find_column ["Account"; "amount"; "AMOUNT"]
    ["OPENING_BALANCE"; "opening balance"; "amount"] = Some "AMOUNT".
Proof.
  assert (Forall PyStr.is_ascii ["Account"; "amount"; "AMOUNT"]) as H1
    by ascii_texts.
  assert (Forall PyStr.is_ascii
            ["opening_balance"; "Opening Balance"; "Amount"]) as H2
    by ascii_texts.
  assert (Forall PyStr.is_ascii
            ["OPENING_BALANCE"; "opening balance"; "amount"]) as H3
    by ascii_texts.
  split; [exact H1|]. split; [exact H2|]. split; [reflexivity|].
  destruct (X17_find_column_case_insensitive
              ["Account"; "amount"; "AMOUNT"]
              ["opening_balance"; "Opening Balance"; "Amount"] H1 H2)
    as (_ & _ & H).
  exact (H ["OPENING_BALANCE"; "opening balance"; "amount"] H3 eq_refl).
Defined.

Lemma PREFERRED_COLUMNS_NoDup :
  NoDup (map fst OpeningImport.PREFERRED_COLUMNS).
Proof. by apply (bool_decide_unpack _). Qed.

Lemma PREFERRED_COLUMNS_disjoint :
  Forall (fun tc1 : string * list string =>
    Forall (fun tc2 : string * list string =>
      Forall (fun x =>
        PyStr.lower x <> "" /\
        Forall (fun y => PyStr.lower x = PyStr.lower y -> tc1.1 = tc2.1)
          tc2.2)
        tc1.2)
      OpeningImport.PREFERRED_COLUMNS)
    OpeningImport.PREFERRED_COLUMNS.
Proof. by apply (bool_decide_unpack _). Qed.

Lemma foldl_mapped_lookup (f : list string -> option string)
    (l : list (string * list string)) (mp : gmap string string)
    (t : string) :
  NoDup (map fst l) ->
  foldl (fun mp tc =>
           match f tc.2 with
           | Some found =>
               if String.eqb found "" then mp else <[tc.1 := found]> mp
           | None => mp
           end) mp l !! t =
    match filter (fun tc : string * list string => tc.1 = t) l with
    | tc :: _ =>
        match f tc.2 with
        | Some found => if String.eqb found "" then mp !! t else Some found
        | None => mp !! t
        end
    | [] => mp !! t
    end.
Proof.
  revert mp. induction l as [|[t0 cands] l IH]; intros mp Hnd; [done|].
  simpl in Hnd. apply NoDup_cons in Hnd as [Ht0 Hnd].
  cbn [foldl]. rewrite IH by done. rewrite filter_cons. cbn [fst snd].
  destruct (decide (t0 = t)) as [->|Hne].
  - rewrite filter_none.
    2: { intros [t' c'] Hin. simpl. intros ->. apply Ht0.
         apply elem_of_map. by exists (t, c'). }
    cbn [fst snd]. destruct (f cands) as [found|]; [|done].
    destruct (String.eqb found ""); [done|]. by rewrite lookup_insert_eq.
  - assert (forall mp' : gmap string string,
              mp' !! t = mp !! t ->
              match filter (fun tc : string * list string => tc.1 = t) l with
              | tc :: _ =>
                  match f tc.2 with
                  | Some found =>
                      if String.eqb found "" then mp' !! t else Some found
                  | None => mp' !! t
                  end
              | [] => mp' !! t
              end =
              match filter (fun tc : string * list string => tc.1 = t) l with
              | tc :: _ =>
                  match f tc.2 with
                  | Some found =>
                      if String.eqb found "" then mp !! t else Some found
                  | None => mp !! t
                  end
              | [] => mp !! t
              end) as Hsame by (by intros mp' ->).
    apply Hsame. destruct (f cands) as [found|]; [|done].
    destruct (String.eqb found ""); [done|]. by rewrite lookup_insert_ne.
Qed.

Lemma mapped_lookup (cols : list string) (t : string)
    (cands : list string) :
  (t, cands) ∈ OpeningImport.PREFERRED_COLUMNS ->
  OpeningImport.mapped cols !! t =
    match OpeningImport.find_column cols cands with
    | Some found => if String.eqb found "" then None else Some found
    | None => None
    end.
Proof.
  intros Hin. unfold OpeningImport.mapped.
  rewrite (foldl_mapped_lookup (OpeningImport.find_column cols))
    by apply PREFERRED_COLUMNS_NoDup.
  rewrite (filter_key_NoDup _ t cands);
    [done|apply PREFERRED_COLUMNS_NoDup|done].
Qed.

Lemma mapped_lookup_Some (cols : list string) (t c : string) :
  OpeningImport.mapped cols !! t = Some c ->
  exists cands,
    (t, cands) ∈ OpeningImport.PREFERRED_COLUMNS /\
    OpeningImport.find_column cols cands = Some c.
Proof.
  intros E.
  destruct (filter (fun tc : string * list string => tc.1 = t)
              OpeningImport.PREFERRED_COLUMNS) as [|[t' cands] l] eqn:Ef.
  - unfold OpeningImport.mapped in E.
    rewrite (foldl_mapped_lookup (OpeningImport.find_column cols)) in E
      by apply PREFERRED_COLUMNS_NoDup.
    by rewrite Ef in E.
  - assert ((t', cands) ∈
              filter (fun tc : string * list string => tc.1 = t)
                OpeningImport.PREFERRED_COLUMNS)
      as [Ht Hin]%list_elem_of_filter by (rewrite Ef; by left).
    simpl in Ht. subst t'. exists cands. split; [done|].
    rewrite (mapped_lookup cols t cands Hin) in E.
    destruct (OpeningImport.find_column cols cands) as [found|]; [|done].
    by destruct (String.eqb found "").
Qed.

(** X18. The columns [build_df_for_db] picks. The sheet column that
    feeds a table column is the one [find_column] finds for that
    column's candidates (the test [if found:] never discards a match);
    it is a header of the sheet that equals one of these candidates up
    to letter case; and no sheet column feeds two table columns. *)
Theorem X18_columns_mapped_one_to_one (cols : list string) :
  (forall t cands,
     (t, cands) ∈ OpeningImport.PREFERRED_COLUMNS ->
     OpeningImport.mapped cols !! t =
       OpeningImport.find_column cols cands) /\
  (forall t c,
     OpeningImport.mapped cols !! t = Some c ->
     c ∈ cols /\
     exists cands cand,
       (t, cands) ∈ OpeningImport.PREFERRED_COLUMNS /\ cand ∈ cands /\
       PyStr.lower c = PyStr.lower cand) /\
  (forall t1 t2 c,
     OpeningImport.mapped cols !! t1 = Some c ->
     OpeningImport.mapped cols !! t2 = Some c ->
     t1 = t2).
Proof.
  pose proof PREFERRED_COLUMNS_disjoint as Hdis.
  assert (forall t cands c,
            (t, cands) ∈ OpeningImport.PREFERRED_COLUMNS ->
            OpeningImport.find_column cols cands = Some c ->
            c ∈ cols /\ exists cand, cand ∈ cands /\
                                     PyStr.lower c = PyStr.lower cand)
    as Hfound.
  { intros t cands c _ (pre & cand & post & -> & _ & Hc)%find_column_Some.
    apply last_filter_Some in Hc as [Hin Hl]. split; [done|].
    exists cand. split; [|done]. apply elem_of_app. right. by left. }
  split_and!.
  - intros t cands Hin. rewrite (mapped_lookup cols t cands Hin).
    destruct (OpeningImport.find_column cols cands) as [found|] eqn:E;
      [|done].
    destruct (String.eqb_spec found "") as [->|]; [|done]. exfalso.
    destruct (Hfound t cands "" Hin E) as (_ & cand & Hcand & Hl).
    rewrite Forall_forall in Hdis. specialize (Hdis _ Hin).
    rewrite Forall_forall in Hdis. specialize (Hdis _ Hin).
    rewrite Forall_forall in Hdis. destruct (Hdis _ Hcand) as [Hne _].
    by rewrite <- Hl in Hne.
  - intros t c (cands & Hin & E)%mapped_lookup_Some.
    destruct (Hfound t cands c Hin E) as (Hc & cand & Hcand & Hl).
    split; [done|]. by exists cands, cand.
  - intros t1 t2 c (cands1 & Hin1 & E1)%mapped_lookup_Some
      (cands2 & Hin2 & E2)%mapped_lookup_Some.
    destruct (Hfound t1 cands1 c Hin1 E1) as (_ & cand1 & Hcand1 & Hl1).
    destruct (Hfound t2 cands2 c Hin2 E2) as (_ & cand2 & Hcand2 & Hl2).
    rewrite Forall_forall in Hdis. specialize (Hdis _ Hin1).
    rewrite Forall_forall in Hdis. specialize (Hdis _ Hin2).
    rewrite Forall_forall in Hdis. destruct (Hdis _ Hcand1) as [_ Hd].
    rewrite Forall_forall in Hd. apply (Hd _ Hcand2). congruence.
Qed.


(** ** Where a run stops *)

(** X19. Whatever fails, a run leaves whole months behind, in window
    order (balances are floating-point sums; the account codes of the
    income/expense group are taken to hold no backslash and no colon).
    There are a number [n] of months of the cumulative loop and a
    number [p] of months of the income/expense loop (none unless the
    cumulative loop is over; all of both when the status is 0) such
    that: an account of the asset/liability group only holds its
    cumulative balance for the first [n] months of the window and has
    its rows of the other months as they were; an account of the
    income/expense group only holds its periodic balance (or, after a
    failed fetch, its bare opening balance) for the first [p] months and
    has its rows of the other months as they were. *)
Theorem X19_interrupted_run_leaves_whole_months (db : database)
    (t : monthly_table) (fs : list (option nat)) :
  Forall SqlText.plain (accounts_noncum (opening_balance db)) ->
  exists n p : nat,
    (n <= length MONTHS)%nat /\ (p <= length MONTHS)%nat /\
    ((0 < p)%nat -> n = length MONTHS) /\
    ((run db t fs).1 = 0 -> n = length MONTHS /\ p = length MONTHS) /\
    (forall a j m,
       a ∈ accounts_cum (opening_balance db) ->
       a ∉ accounts_noncum (opening_balance db) ->
       MONTHS !! j = Some m ->
       if decide (j < n)%nat
       then mb_opening_balance <$> (run db t fs).2 !! (a, m) =
              Some (Some (Spec.cumulative_balance db a j))
       else (run db t fs).2 !! (a, m) = t !! (a, m)) /\
    (forall a j m,
       a ∈ accounts_noncum (opening_balance db) ->
       a ∉ accounts_cum (opening_balance db) ->
       MONTHS !! j = Some m ->
       if decide (j < p)%nat
       then mb_opening_balance <$> (run db t fs).2 !! (a, m) =
              Some (Some (Spec.periodic_balance db a m)) \/
            (exists k, Some k ∈ fs) /\
            mb_opening_balance <$> (run db t fs).2 !! (a, m) =
              Some (Some (Spec.bare_balance db a))
       else (run db t fs).2 !! (a, m) = t !! (a, m)).
Proof.
  intros Hplain.
  assert (forall a m,
            a ∈ accounts_noncum (opening_balance db) -> m ∈ MONTHS ->
            periodic_stored db a m = Spec.periodic_balance db a m) as Hps
    by (intros; by apply periodic_stored_plain).
  assert (forall t' : monthly_table,
            stopped db fs t t' ->
            exists n p : nat,
              (n <= length MONTHS)%nat /\ (p <= length MONTHS)%nat /\
              ((0 < p)%nat -> n = length MONTHS) /\
              (forall a j m,
                 a ∈ accounts_cum (opening_balance db) ->
                 a ∉ accounts_noncum (opening_balance db) ->
                 MONTHS !! j = Some m ->
                 if decide (j < n)%nat
                 then mb_opening_balance <$> t' !! (a, m) =
                        Some (Some (Spec.cumulative_balance db a j))
                 else t' !! (a, m) = t !! (a, m)) /\
              (forall a j m,
                 a ∈ accounts_noncum (opening_balance db) ->
                 a ∉ accounts_cum (opening_balance db) ->
                 MONTHS !! j = Some m ->
                 if decide (j < p)%nat
                 then mb_opening_balance <$> t' !! (a, m) =
                        Some (Some (Spec.periodic_balance db a m)) \/
                      failure_seen fs /\
                      mb_opening_balance <$> t' !! (a, m) =
                        Some (Some (Spec.bare_balance db a))
                 else t' !! (a, m) = t !! (a, m))) as Hstop.
  { intros t' [(n & Hn & H1 & H2 & H3)|(p & Hp & H1 & H2 & H3)].
    - exists n, 0%nat. split_and!; [lia|lia|lia| |].
      + intros a j m Ha _ Hj. case_decide; [by apply (H1 a j m)|].
        apply (H2 a j m Hj). lia.
      + intros a j m _ Ha _. rewrite decide_False by lia. by apply H3.
    - exists (length MONTHS), p. split_and!; [lia|lia|done| |].
      + intros a j m Ha Hna Hj.
        rewrite decide_True by by apply lookup_lt_Some in Hj.
        by apply (H1 a j m).
      + intros a j m Ha Hna Hj. case_decide.
        * rewrite <- Hps by (by eauto using list_elem_of_lookup_2).
          by apply (H2 a j m).
        * apply (H3 a j m Ha Hna Hj). lia. }
  unfold run. pose proof (main_outcome db fs t) as H.
  destruct (main db (connect t fs)) as [[[]|code|] c']; cbn [fst snd].
  - destruct H as (_ & H1 & H2 & H3).
    exists (length MONTHS), (length MONTHS).
    split_and!; [lia|lia|done|done| |].
    + intros a j m Ha Hna Hj.
      rewrite decide_True by by apply lookup_lt_Some in Hj.
      by apply (H1 a j m).
    + intros a j m Ha Hna Hj.
      rewrite decide_True by by apply lookup_lt_Some in Hj.
      rewrite <- Hps by (by eauto using list_elem_of_lookup_2).
      apply (H2 a j m Ha Hj). by apply lookup_lt_Some in Hj.
  - destruct H as [(-> & _ & ->)|[(-> & _ & E1 & E2 & ->)|(-> & _ & Hst)]].
    + exists 0%nat, 0%nat. split_and!; [lia|lia|lia|done| |].
      * intros a j m _ _ _. by rewrite decide_False by lia.
      * intros a j m _ _ _. by rewrite decide_False by lia.
    + exists (length MONTHS), (length MONTHS).
      split_and!; [lia|lia|done|done| |].
      * intros a j m Ha. rewrite E1 in Ha. by apply elem_of_nil in Ha.
      * intros a j m Ha. rewrite E2 in Ha. by apply elem_of_nil in Ha.
    + destruct (Hstop _ Hst) as (n & p & Hn & Hp & Hnp & Hc & Hper).
      exists n, p. by split_and!.
  - destruct H as [_ Hst].
    destruct (Hstop _ Hst) as (n & p & Hn & Hp & Hnp & Hc & Hper).
    exists n, p. by split_and!.
Qed.


(** The INSERT of the second month of the cumulative loop fails. *)
Lemma X19_witness :
  Forall SqlText.plain (accounts_noncum (opening_balance scenario_db)) /\
  exists n p : nat,
    (n <= length MONTHS)%nat /\ (p <= length MONTHS)%nat /\
    forall a j m,
      a ∈ accounts_cum (opening_balance scenario_db) ->
      a ∉ accounts_noncum (opening_balance scenario_db) ->
      MONTHS !! j = Some m ->
      if decide (j < n)%nat
      then mb_opening_balance <$>
             (run scenario_db ∅
                [None; None; None; None; None; None; None; None;
                 None; None; None; Some 0%nat]).2 !! (a, m) =
             Some (Some (Spec.cumulative_balance scenario_db a j))
      else (run scenario_db ∅
              [None; None; None; None; None; None; None; None;
               None; None; None; Some 0%nat]).2 !! (a, m) =
           (∅ : monthly_table) !! (a, m).
Proof.
  split; [exact scenario_plain|].
  destruct (X19_interrupted_run_leaves_whole_months scenario_db ∅
              [None; None; None; None; None; None; None; None;
               None; None; None; Some 0%nat] scenario_plain)
    as (n & p & Hn & Hp & _ & _ & Hcum & _).
  exists n, p. split; [exact Hn|]. split; [exact Hp|exact Hcum].
Defined.


(** ** What the grouped fetch returns *)




(** ** The statements of a run *)

Section Sends.

Lemma sends_ret {A} (a : A) : sends (ret a) [].
Proof. intros c Hf. exists a, c. by rewrite app_nil_r. Qed.

Lemma sends_bind {A B} (m : py A) (k : A -> py B) L1 L2 :
  sends m L1 -> (forall a, sends (k a) L2) -> sends (bind m k) (L1 ++ L2).
Proof.
  intros Hm Hk c Hf. destruct (Hm c Hf) as (a & c1 & E1 & Hf1 & Hl1).
  destruct (Hk a c1 Hf1) as (b & c2 & E2 & Hf2 & Hl2).
  exists b, c2. unfold bind. rewrite E1. split; [done|]. split; [done|].
  by rewrite Hl2, Hl1, app_assoc.
Qed.

Lemma sends_ext {A} (m : py A) L L' : L = L' -> sends m L -> sends m L'.
Proof. by intros ->. Qed.

Lemma sends_execute s : sends (execute s) [s].
Proof.
  intros c Hf. exists tt, (advance s c).
  unfold execute, next_fault. rewrite Hf. simpl. by rewrite Hf.
Qed.

Lemma sends_query {A} table (answer : A) :
  sends (query table answer) [SelectFrom table].
Proof.
  unfold query.
  eapply sends_ext; [|eapply sends_bind; [apply sends_execute|]]; [done|].
  intros _. apply sends_ret.
Qed.

Lemma sends_try {A} (body handler : py A) L :
  sends body L -> sends (try_except body handler) L.
Proof.
  intros Hb c Hf. destruct (Hb c Hf) as (a & c1 & E1 & Hf1 & Hl1).
  exists a, c1. unfold try_except. by rewrite E1.
Qed.

Lemma sends_for_fold {A B} (l : list A) (f : B -> A -> py B) (b : B)
    (g : A -> list stmt) :
  (forall b x, x ∈ l -> sends (f b x) (g x)) ->
  sends (for_fold l f b) (concat (map g l)).
Proof.
  revert b. induction l as [|x l IH]; intros b Hf; simpl.
  - apply sends_ret.
  - apply sends_bind; [apply Hf; by left|].
    intros b'. apply IH. intros b'' y Hy. apply Hf. by right.
Qed.

Lemma sends_for_each {A} (l : list A) (body : A -> py unit)
    (g : A -> list stmt) :
  (forall x, x ∈ l -> sends (body x) (g x)) ->
  sends (for_each l body) (concat (map g l)).
Proof.
  induction l as [|x l IH]; intros Hf; simpl.
  - apply sends_ret.
  - apply sends_bind; [apply Hf; by left|].
    intros _. apply IH. intros y Hy. apply Hf. by right.
Qed.

Lemma sends_upsert (rows : list param_row) :
  rows <> [] ->
  sends (upsert_monthly_rows rows)
    [StartTransaction; InsertInto MONTHLY_TABLE (length rows); Commit].
Proof.
  intros Hne. destruct rows as [|r rows]; [done|].
  intros [fs lg cm wk] Hf. simpl in Hf. subst fs.
  eexists _, _. split; [reflexivity|]. split; [done|].
  simpl. by rewrite <- !app_assoc.
Qed.

Lemma concat_map_singleton {A B} (f : A -> B) (l : list A) :
  concat (map (fun x => [f x]) l) = map f l.
Proof. induction l as [|x l IH]; simpl; [done|]. by rewrite IH. Qed.

Variable db : database.

Lemma sends_add_month_sum acct total m :
  m ∈ MONTHS ->
  sends (add_month_sum db acct total m) [SelectFrom (voucher_table_name m)].
Proof.
  intros Hm. unfold add_month_sum, parse_month_key.
  rewrite (month_in_window_parses m Hm).
  apply (sends_bind _ _ [] [_]); [apply sends_ret|]. intros ym.
  apply (sends_bind _ _ [_] []); [apply sends_query|]. intros r.
  apply sends_ret.
Qed.

Lemma sends_process_cumulative i m :
  accounts_cum (opening_balance db) <> [] ->
  sends (process_cumulative db (opening_balance db) (i, m))
    (cumulative_statements (accounts_cum (opening_balance db)) i).
Proof.
  intros Hne. unfold process_cumulative, cumulative_statements.
  cbn [fst snd]. apply sends_bind.
  - unfold cumulative_voucher_map. apply sends_for_fold.
    intros cmap acct _.
    eapply sends_ext; [|eapply sends_bind]; [apply app_nil_r| |].
    + unfold month_sums. rewrite <- concat_map_singleton.
      apply sends_for_fold. intros t mj Hmj. apply sends_add_month_sum.
      apply elem_of_take in Hmj as (j & Hj & _).
      by apply list_elem_of_lookup_2 in Hj.
    + intros total. apply sends_ret.
  - intros cmap.
    eapply sends_ext; [|eapply sends_bind]; [apply app_nil_r| |].
    + rewrite <- (length_map
                    (fun acct =>
                       make_row (opening_balance db) m (getf cmap acct) acct)
                    (accounts_cum (opening_balance db))).
      apply sends_upsert.
      by destruct (accounts_cum (opening_balance db)).
    + intros n. apply sends_ret.
Qed.

Lemma sends_process_noncumulative m :
  m ∈ MONTHS ->
  accounts_noncum (opening_balance db) <> [] ->
  sends (process_noncumulative db (opening_balance db) m)
    (noncumulative_statements (accounts_noncum (opening_balance db)) m).
Proof.
  intros Hm Hne. unfold process_noncumulative, noncumulative_statements.
  apply (sends_bind _ _ [_] [_; _; _]).
  - intros c Hf.
    unfold fetch_voucher_amounts_for_month, try_except, bind,
      parse_month_key.
    rewrite (month_in_window_parses m Hm). simpl. unfold query_in.
    destruct (SqlText.parse_in_list _);
      unfold query, bind, execute, raise, ret, next_fault; rewrite Hf;
      simpl; eexists _, _; (split; [reflexivity|]); simpl; by rewrite Hf.
  - intros vmap.
    eapply sends_ext; [|eapply sends_bind]; [apply app_nil_r| |].
    + rewrite <- (length_map
                    (fun acct =>
                       make_row (opening_balance db) m
                         (PyFloat.of_Z (get0 vmap acct)) acct)
                    (accounts_noncum (opening_balance db))).
      apply sends_upsert.
      by destruct (accounts_noncum (opening_balance db)).
    + intros n. apply sends_ret.
Qed.

Lemma sends_validate_tables :
  tables_ok db = true ->
  sends (validate_tables db) (map SelectSchema required_tables).
Proof.
  intros Hok. unfold validate_tables.
  rewrite <- concat_map_singleton. apply sends_for_each.
  intros x Hx c Hf. exists tt, (advance (SelectSchema x) c).
  unfold bind, execute, next_fault. rewrite Hf. simpl.
  rewrite (tables_ok_IN db x Hok Hx). simpl. by rewrite Hf.
Qed.

Lemma sends_phases :
  sends (cumulative_phase db (opening_balance db);;;
         noncumulative_phase db (opening_balance db))
    (match accounts_cum (opening_balance db) with
     | [] => []
     | accts =>
         concat
           (map (fun im : nat * string => cumulative_statements accts im.1)
              (imap pair MONTHS))
     end ++
     match accounts_noncum (opening_balance db) with
     | [] => []
     | accts => concat (map (noncumulative_statements accts) MONTHS)
     end).
Proof.
  apply sends_bind.
  - unfold cumulative_phase.
    destruct (accounts_cum (opening_balance db)) as [|a0 l0] eqn:E;
      [apply sends_ret|].
    rewrite <- E. apply sends_for_each. intros [i m] _.
    apply sends_process_cumulative. by rewrite E.
  - intros _. unfold noncumulative_phase.
    destruct (accounts_noncum (opening_balance db)) as [|a0 l0] eqn:E;
      [apply sends_ret|].
    rewrite <- E. apply sends_for_each. intros m Hm.
    apply sends_process_noncumulative; [done|by rewrite E].
Qed.

End Sends.

Lemma length_concat_const {A B} (l : list A) (xs : list B) :
  length (concat (map (fun _ => l) xs)) = (length xs * length l)%nat.
Proof.
  induction xs as [|x xs IH]; simpl; [done|].
  rewrite length_app, IH. lia.
Qed.

(** X21. The statements of a run without faults, when the required
    tables exist: three catalogue queries and the read of
    [opening_balance]; then, if there are asset/liability accounts, for
    each month of index [i] one month sum per account and per month from
    the window start ([i] + 1 queries per account) followed by one
    transaction that inserts one row per account; then, if there are
    income/expense accounts, for each month one grouped query followed
    by one transaction. Over the nine months that is 45 month sums per
    asset/liability account. *)
Theorem X21_statements_of_a_run (db : database) (t : monthly_table) :
  tables_ok db = true ->
  log (main db (connect t [])).2 = statements_of_run db /\
  length (statements_of_run db) =
    (4 +
     match accounts_cum (opening_balance db) with
     | [] => 0
     | accts => 45 * length accts + 27
     end +
     match accounts_noncum (opening_balance db) with
     | [] => 0
     | _ => 36
     end)%nat.
Proof.
  intros Hok. split.
  - unfold main, statements_of_run. unfold bind at 1.
    destruct (sends_validate_tables db Hok (connect t []) eq_refl)
      as ([] & c1 & -> & Hf1 & Hl1).
    unfold bind at 1.
    destruct (sends_query OPENING_BALANCE_TABLE (opening_balance db) c1 Hf1)
      as (ob & c2 & E2 & Hf2 & Hl2).
    assert (ob = opening_balance db) as ->.
    { revert E2. unfold query, bind, execute. destruct (next_fault c1);
        [done|]. by intros [= <- _]. }
    rewrite E2.
    destruct (sends_phases db c2 Hf2) as ([] & c3 & E3 & Hf3 & Hl3).
    destruct (accounts_cum (opening_balance db)) as [|a0 l0] eqn:Ec,
             (accounts_noncum (opening_balance db)) as [|b0 k0] eqn:En.
    + unfold sys_exit. cbn [snd]. rewrite Hl2, Hl1.
      change (log (connect t [])) with (@nil stmt).
      by rewrite app_nil_l, <- ?app_assoc.
    + rewrite E3. cbn [snd]. rewrite Hl3, Hl2, Hl1.
      change (log (connect t [])) with (@nil stmt).
      by rewrite app_nil_l, <- ?app_assoc.
    + rewrite E3. cbn [snd]. rewrite Hl3, Hl2, Hl1.
      change (log (connect t [])) with (@nil stmt).
      by rewrite app_nil_l, <- ?app_assoc.
    + rewrite E3. cbn [snd]. rewrite Hl3, Hl2, Hl1.
      change (log (connect t [])) with (@nil stmt).
      by rewrite app_nil_l, <- ?app_assoc.
  - unfold statements_of_run.
    rewrite !length_app. cbn [length map required_tables].
    assert (forall accts : list string,
              length
                (concat
                   (map (fun im : nat * string =>
                           cumulative_statements accts im.1)
                      (imap pair MONTHS))) =
                (45 * length accts + 27)%nat) as Hcum.
    { intros accts. unfold cumulative_statements, month_sums.
      cbn [imap MONTHS map concat fst snd compose].
      rewrite !length_app, !length_concat_const. simpl. lia. }
    assert (forall accts : list string,
              length (concat (map (noncumulative_statements accts) MONTHS)) =
                36%nat) as Hnon by done.
    destruct (accounts_cum (opening_balance db)) as [|a0 l0],
             (accounts_noncum (opening_balance db)) as [|b0 k0];
      rewrite ?Hcum, ?Hnon; simpl; lia.
Qed.

Lemma X21_witness :
  log (main scenario_db (connect ∅ [])).2 = statements_of_run scenario_db /\
  length (statements_of_run scenario_db) = 112%nat.
Proof.
  exact (X21_statements_of_a_run scenario_db ∅ eq_refl).
Defined.


(** ** Running again after a failure *)

Lemma script_row_texts db r :
  script_row db r ->
  p_description r =
    snapshot_row (opening_balance db) (p_account r) ≫= ob_description /\
  p_account_type r =
    snapshot_row (opening_balance db) (p_account r) ≫= ob_account_type.
Proof.
  intros (m & vmap & acct & -> & _ & _).
  unfold make_row, ob_desc_map, ob_type_map.
  cbn [p_account p_description p_account_type].
  by rewrite !get_text_py_dict.
Qed.

(** Whatever fails, a row either is as it was, or has been written by
    the script and then has the texts a run without faults gives it. *)
Lemma run_texts (db : database) (t : monthly_table)
    (fs : list (option nat)) (k : string * string) :
  (run db t fs).2 !! k = t !! k \/
  written_key db k /\
  exists row',
    (run db t fs).2 !! k = Some row' /\
    mb_description row' =
      fill (t !! k ≫= mb_description)
        (snapshot_row (opening_balance db) k.1 ≫= ob_description) /\
    mb_account_type row' =
      fill (t !! k ≫= mb_account_type)
        (snapshot_row (opening_balance db) k.1 ≫= ob_account_type).
Proof.
  apply (run_table_invariant db
           (fun t' : monthly_table =>
              t' !! k = t !! k \/
              written_key db k /\
              exists row',
                t' !! k = Some row' /\
                mb_description row' =
                  fill (t !! k ≫= mb_description)
                    (snapshot_row (opening_balance db) k.1
                       ≫= ob_description) /\
                mb_account_type row' =
                  fill (t !! k ≫= mb_account_type)
                    (snapshot_row (opening_balance db) k.1
                       ≫= ob_account_type)));
    [|by left].
  intros r t' Hr Ht'. rewrite insert_row_lookup.
  case_decide as E; [|done]. right. subst k.
  split; [by apply script_row_written|].
  destruct (script_row_texts db r Hr) as [Hd Hty].
  eexists. split; [done|]. rewrite upsert_cell_fields.
  cbn [mb_description mb_account_type row_key fst].
  rewrite Hd, Hty.
  destruct Ht' as [->|(_ & row' & -> & Hd' & Hty')]; [done|].
  cbn [mbind option_bind]. rewrite Hd', Hty'. cbn [row_key fst].
  by rewrite !fill_fill.
Qed.

Lemma all_rows_texts db k :
  Forall (fun r =>
            p_description r =
              snapshot_row (opening_balance db) k.1 ≫= ob_description /\
            p_account_type r =
              snapshot_row (opening_balance db) k.1 ≫= ob_account_type)
    (filter (fun r => row_key r = k)
       (concat (map (cumulative_batch db) (imap pair MONTHS)) ++
        concat (map (noncumulative_batch db) MONTHS))%list).
Proof.
  apply Forall_forall. intros r [Hk Hr]%list_elem_of_filter.
  destruct (all_rows_key db r Hr) as (_ & -> & ->).
  by rewrite <- Hk.
Qed.

(** X22. A run without faults repairs what a failed run left: started on
    the table an earlier run left behind, wherever that run failed, it
    ends with the very table (every balance, description and account
    type) that a run without faults gives on the original table. *)
Theorem X22_clean_rerun_repairs (db : database) (t : monthly_table)
    (fs : list (option nat)) :
  tables_ok db = true ->
  run_ok db (run db t fs).2 = run_ok db t.
Proof.
  intros Hok. rewrite !run_ok_eq, Hok. f_equal.
  apply map_eq. intros k.
  rewrite !after_run_concat, !insert_rows_lookup, !cell_after_cell_of.
  pose proof (all_rows_texts db k) as Hrs.
  set (rs := filter _ _) in *.
  destruct (run_texts db t fs k) as [->|(Hw & row' & -> & Hd & Hty)];
    [done|].
  unfold cell_of. destruct (last rs) as [r|] eqn:El; [|exfalso].
  - assert (rs <> []) as Hne by (intros E; by rewrite E in El).
    assert (forall d0,
              foldl fill d0 (map p_description rs) =
                fill d0 (snapshot_row (opening_balance db) k.1
                           ≫= ob_description)) as Hfd.
    { intros d0. apply foldl_fill_const; [by destruct rs|].
      apply Forall_forall. intros d (r' & -> & Hr')%elem_of_map.
      by destruct (proj1 (Forall_forall _ _) Hrs r' Hr'). }
    assert (forall d0,
              foldl fill d0 (map p_account_type rs) =
                fill d0 (snapshot_row (opening_balance db) k.1
                           ≫= ob_account_type)) as Hft.
    { intros d0. apply foldl_fill_const; [by destruct rs|].
      apply Forall_forall. intros d (r' & -> & Hr')%elem_of_map.
      by destruct (proj1 (Forall_forall _ _) Hrs r' Hr'). }
    rewrite !Hfd, !Hft. cbn [mbind option_bind].
    by rewrite Hd, Hty, !fill_fill.
  - apply last_None in El.
    destruct (written_key_row db k Hw) as (r & Hr & Hk).
    assert (r ∈ rs) as Hin by by apply list_elem_of_filter.
    rewrite El in Hin. by apply elem_of_nil in Hin.
Qed.


(** The first month sum of the cumulative loop fails; a second run,
    without faults, ends as a run without faults from the start. *)
Lemma X22_witness :
  tables_ok scenario_db = true /\
  run_ok scenario_db
    (run scenario_db enriched_table
       [None; None; None; None; None; None; None; None; Some 0%nat]).2 =
    run_ok scenario_db enriched_table.
Proof.
  split; [reflexivity|].
  exact (X22_clean_rerun_repairs scenario_db enriched_table
           [None; None; None; None; None; None; None; None; Some 0%nat]
           eq_refl).
Defined.
